(** * Historical-Sales: the normalization and aggregation engine of [src/App.jsx]

    A shallow embedding of the data pipeline of the dashboard
    ([toMonthIndex], [normalizeParsedRows], [chartData],
    [monthlyAggAllMonths], [r12Data], [r12ValueData], [branchSummary])
    together with the properties stated about it.

    Modelling conventions.
    - A JavaScript number is a value of [num]: [NaN], the two infinities, or
      an exact rational.  Arithmetic is exact: the rounding of IEEE doubles,
      their overflow to an infinity and the sign of zero are not modelled.
      Comparisons are the same on doubles; a statement that needs a sum or a
      key to be exact is made on whole numbers below 2^53, where the
      arithmetic of doubles does not round.
    - A JavaScript string is a [string]; case folding and white space are the
      ASCII ones.
    - A cell delivered by the CSV reader is a [value]: with dynamic typing a
      cell is [null], a boolean, a number, a [Date] or a string.  A record is
      the list of its own properties in insertion order; reading a name it
      does not have gives the member of that name inherited from
      [Object.prototype], if there is one, and [undefined] otherwise.
    - [null] in an output series is [None] inside the row's map; an absent
      key is a failed lookup.  The cells of a series row are numbers: a cell
      under a name inherited from [Object.prototype] ([constructor],
      [toString], ...) is a text in the program and is outside the model;
      the statements about cell values leave these names out. *)

From Stdlib Require Import ZArith QArith Qcanon Qround String Ascii List Lia Permutation Sorted DecimalString DecimalPos.
From stdpp Require Import base decidable option list numbers strings gmap.

Local Open Scope Z_scope.

(** ** Numbers *)

Inductive num : Type :=
  | NaN
  | PInf
  | NInf
  | Fin (q : Qc).

Global Instance num_eq_dec : EqDecision num.
Proof. solve_decision. Defined.

Global Instance num_inhabited : Inhabited num := populate NaN.

Definition ofZ (z : Z) : num := Fin (Qc_of_Z z).

Definition zero : num := ofZ 0.

(** [a + b] *)
Definition add (a b : num) : num :=
  match a, b with
  | NaN, _ | _, NaN => NaN
  | PInf, NInf | NInf, PInf => NaN
  | PInf, _ | _, PInf => PInf
  | NInf, _ | _, NInf => NInf
  | Fin x, Fin y => Fin (x + y)
  end.

(** unary [-a] *)
Definition neg (a : num) : num :=
  match a with
  | NaN => NaN
  | PInf => NInf
  | NInf => PInf
  | Fin x => Fin (- x)
  end.

(** [a - b] *)
Definition sub (a b : num) : num := add a (neg b).

Definition inf_of_sign (c : comparison) (pos : num) : num :=
  match c with
  | Eq => NaN
  | Gt => pos
  | Lt => neg pos
  end.

(** [a * b] *)
Definition mul (a b : num) : num :=
  match a, b with
  | NaN, _ | _, NaN => NaN
  | Fin x, Fin y => Fin (x * y)
  | Fin x, PInf | PInf, Fin x => inf_of_sign (x ?= 0)%Qc PInf
  | Fin x, NInf | NInf, Fin x => inf_of_sign (x ?= 0)%Qc NInf
  | PInf, PInf | NInf, NInf => PInf
  | PInf, NInf | NInf, PInf => NInf
  end.

(** [a / b]; the only zero is the positive one *)
Definition div (a b : num) : num :=
  match a, b with
  | NaN, _ | _, NaN => NaN
  | Fin x, Fin y =>
      if decide (y = 0%Qc) then inf_of_sign (x ?= 0)%Qc PInf else Fin (x / y)
  | Fin _, _ => zero
  | PInf, Fin y => match (y ?= 0)%Qc with Lt => NInf | _ => PInf end
  | NInf, Fin y => match (y ?= 0)%Qc with Lt => PInf | _ => NInf end
  | _, _ => NaN
  end.

(** [a < b] *)
Definition ltb (a b : num) : bool :=
  match a, b with
  | NaN, _ | _, NaN => false
  | _, NInf => false
  | NInf, _ => true
  | PInf, _ => false
  | Fin _, PInf => true
  | Fin x, Fin y => bool_decide (x < y)%Qc
  end.

(** [a > b] *)
Definition gtb (a b : num) : bool := ltb b a.

(** [a <= b] *)
Definition leb (a b : num) : bool :=
  match a, b with
  | NaN, _ | _, NaN => false
  | _, _ => negb (ltb b a)
  end.

(** [a >= b] *)
Definition geb (a b : num) : bool := leb b a.

(** [Number.isNaN(a)] *)
Definition isNaN (a : num) : bool :=
  match a with NaN => true | _ => false end.

(** [a !== b] on two numbers *)
Definition strict_neq (a b : num) : bool :=
  match a, b with
  | NaN, _ | _, NaN => true
  | _, _ => negb (bool_decide (a = b))
  end.

(** ToBoolean on a number: [0] and [NaN] are falsy *)
Definition truthy (a : num) : bool :=
  match a with
  | NaN => false
  | Fin x => negb (bool_decide (x = 0%Qc))
  | _ => true
  end.

(** [a || b] on two numbers *)
Definition or_else (a b : num) : num := if truthy a then a else b.

(** [Math.min(a, b)] and [Math.max(a, b)] *)
Definition Math_min (a b : num) : num :=
  match a, b with
  | NaN, _ | _, NaN => NaN
  | _, _ => if ltb b a then b else a
  end.

Definition Math_max (a b : num) : num :=
  match a, b with
  | NaN, _ | _, NaN => NaN
  | _, _ => if ltb a b then b else a
  end.

(** [Math.floor(a)] *)
Definition Math_floor (a : num) : num :=
  match a with
  | Fin x => ofZ (Qfloor x)
  | _ => a
  end.

(** truncation toward zero, as a rational *)
Definition Qc_trunc (x : Qc) : Z :=
  if bool_decide (0 <= x)%Qc then Qfloor x else Qceiling x.

(** [a % b]: the remainder takes the sign of the dividend *)
Definition rem (a b : num) : num :=
  match a, b with
  | NaN, _ | _, NaN => NaN
  | PInf, _ | NInf, _ => NaN
  | Fin _, PInf | Fin _, NInf => a
  | Fin x, Fin y =>
      if decide (y = 0%Qc) then NaN
      else Fin (x - y * Qc_of_Z (Qc_trunc (x / y)))
  end.

(** [Number.isFinite] and [Number.isInteger] *)
Definition isFinite (a : num) : bool :=
  match a with Fin _ => true | _ => false end.


(** ** Strings *)

(** [s.trimStart()], [s.trimEnd()], [s.trim()] over ASCII white space *)
Fixpoint trimStart (s : string) : string :=
  match s with
  | EmptyString => EmptyString
  | String a s' => if Ascii.is_space a then trimStart s' else s
  end.

Fixpoint trimEnd (s : string) : string :=
  match s with
  | EmptyString => EmptyString
  | String a s' =>
      match trimEnd s' with
      | EmptyString => if Ascii.is_space a then EmptyString else String a EmptyString
      | t => String a t
      end
  end.

Definition trim (s : string) : string := trimEnd (trimStart s).

(** [s.toLowerCase()] on ASCII letters *)
Definition lower_ascii (a : ascii) : ascii :=
  let n := N_of_ascii a in
  if (65 <=? n)%N && (n <=? 90)%N then ascii_of_N (n + 32) else a.

Fixpoint toLowerCase (s : string) : string :=
  match s with
  | EmptyString => EmptyString
  | String a s' => String (lower_ascii a) (toLowerCase s')
  end.

(** [s.slice(0, 3)] *)
Definition slice03 (s : string) : string := String.substring 0 3 s.

(** [s.split(sep)] for a one-character separator *)
Fixpoint split (sep : ascii) (s : string) : list string :=
  match s with
  | EmptyString => [EmptyString]
  | String a s' =>
      if Ascii.eqb a sep then EmptyString :: split sep s'
      else match split sep s' with
           | h :: t => String a h :: t
           | [] => [String a EmptyString]
           end
  end.

(** [s.replace(/,/g, "")] *)
Fixpoint remove_commas (s : string) : string :=
  match s with
  | EmptyString => EmptyString
  | String a s' =>
      if Ascii.eqb a ","%char then remove_commas s' else String a (remove_commas s')
  end.

(** *** [Number(s)] on a string (ECMAScript StringToNumber) *)

Definition digit_of (base : Z) (a : ascii) : option Z :=
  let n := Z.of_N (N_of_ascii a) in
  let d :=
    if (48 <=? n) && (n <=? 57) then Some (n - 48)
    else if (97 <=? n) && (n <=? 102) then Some (n - 87)
    else if (65 <=? n) && (n <=? 70) then Some (n - 55)
    else None in
  match d with
  | Some v => if v <? base then Some v else None
  | None => None
  end.

(** the longest run of digits at the head of [s]: accumulated value, number
    of digits read, and the rest of the string *)
Fixpoint digits (base : Z) (s : string) (acc : Z) (n : nat) : Z * nat * string :=
  match s with
  | EmptyString => (acc, n, EmptyString)
  | String a s' =>
      match digit_of base a with
      | Some d => digits base s' (acc * base + d) (S n)
      | None => (acc, n, s)
      end
  end.

(** [m * 10 ^ e] *)
Definition scale10 (m e : Z) : Qc :=
  if 0 <=? e then Qc_of_Z (m * 10 ^ e)
  else (Qc_of_Z m / Qc_of_Z (10 ^ (- e)))%Qc.

(** ExponentPart, when present: [e] or [E], an optional sign, digits to the
    end of the string *)
Definition exponent (s : string) : option Z :=
  match s with
  | EmptyString => Some 0
  | String a r =>
      if Ascii.eqb a "e"%char || Ascii.eqb a "E"%char then
        let '(sg, r') :=
          match r with
          | String "+"%char t => (1, t)
          | String "-"%char t => (-1, t)
          | _ => (1, r)
          end in
        match digits 10 r' 0 0 with
        | (v, S _, EmptyString) => Some (sg * v)
        | _ => None
        end
      else None
  end.

(** StrUnsignedDecimalLiteral *)
Definition unsigned_decimal (s : string) : num :=
  if String.eqb s "Infinity" then PInf
  else
    let '(ip, ni, r1) := digits 10 s 0 0 in
    let '(m, nf, r2) :=
      match r1 with
      | String "."%char r => digits 10 r ip 0
      | _ => (ip, 0%nat, r1)
      end in
    match (ni + nf)%nat with
    | O => NaN
    | S _ =>
        match exponent r2 with
        | Some e => Fin (scale10 m (e - Z.of_nat nf))
        | None => NaN
        end
    end.

(** NonDecimalIntegerLiteral: [0x], [0o], [0b] and their capitals *)
Definition non_decimal (base : Z) (s : string) : num :=
  match digits base s 0 0 with
  | (v, S _, EmptyString) => ofZ v
  | _ => NaN
  end.

Definition StringToNumber (s : string) : num :=
  match trim s with
  | EmptyString => zero
  | String "0"%char (String ("x" | "X")%char r) => non_decimal 16 r
  | String "0"%char (String ("o" | "O")%char r) => non_decimal 8 r
  | String "0"%char (String ("b" | "B")%char r) => non_decimal 2 r
  | String "+"%char r => unsigned_decimal r
  | String "-"%char r => neg (unsigned_decimal r)
  | t => unsigned_decimal t
  end.

(** *** [String(n)] on a number

    Integers print in full; other finite values print their decimal
    expansion, cut after twenty fraction digits.  The exponent notation of
    very large and very small magnitudes is not modelled. *)

Definition Z_to_string (z : Z) : string :=
  DecimalString.NilZero.string_of_int (Z.to_int z).

Fixpoint fraction_digits (fuel : nat) (r d : Z) : string :=
  match fuel with
  | O => EmptyString
  | S fuel' =>
      if r =? 0 then EmptyString
      else String (ascii_of_N (Z.to_N (48 + (r * 10) / d)))
                  (fraction_digits fuel' ((r * 10) mod d) d)
  end.

Definition NumberToString (n : num) : string :=
  match n with
  | NaN => "NaN"
  | PInf => "Infinity"
  | NInf => "-Infinity"
  | Fin q =>
      let a := Qnum (this q) in
      let d := Z.pos (Qden (this q)) in
      if d =? 1 then Z_to_string a
      else
        (if a <? 0 then "-" else "") +:+ Z_to_string (Z.abs a / d) +:+ "." +:+
        fraction_digits 20 (Z.abs a mod d) d
  end.

(** ** Cells and records *)

(** what the property of a parsed CSV record can hold.  A [Date] carries
    its time value in milliseconds ([NaN] for an Invalid Date) and the text
    [String()] gives for it, which depends on the time zone; any other object
    or function carries the text [String()] gives for it. *)
Inductive value : Type :=
  | VUndef
  | VNull
  | VBool (b : bool)
  | VNum (n : num)
  | VStr (s : string)
  | VDate (t : num) (text : string)
  | VObject (text : string).

Global Instance value_eq_dec : EqDecision value.
Proof. solve_decision. Defined.

(** [Number(v)] *)
Definition ToNumber (v : value) : num :=
  match v with
  | VUndef => NaN
  | VNull => zero
  | VBool b => if b then ofZ 1 else zero
  | VNum n => n
  | VStr s => StringToNumber s
  | VDate t _ => t
  | VObject text => StringToNumber text
  end.

(** [String(v)] *)
Definition ToString (v : value) : string :=
  match v with
  | VUndef => "undefined"
  | VNull => "null"
  | VBool b => if b then "true" else "false"
  | VNum n => NumberToString n
  | VStr s => s
  | VDate _ text => text
  | VObject text => text
  end.

(** truthiness of a cell *)
Definition ToBoolean (v : value) : bool :=
  match v with
  | VUndef | VNull => false
  | VBool b => b
  | VNum n => truthy n
  | VStr s => negb (String.eqb s "")
  | VDate _ _ | VObject _ => true
  end.

(** [l.includes(x)] on strings *)
Definition includes (l : list string) (x : string) : bool := bool_decide (x ∈ l).

(** the names of the members of [Object.prototype], which every plain object
    inherits: eleven functions and the accessor [__proto__] *)
Definition Object_prototype_names : list string :=
  ["constructor"; "__defineGetter__"; "__defineSetter__"; "hasOwnProperty";
   "__lookupGetter__"; "__lookupSetter__"; "isPrototypeOf"; "propertyIsEnumerable";
   "toString"; "valueOf"; "__proto__"; "toLocaleString"].

Definition inherited (k : string) : bool := includes Object_prototype_names k.

(** the text of an inherited member: [__proto__] reads as the prototype
    object, [constructor] as the function [Object], any other name as the
    function of that name (in the words of V8; the text matters only in that
    it is not a numeral) *)
Definition member_text (k : string) : string :=
  if String.eqb k "__proto__" then "[object Object]"
  else "function " +:+ (if String.eqb k "constructor" then "Object" else k) +:+
       "() { [native code] }".

(** a record: its own properties in insertion order *)
Definition record : Type := list (string * value).

(** [row[k]]: the own property of that name; without one, the inherited
    member of that name, or [undefined] *)
Fixpoint get (row : record) (k : string) : value :=
  match row with
  | [] => if inherited k then VObject (member_text k) else VUndef
  | (k', v) :: row' => if String.eqb k' k then v else get row' k
  end.

(** [Object.keys(row)] *)
Definition keys (row : record) : list string := map fst row.

(** ** Key and month arithmetic *)

Definition monthNames : list string :=
  ["Jan"; "Feb"; "Mar"; "Apr"; "May"; "Jun"; "Jul"; "Aug"; "Sep"; "Oct"; "Nov"; "Dec"].

Definition ymToKey (y m : num) : num := add (mul y (ofZ 100)) m.

(** the last year whose twelve keys are at most 2^53: up to it a key
    [y * 100 + m] and its decoding are whole numbers that doubles hold
    exactly *)
Definition max_exact_year : Z := 90071992547409.

(** the decoding of a key in [hydrateFromParsed]:
    [Math.floor(key / 100)] and [key % 100] *)
Definition fromKey (key : num) : num * num :=
  (Math_floor (div key (ofZ 100)), rem key (ofZ 100)).

Definition keyFromStr (s : string) : option num :=
  if String.eqb s "" then None
  else
    match map StringToNumber (split "-" s) with
    | yy :: mm :: _ =>
        if negb (truthy yy) || negb (truthy mm) then None
        else Some (ymToKey yy mm)
    | _ => None
    end.

(** [l.findIndex(p)], [None] for [-1] *)
Fixpoint findIndex {A} (p : A → bool) (l : list A) : option nat :=
  match l with
  | [] => None
  | x :: l' => if p x then Some O else S <$> findIndex p l'
  end.

(** [Number(String(m).trim())]; the decimal rendering of a number reads back
    as the number itself *)
Definition reparse (m : value) : num :=
  match m with
  | VNum n => n
  | _ => StringToNumber (trim (ToString m))
  end.

Definition toMonthIndex (m : value) : option num :=
  match m with
  | VUndef | VNull => None
  | _ =>
      let s := trim (ToString m) in
      let n := reparse m in
      if negb (isNaN n) then Some (Math_max (ofZ 1) (Math_min (ofZ 12) n))
      else
        match findIndex
                (λ x, String.eqb (toLowerCase x) (toLowerCase (slice03 s)))
                monthNames with
        | Some idx => Some (ofZ (Z.of_nat idx + 1))
        | None => None
        end
  end.

(** ** The record normalizer *)

Record Fact : Type := mkFact {
  Year : num;
  Month : num;
  Category : string;
  Value : num;
  Branch : option string;
}.

Global Instance Fact_eq_dec : EqDecision Fact.
Proof. solve_decision. Defined.

(** the three [throw] sites of [normalizeParsedRows], by message *)
Inductive Error : Type :=
  | NoHeaders            (* "No headers found in CSV." *)
  | MissingYearOrPeriod  (* "Missing Year or Period/Month columns." *)
  | NoValidRows.         (* "No valid rows found in CSV." *)

Inductive outcome : Type :=
  | Thrown (e : Error)
  | Returned (parsed : list Fact).

Definition DIMENSION_COLUMN_NAMES : list string :=
  ["date"; "month"; "year"; "period"; "branch"].

Definition year_names : list string := ["year"; "yr"; "fy"; "fiscal year"].
Definition period_names : list string := ["period"; "per"; "month"].
Definition branch_names : list string := ["branch name"; "branch"; "store"; "location"].

(** [/^(a|b|...)$/i.test(h)] for lower-case alternatives *)
Definition test_names (names : list string) (h : string) : bool :=
  includes names (toLowerCase h).

(** the header list: [metaFields] when it is a non-empty array, else the keys
    of the first record; each trimmed, empty ones dropped *)
Definition resolve_headers (data : list record) (metaFields : option (list string))
  : list string :=
  let fields :=
    match metaFields with
    | Some ((_ :: _) as f) => f
    | _ => match data with
           | r :: _ => keys r
           | [] => []
           end
    end in
  List.filter (λ h, negb (String.eqb h "")) (map trim fields).

(** [Number(String(raw ?? "").replace(/,/g, ""))] *)
Definition cell_number (raw : value) : num :=
  match raw with
  | VUndef | VNull => StringToNumber (remove_commas "")
  | VNum n => n
  | _ => StringToNumber (remove_commas (ToString raw))
  end.

(** [a || b] where [a] is a number or [null] *)
Definition or_number (a : option num) (b : num) : num :=
  match a with
  | Some x => or_else x b
  | None => b
  end.

(** the inner loop: one cell of one row *)
Definition push_cell (row : record) (Y M : num) (B : value)
    (parsed : list Fact) (col : string) : list Fact :=
  let raw := get row col in
  let value := cell_number raw in
  if isNaN value then parsed
  else parsed ++ [ {| Year := Y; Month := M; Category := trim col; Value := value;
                      Branch := if ToBoolean B then Some (trim (ToString B)) else None |} ].

(** the outer loop: one row *)
Definition push_row (yearCol periodCol : string) (branchCol : option string)
    (catCols : list string) (parsed : list Fact) (row : record) : list Fact :=
  let Y := ToNumber (get row yearCol) in
  let M := or_number (toMonthIndex (get row periodCol)) (ToNumber (get row periodCol)) in
  if negb (truthy Y) || negb (truthy M) then parsed
  else
    let B := match branchCol with
             | Some c => get row c
             | None => VUndef
             end in
    fold_left (push_cell row Y M B) catCols parsed.

Definition category_columns (headers : list string) (yearCol periodCol : string)
    (branchCol : option string) : list string :=
  let idSet := yearCol :: periodCol :: option_list branchCol in
  List.filter (λ h, negb (includes DIMENSION_COLUMN_NAMES (toLowerCase (trim h))))
    (List.filter (λ h, negb (String.eqb h "") && negb (includes idSet h)) headers).

Definition normalizeParsedRows (data : list record) (metaFields : option (list string))
  : outcome :=
  let headers := resolve_headers data metaFields in
  match headers with
  | [] => Thrown NoHeaders
  | _ :: _ =>
      let yearCol := List.find (test_names year_names) headers in
      let periodCol := List.find (test_names period_names) headers in
      let branchCol := List.find (test_names branch_names) headers in
      match yearCol, periodCol with
      | Some yearCol, Some periodCol =>
          let catCols := category_columns headers yearCol periodCol branchCol in
          let parsed := fold_left (push_row yearCol periodCol branchCol catCols) data [] in
          match parsed with
          | [] => Thrown NoValidRows
          | _ :: _ => Returned parsed
          end
      | _, _ => Thrown MissingYearOrPeriod
      end
  end.

(** ** Branch filter *)

Definition ALL : string := "__ALL__".

(** the closure [matchBranch] of [chartData], [monthlyAggAllMonths] and
    [branchSummary] (the same text three times) *)
Definition matchBranch (selectedBranches : list string) (r : Fact) : bool :=
  if includes selectedBranches ALL then true
  else
    match Branch r with
    | None => false
    | Some b => if String.eqb b "" then false else includes selectedBranches b
    end.

(** [hasRange]: both keys truthy and [startKey <= endKey] *)
Definition hasRange (startKey endKey : option num) : bool :=
  match startKey, endKey with
  | Some s, Some e => truthy s && truthy e && leb s e
  | _, _ => false
  end.

(** [k < startKey || k > endKey], evaluated only under [hasRange] *)
Definition outside (startKey endKey : option num) (k : num) : bool :=
  match startKey, endKey with
  | Some s, Some e => ltb k s || gtb k e
  | _, _ => false
  end.

(** ** Series rows *)

(** a row of a chart series or of the monthly aggregate: the fixed keys
    [Year], [Month], [month] (the label) and one key per category.  A value
    [None] is [null].  The normalizer never makes a category of a header that
    lower-cases to [year] or [month], so the category keys are kept apart
    from the fixed ones. *)
Record Point : Type := mkPoint {
  pt_Year : num;
  pt_Month : num;
  pt_month : string;
  pt_vals : gmap string (option num);
}.

Global Instance Point_eq_dec : EqDecision Point.
Proof. solve_decision. Defined.

(** [monthNames[M - 1]], [undefined] off the table *)
Definition month_name (M : num) : option string :=
  match sub M (ofZ 1) with
  | Fin q =>
      if bool_decide (q = Qc_of_Z (Qfloor q)) && (0 <=? Qfloor q)
      then monthNames !! Z.to_nat (Qfloor q)
      else None
  | _ => None
  end.

(** the label [`${monthNames[M - 1]} ${Y}`] *)
Definition month_label (M Y : num) : string :=
  default "undefined" (month_name M) +:+ " " +:+ NumberToString Y.

(** [obj[c] || 0] on the row's own cell.  (For a name inherited from
    [Object.prototype] and a row without a cell of its own, the program reads
    the inherited member and the sum that follows is a text.) *)
Definition val_or_0 (obj : Point) (c : string) : num :=
  match pt_vals obj !! c with
  | Some (Some v) => or_else v zero
  | _ => zero
  end.

(** [obj[c] = v] *)
Definition set_val (obj : Point) (c : string) (v : option num) : Point :=
  {| pt_Year := pt_Year obj; pt_Month := pt_Month obj; pt_month := pt_month obj;
     pt_vals := <[c := v]> (pt_vals obj) |}.

(** a [Map] in insertion order, as the list of its values; [is_key] tells
    the entry stored under the key at hand.
    [if (!map.has(k)) map.set(k, init); f(map.get(k))], where [f] updates the
    stored object in place *)
Fixpoint upsert {A} (is_key : A → bool) (init : A) (f : A → A) (map : list A)
  : list A :=
  match map with
  | [] => [f init]
  | p :: map' =>
      if is_key p then f p :: map'
      else p :: upsert is_key init f map'
  end.

(** the key ["YYYY-MM"] of the monthly maps: the compound string identifies
    the pair (Year, Month), which is compared here *)
Definition same_month (y m : num) (p : Point) : bool :=
  bool_decide (pt_Year p = y) && bool_decide (pt_Month p = m).

(** [Array.prototype.sort] with a comparator: a stable insertion sort; a
    comparator result that is not positive leaves the pair in order *)
Fixpoint insert_by {A} (cmp : A → A → num) (x : A) (l : list A) : list A :=
  match l with
  | [] => [x]
  | y :: l' => if gtb (cmp x y) zero then y :: insert_by cmp x l' else x :: l
  end.

Definition sort_by {A} (cmp : A → A → num) (l : list A) : list A :=
  foldr (insert_by cmp) [] l.

(** [(a, b) => a.Year - b.Year || a.Month - b.Month] *)
Definition byYearMonth (a b : Point) : num :=
  or_else (sub (pt_Year a) (pt_Year b)) (sub (pt_Month a) (pt_Month b)).

Definition new_point (r : Fact) : Point :=
  {| pt_Year := Year r; pt_Month := Month r;
     pt_month := month_label (Month r) (Year r); pt_vals := ∅ |}.

(** ** Period aggregator: [chartData] *)

Definition chart_step (selectedCategories selectedBranches : list string)
    (startKey endKey : option num) (map : list Point) (r : Fact) : list Point :=
  if negb (matchBranch selectedBranches r) then map
  else
    let k := ymToKey (Year r) (Month r) in
    if hasRange startKey endKey && outside startKey endKey k then map
    else
      upsert (same_month (Year r) (Month r)) (new_point r)
        (λ obj,
           if includes selectedCategories (Category r)
           then set_val obj (Category r) (Some (add (val_or_0 obj (Category r)) (Value r)))
           else obj)
        map.

Definition chartData (rows : list Fact) (selectedCategories selectedBranches : list string)
    (dateStart dateEnd : string) : list Point :=
  match rows with
  | [] => []
  | _ :: _ =>
      let startKey := keyFromStr dateStart in
      let endKey := keyFromStr dateEnd in
      let map :=
        fold_left (chart_step selectedCategories selectedBranches startKey endKey) rows [] in
      sort_by byYearMonth map
  end.

(** ** Monthly aggregate over all months: [monthlyAggAllMonths] *)

Definition agg_step (selectedBranches : list string) (map : list Point) (r : Fact)
  : list Point :=
  if negb (matchBranch selectedBranches r) then map
  else
    upsert (same_month (Year r) (Month r)) (new_point r)
      (λ obj,
         set_val obj (Category r)
           (Some (add (val_or_0 obj (Category r)) (or_else (Value r) zero))))
      map.

Definition monthlyAggAllMonths (rows : list Fact) (selectedBranches : list string)
  : list Point :=
  match rows with
  | [] => []
  | _ :: _ => sort_by byYearMonth (fold_left (agg_step selectedBranches) rows [])
  end.

(** ** Rolling engine: [r12Data] and [r12ValueData] *)

(** [for (let j = lo; j <= hi; j++) st = body(j, st)], as [n] iterations
    from [lo] *)
Fixpoint for_loop {St} (lo : nat) (n : nat) (body : nat → St → St) (st : St) : St :=
  match n with
  | O => st
  | S n' => for_loop (S lo) n' body (body lo st)
  end.

(** [Number(A[j][cat] || 0)]; the loops only read indices below [A.length].
    Without a cell of its own the row gives [undefined], or, for a name
    inherited from [Object.prototype], the inherited member, which is truthy
    and is not a number. *)
Definition at_cat (A : list Point) (j : nat) (cat : string) : num :=
  match A !! j with
  | Some obj =>
      match pt_vals obj !! cat with
      | Some _ => val_or_0 obj cat
      | None => if inherited cat then NaN else zero
      end
  | None => zero
  end.

(** [acc += Number(A[j][cat] || 0)] for [j] from [lo] to [lo + 11] *)
Definition sum12 (A : list Point) (cat : string) (lo : nat) : num :=
  for_loop lo 12 (λ j acc, add acc (at_cat A j cat)) zero.

Definition bare_point (p : Point) : Point :=
  {| pt_Year := pt_Year p; pt_Month := pt_Month p; pt_month := pt_month p;
     pt_vals := ∅ |}.

(** the display clip at the end of both rolling series *)
Definition clip (dateStart dateEnd : string) (data : list Point) : list Point :=
  let startKey := keyFromStr dateStart in
  let endKey := keyFromStr dateEnd in
  if hasRange startKey endKey then
    List.filter
      (λ d, let k := ymToKey (pt_Year d) (pt_Month d) in
            match startKey, endKey with
            | Some s, Some e => geb k s && leb k e
            | _, _ => false
            end)
      data
  else data.

(** the row pushed at index [i] by the loop of [r12Data] *)
Definition growth_point (A : list Point) (selectedCategories : list string) (i : nat)
    (Ai : Point) : Point :=
  if (i <? 23)%nat then bare_point Ai
  else
    fold_left
      (λ row cat,
         let curr12 := sum12 A cat (i - 11) in
         let prev12 := sum12 A cat (i - 23) in
         set_val row cat
           (if strict_neq prev12 zero
            then Some (div (sub curr12 prev12) prev12)
            else None))
      selectedCategories (bare_point Ai).

(** the body of the loop over [i] in [r12Data]; [i] stays below [A.length] *)
Definition growth_row (A : list Point) (selectedCategories : list string) (i : nat)
    (data : list Point) : list Point :=
  match A !! i with
  | None => data
  | Some Ai => data ++ [growth_point A selectedCategories i Ai]
  end.

Definition r12Data (A : list Point) (selectedCategories : list string)
    (dateStart dateEnd : string) : list Point :=
  match A, selectedCategories with
  | [], _ | _, [] => []
  | _, _ =>
      let data := for_loop 0 (length A) (growth_row A selectedCategories) [] in
      clip dateStart dateEnd data
  end.

(** the row pushed at index [i] by the loop of [r12ValueData] *)
Definition value_point (A : list Point) (selectedCategories : list string) (i : nat)
    (Ai : Point) : Point :=
  fold_left
    (λ row cat,
       if (i <? 11)%nat then set_val row cat None
       else set_val row cat (Some (sum12 A cat (i - 11))))
    selectedCategories (bare_point Ai).

(** the body of the loop over [i] in [r12ValueData] *)
Definition value_row (A : list Point) (selectedCategories : list string) (i : nat)
    (data : list Point) : list Point :=
  match A !! i with
  | None => data
  | Some Ai => data ++ [value_point A selectedCategories i Ai]
  end.

Definition r12ValueData (A : list Point) (selectedCategories : list string)
    (dateStart dateEnd : string) : list Point :=
  match A, selectedCategories with
  | [], _ | _, [] => []
  | _, _ =>
      let data := for_loop 0 (length A) (value_row A selectedCategories) [] in
      clip dateStart dateEnd data
  end.

(** ** Branch summary: [branchSummary] *)

(** [obj[k]] read as a number: [undefined] in arithmetic is [NaN] *)
Definition prop (obj : gmap string num) (k : string) : num :=
  default NaN (obj !! k).

(** [obj[k] += v] *)
Definition plus_at (k : string) (v : num) (obj : gmap string num) : gmap string num :=
  <[k := add (prop obj k) v]> obj.

(** [Object.fromEntries(selectedCategories.map((c) => [c, 0]))] *)
Definition zeros (selectedCategories : list string) : gmap string num :=
  list_to_map ((λ c, (c, zero)) <$> selectedCategories).

(** [(r.Branch && String(r.Branch).trim()) || "(Blank)"] *)
Definition branch_bucket (r : Fact) : string :=
  match Branch r with
  | None => "(Blank)"
  | Some s =>
      if String.eqb s "" then "(Blank)"
      else if String.eqb (trim s) "" then "(Blank)" else trim s
  end.

Record summary_state : Type := mkState {
  byBranch : list (string * gmap string num);
  totals : gmap string num;
  grand : num;
}.

Definition summary_step (selectedCategories selectedBranches : list string)
    (startKey endKey : option num) (st : summary_state) (r : Fact) : summary_state :=
  if negb (matchBranch selectedBranches r) then st
  else
    let k := ymToKey (Year r) (Month r) in
    if hasRange startKey endKey && outside startKey endKey k then st
    else if negb (includes selectedCategories (Category r)) then st
    else
      let b := branch_bucket r in
      let v := or_else (Value r) zero in
      {| byBranch :=
           upsert (λ e, String.eqb e.1 b)
             (b, <["__total" := zero]> (zeros selectedCategories))
             (λ e, (e.1, plus_at "__total" v (plus_at (Category r) v e.2)))
             (byBranch st);
         totals := plus_at (Category r) v (totals st);
         grand := add (grand st) v |}.

(** the result [{ rows, totals }]; a row [{ Branch, ...sums }] is the pair of
    its branch name and its sums *)
Record Summary : Type := mkSummary {
  sm_rows : list (string * gmap string num);
  sm_totals : gmap string num;
}.

(** [localeCompare] is the platform's collation (with the [numeric] option),
    taken as the parameter [collate] *)
Definition branchSummary (collate : string → string → num)
    (rows : list Fact) (selectedCategories selectedBranches : list string)
    (dateStart dateEnd : string) : Summary :=
  match rows, selectedCategories with
  | [], _ | _, [] => {| sm_rows := []; sm_totals := ∅ |}
  | _, _ =>
      let startKey := keyFromStr dateStart in
      let endKey := keyFromStr dateEnd in
      let st :=
        fold_left (summary_step selectedCategories selectedBranches startKey endKey) rows
          {| byBranch := []; totals := zeros selectedCategories; grand := zero |} in
      {| sm_rows := sort_by (λ a b, collate a.1 b.1) (byBranch st);
         sm_totals := <["__total" := grand st]> (totals st) |}
  end.

(** ** The selections of the dashboard *)

(** [[...new Set(l)]]: the distinct elements, in the order of their first
    occurrence *)
Definition distinct {A} `{EqDecision A} (l : list A) : list A :=
  fold_left (λ seen x, if bool_decide (x ∈ seen) then seen else seen ++ [x]) l [].

(** [years]: [[...new Set(rows.map((r) => r.Year))].sort((a, b) => a - b)] *)
Definition years (rows : list Fact) : list num :=
  sort_by sub (distinct (Year <$> rows)).

(** [allCategories]: the categories in the order of their first fact; the
    set [seen] holds the names pushed to [ordered] *)
Definition allCategories (rows : list Fact) : list string :=
  fold_left
    (λ ordered row,
       let name := Category row in
       if String.eqb name "" then ordered
       else if includes DIMENSION_COLUMN_NAMES (toLowerCase (trim name)) then ordered
       else if includes ordered name then ordered
       else ordered ++ [name])
    rows [].

(** [pickDefaultCategories], where [defaultCategory] is
    [datasetConfig?.defaultCategory] *)
Definition pickDefaultCategories (defaultCategory : option string) (cats : list string)
  : list string :=
  match cats with
  | [] => []
  | _ :: _ =>
      let preferred := default "" defaultCategory in
      if negb (String.eqb preferred "") && includes cats preferred then [preferred]
      else take (Nat.min 2 (length cats)) cats
  end.

(** the update of [selectedCategories] in [hydrateFromParsed] *)
Definition hydrate_categories (defaultCategory : option string) (parsed : list Fact)
    (prev : list string) : list string :=
  let cats := distinct (Category <$> parsed) in
  match List.filter (includes cats) prev with
  | [] => pickDefaultCategories defaultCategory cats
  | preserved => preserved
  end.

(** [toggleCategory] *)
Definition toggleCategory (c : string) (prev : list string) : list string :=
  if includes prev c then List.filter (λ x, negb (String.eqb x c)) prev
  else prev ++ [c].

(** the comparison of [sort()] without a comparator: the order of the
    character codes *)
Definition compare_codes (a b : string) : num :=
  if String.ltb a b then ofZ (-1) else if String.ltb b a then ofZ 1 else zero.

(** [branches] of [hydrateFromParsed]:
    [[...new Set(parsed.map((r) => r.Branch).filter(Boolean))].sort()] *)
Definition dataset_branches (parsed : list Fact) : list string :=
  sort_by compare_codes
    (distinct (List.filter (λ b, negb (String.eqb b "")) (omap Branch parsed))).

(** the update of [selectedBranches] in [hydrateFromParsed] *)
Definition hydrate_branches (branches prev : list string) : list string :=
  match prev with
  | [] => [ALL]
  | _ :: _ =>
      if includes prev ALL then [ALL]
      else match List.filter (includes branches) prev with
           | [] => [ALL]
           | valid => valid
           end
  end.

(** [onBranchesChange], on the values of the selected options *)
Definition onBranchesChange (vals : list string) : list string :=
  if includes vals ALL || bool_decide (length vals = 0%nat) then [ALL] else vals.

(** the region buttons: [All (sum)] carries a [value], the others their
    [branches] *)
Record Region : Type := mkRegion {
  rg_name : string;
  rg_value : option string;
  rg_branches : option (list string);
}.

Definition regions : list Region :=
  [ {| rg_name := "All (sum)"; rg_value := Some ALL; rg_branches := None |};
    {| rg_name := "NC"; rg_value := None; rg_branches := Some ["113"; "114"; "117"; "160"] |};
    {| rg_name := "SC"; rg_value := None; rg_branches := Some ["215"; "216"; "218"] |};
    {| rg_name := "GA"; rg_value := None; rg_branches := Some ["364"; "365"; "367"] |};
    {| rg_name := "TN"; rg_value := None; rg_branches := Some ["520"; "536"] |} ].

(** the click on a region button; [None] is the TypeError of
    [region.branches.every] on a region without branches *)
Definition region_click (region : Region) (selectedBranches : list string)
  : option (list string) :=
  if bool_decide (rg_value region = Some ALL) then Some [ALL]
  else
    match rg_branches region with
    | None => None
    | Some branches =>
        if forallb (includes selectedBranches) branches then
          match List.filter (λ x, negb (includes branches x)) selectedBranches with
          | [] => Some [ALL]
          | remaining => Some remaining
          end
        else
          let clean := List.filter (λ x, negb (String.eqb x ALL)) selectedBranches in
          Some (distinct (clean ++ branches))
    end.

(** the click on the button of branch [b]; [active] is
    [selectedBranches.includes(b)] of the render, [prev] the state the
    update is applied to *)
Definition branch_click (b : string) (active : bool) (prev : list string) : list string :=
  if includes prev ALL then [b]
  else if active then
    match List.filter (λ x, negb (String.eqb x b)) prev with
    | [] => [ALL]
    | next => next
    end
  else prev ++ [b].

(** the controls that change the branch selection *)
Inductive BranchEvent : Type :=
  | BranchesChange (vals : list string)
  | RegionClick (region : Region)
  | BranchClick (b : string).

Definition branch_step (ev : BranchEvent) (selectedBranches : list string)
  : option (list string) :=
  match ev with
  | BranchesChange vals => Some (onBranchesChange vals)
  | RegionClick region => region_click region selectedBranches
  | BranchClick b => Some (branch_click b (includes selectedBranches b) selectedBranches)
  end.

(** ** The date window *)

(** [s.padStart(2, "0")] *)
Definition padStart2 (s : string) : string :=
  match String.length s with
  | 0%nat => "00"
  | 1%nat => "0" +:+ s
  | _ => s
  end.

(** [strFromYM]: [`${y}-${String(m).padStart(2, "0")}`] *)
Definition strFromYM (y m : num) : string :=
  NumberToString y +:+ "-" +:+ padStart2 (NumberToString m).

(** [!k] for a key that is a number or [null] *)
Definition no_key (k : option num) : bool :=
  match k with
  | Some k => negb (truthy k)
  | None => true
  end.

(** [clampYM] *)
Definition clampYM (s minS maxS : string) : string :=
  let k := keyFromStr s in
  let minK := keyFromStr minS in
  let maxK := keyFromStr maxS in
  if no_key k || no_key minK || no_key maxK then s
  else
    match k, minK, maxK with
    | Some k, Some minK, Some maxK =>
        if ltb k minK then minS else if gtb k maxK then maxS else s
    | _, _, _ => s
    end.

(** [a > b] and [a <= b] on keys that are numbers or [null]; used only
    behind the tests that both are truthy *)
Definition key_gtb (a b : option num) : bool :=
  match a, b with
  | Some a, Some b => gtb a b
  | _, _ => false
  end.

Definition key_ltb (a b : option num) : bool :=
  match a, b with
  | Some a, Some b => ltb a b
  | _, _ => false
  end.

Definition key_leb (a b : option num) : bool :=
  match a, b with
  | Some a, Some b => leb a b
  | _, _ => false
  end.

(** [userRangeRef.current] *)
Record UserRange : Type := mkUserRange {
  touched : bool;
  ur_start : option string;
  ur_end : option string;
}.

(** the state of the date controls *)
Record Dates : Type := mkDates {
  w_dateStart : string;
  w_dateEnd : string;
  w_selectedYear : string;
  w_minMonthStr : string;
  w_maxMonthStr : string;
  w_userRange : UserRange;
}.

(** [onStartChange] and [onEndChange] *)
Definition onStartChange (s : string) (st : Dates) : Dates :=
  let clamped := clampYM s (w_minMonthStr st) (w_maxMonthStr st) in
  let sk := keyFromStr clamped in
  let ek := keyFromStr (w_dateEnd st) in
  {| w_dateStart := clamped;
     w_dateEnd :=
       if negb (no_key sk) && negb (no_key ek) && key_gtb sk ek then clamped
       else w_dateEnd st;
     w_selectedYear := w_selectedYear st;
     w_minMonthStr := w_minMonthStr st;
     w_maxMonthStr := w_maxMonthStr st;
     w_userRange :=
       {| touched := true; ur_start := Some clamped;
          ur_end := Some (if negb (no_key ek) then w_dateEnd st else clamped) |} |}.

Definition onEndChange (s : string) (st : Dates) : Dates :=
  let clamped := clampYM s (w_minMonthStr st) (w_maxMonthStr st) in
  let ek := keyFromStr clamped in
  let sk := keyFromStr (w_dateStart st) in
  {| w_dateStart :=
       if negb (no_key sk) && negb (no_key ek) && key_ltb ek sk then clamped
       else w_dateStart st;
     w_dateEnd := clamped;
     w_selectedYear := w_selectedYear st;
     w_minMonthStr := w_minMonthStr st;
     w_maxMonthStr := w_maxMonthStr st;
     w_userRange :=
       {| touched := true;
          ur_start := Some (if negb (no_key sk) then w_dateStart st else clamped);
          ur_end := Some clamped |} |}.

(** [onYearPick] *)
Definition onYearPick (val : string) (st : Dates) : Dates :=
  let picked :=
    {| w_dateStart := w_dateStart st; w_dateEnd := w_dateEnd st;
       w_selectedYear := val;
       w_minMonthStr := w_minMonthStr st; w_maxMonthStr := w_maxMonthStr st;
       w_userRange := w_userRange st |} in
  if String.eqb val "all" || String.eqb (w_minMonthStr st) "" ||
     String.eqb (w_maxMonthStr st) "" then picked
  else
    let y := StringToNumber val in
    if negb (isFinite y) then picked
    else
      let wantStart :=
        clampYM (NumberToString y +:+ "-01") (w_minMonthStr st) (w_maxMonthStr st) in
      let wantEnd :=
        clampYM (NumberToString y +:+ "-12") (w_minMonthStr st) (w_maxMonthStr st) in
      {| w_dateStart := wantStart; w_dateEnd := wantEnd; w_selectedYear := val;
         w_minMonthStr := w_minMonthStr st; w_maxMonthStr := w_maxMonthStr st;
         w_userRange :=
           {| touched := true; ur_start := Some wantStart; ur_end := Some wantEnd |} |}.

(** [setPresetAll] *)
Definition setPresetAll (st : Dates) : Dates :=
  if negb (String.eqb (w_minMonthStr st) "") && negb (String.eqb (w_maxMonthStr st) "")
  then
    {| w_dateStart := w_minMonthStr st; w_dateEnd := w_maxMonthStr st;
       w_selectedYear := "all";
       w_minMonthStr := w_minMonthStr st; w_maxMonthStr := w_maxMonthStr st;
       w_userRange :=
         {| touched := true; ur_start := Some (w_minMonthStr st);
            ur_end := Some (w_maxMonthStr st) |} |}
  else st.

(** [setPresetYTD]; [maxY] is the first part of [maxMonthStr] as a number *)
Definition setPresetYTD (st : Dates) : Dates :=
  if String.eqb (w_maxMonthStr st) "" then st
  else
    let maxY := StringToNumber (default "" (head (split "-" (w_maxMonthStr st)))) in
    let start :=
      clampYM (NumberToString maxY +:+ "-01") (w_minMonthStr st) (w_maxMonthStr st) in
    {| w_dateStart := start; w_dateEnd := w_maxMonthStr st;
       w_selectedYear := NumberToString maxY;
       w_minMonthStr := w_minMonthStr st; w_maxMonthStr := w_maxMonthStr st;
       w_userRange :=
         {| touched := true; ur_start := Some start;
            ur_end := Some (w_maxMonthStr st) |} |}.

(** [Math.min(...l)] and [Math.max(...l)] *)
Definition Math_min_list (l : list num) : num := fold_left Math_min l PInf.
Definition Math_max_list (l : list num) : num := fold_left Math_max l NInf.

(** a string that is neither [null] nor empty *)
Definition some_text (s : option string) : bool :=
  match s with
  | Some s => negb (String.eqb s "")
  | None => false
  end.

(** the dates of [hydrateFromParsed]: the bounds of the data, and the window,
    which keeps the range of the user when it is still in order *)
Definition hydrate_dates (parsed : list Fact) (st : Dates) : Dates :=
  let keys := (λ r, ymToKey (Year r) (Month r)) <$> parsed in
  let minKey := Math_min_list keys in
  let maxKey := Math_max_list keys in
  let minStr := strFromYM (fromKey minKey).1 (fromKey minKey).2 in
  let maxStr := strFromYM (fromKey maxKey).1 (fromKey maxKey).2 in
  let ur := w_userRange st in
  let window :=
    if touched ur && (some_text (ur_start ur) || some_text (ur_end ur)) then
      let preservedStart := clampYM (default minStr (ur_start ur)) minStr maxStr in
      let preservedEnd := clampYM (default maxStr (ur_end ur)) minStr maxStr in
      let pk := keyFromStr preservedStart in
      let qk := keyFromStr preservedEnd in
      if negb (no_key pk) && negb (no_key qk) && key_leb pk qk
      then (preservedStart, preservedEnd)
      else (minStr, maxStr)
    else (minStr, maxStr) in
  {| w_dateStart := window.1; w_dateEnd := window.2;
     w_selectedYear := w_selectedYear st;
     w_minMonthStr := minStr; w_maxMonthStr := maxStr;
     w_userRange := ur |}.

(** ** Series colours: [color-utils] *)

Definition LIGHTNESS_STOPS : list Z := [45; 52; 58; 64].
Definition SATURATION : Z := 65.

(** the loop of [colorFromString]:
    [hash = (hash * 31 + input.charCodeAt(i)) >>> 0], an unsigned 32-bit
    wrap-around at every character *)
Definition color_hash (input : string) : Z :=
  fold_left (λ hash a, (hash * 31 + Z.of_N (N_of_ascii a)) mod 2 ^ 32)
    (list_ascii_of_string input) 0.

(** [colorFromString] *)
Definition colorFromString (key : string) : string :=
  let hash := color_hash key in
  let hue := hash mod 360 in
  let lightness := default 0 (LIGHTNESS_STOPS !! Z.to_nat (hash mod Z.of_nat (length LIGHTNESS_STOPS))) in
  "hsl(" +:+ Z_to_string hue +:+ ", " +:+ Z_to_string SATURATION +:+ "%, " +:+
  Z_to_string lightness +:+ "%)".

(** [obj[key] = v] on a plain object, for a string [v].  The name
    [__proto__] is an accessor of [Object.prototype]: unless the object has a
    property of its own under that name, the assignment reaches the setter,
    which ignores a string. *)
Definition assign (key v : string) (obj : gmap string string) : gmap string string :=
  if String.eqb key "__proto__" && bool_decide (obj !! key = None) then obj
  else <[key := v]> obj.

(** the first loop of [getPersistentColorMap]: an override, else the stored
    colour, else the colour of the hash *)
Definition assign_color (stored overrides : gmap string string)
    (map : gmap string string) (key : string) : gmap string string :=
  match overrides !! key with
  | Some v => assign key v map
  | None =>
      match stored !! key with
      | Some v => assign key v map
      | None => assign key (colorFromString key) map
      end
  end.

(** [getPersistentColorMap]: [stored] is the object read from the storage and
    [overrides] the third argument, both as the maps of their own properties,
    the values of which are strings; the result is the returned map and the
    object written back.  The spread [{ ...stored, ...map }] defines own
    properties, [__proto__] included. *)
Definition getPersistentColorMap (keys : list string) (stored overrides : gmap string string)
  : gmap string string * gmap string string :=
  let validKeys := List.filter (λ k, negb (String.eqb k "")) keys in
  let map := fold_left (assign_color stored overrides) validKeys ∅ in
  let merged := map ∪ stored in
  let out :=
    map_fold
      (λ overrideKey value '(merged, map),
         (assign overrideKey value merged,
          if includes validKeys overrideKey then assign overrideKey value map else map))
      (merged, map) overrides in
  (out.2, out.1).

(** ** Month arithmetic on dates *)

(** the range of [Date]: a time value lies within 100 000 000 days of
    1 January 1970, that is from 20 April -271821 to 13 September 275760.
    The first day of a month is inside the range from May -271821 to
    September 275760, and then by more than ten days, so that the local time
    zone does not matter.  Months are numbered from January of the year 0. *)
Definition first_date_month : Z := -271821 * 12 + 4.
Definition last_date_month : Z := 275760 * 12 + 8.

(** the calendar month (year, month index 0..11) of [new Date(y, m, 1)] and
    of [setMonth(m)] on the first of a month: the arguments are truncated,
    the month index carries into the year, and [None] is the Invalid Date
    of an argument that is not finite or of a month outside the range of
    [Date].  [two_digit] is the rule of the constructor that reads the years
    0..99 as 1900..1999. *)
Definition first_of_month (two_digit : bool) (y m : num) : option (Z * Z) :=
  match y, m with
  | Fin y, Fin m =>
      let yi := Qc_trunc y in
      let yr := if two_digit && (0 <=? yi) && (yi <=? 99) then 1900 + yi else yi in
      let mi := Qc_trunc m in
      if (first_date_month <=? yr * 12 + mi) && (yr * 12 + mi <=? last_date_month)
      then Some (yr + mi / 12, mi mod 12)
      else None
  | _, _ => None
  end.

(** [addMonths] *)
Definition addMonths (s : string) (delta : num) : string :=
  let parts := map StringToNumber (split "-" s) in
  let yy := default NaN (parts !! 0%nat) in
  let mm := default NaN (parts !! 1%nat) in
  let d0 := first_of_month true yy (sub mm (ofZ 1)) in
  let d1 :=
    match d0 with
    | Some (y0, m0) => first_of_month false (ofZ y0) (add (ofZ m0) delta)
    | None => None
    end in
  match d1 with
  | Some (y, m) => strFromYM (ofZ y) (add (ofZ m) (ofZ 1))
  | None => strFromYM NaN (add NaN (ofZ 1))
  end.

(** [setPresetLastN] *)
Definition setPresetLastN (n : num) (st : Dates) : Dates :=
  if String.eqb (w_maxMonthStr st) "" then st
  else
    let e := w_maxMonthStr st in
    let start :=
      clampYM (addMonths e (add (neg n) (ofZ 1))) (w_minMonthStr st) (w_maxMonthStr st) in
    {| w_dateStart := start; w_dateEnd := e; w_selectedYear := "all";
       w_minMonthStr := w_minMonthStr st; w_maxMonthStr := w_maxMonthStr st;
       w_userRange := {| touched := true; ur_start := Some start; ur_end := Some e |} |}.

(** ** Departments and the category picker
       ([constants/departments.ts], [components/CategoryPicker.tsx]) *)

Inductive Department : Type :=
  | Equipment
  | Rental
  | Parts
  | Service.

Global Instance Department_eq_dec : EqDecision Department.
Proof. solve_decision. Defined.

Definition DEPT_MAP (d : Department) : list string :=
  match d with
  | Equipment =>
      ["New Equipment Sales"; "Used Equipment Sales"; "RPO Sales"; "Re-Marketing Sales";
       "Trade-In Sales"; "RtoR Sales"; "Other"; "Total Equipment"]
  | Rental =>
      ["RF Revenue"; "RPO Revenue"; "Re-Rent Revenue"; "Loaner Revenue"; "Loaner Internal";
       "Used Rental"; "Total Rental"]
  | Parts =>
      ["Parts Counter"; "Parts Shop"; "Parts Warranty"; "Warranty Settlement";
       "Warranty Settlement - Adj"; "Parts Internal"; "Parts Internal - CSA Cust";
       "Parts Internal - CSA Rental"; "Parts Internal - ACAP"; "Parts Internal - EM";
       "Total Parts"]
  | Service => ["Customer"; "Warranty"; "Internal"; "Sublet"; "Total Service"]
  end.

(** [Object.keys(DEPT_MAP)] *)
Definition ALL_DEPARTMENTS : list Department := [Equipment; Rental; Parts; Service].

Definition department_name (d : Department) : string :=
  match d with
  | Equipment => "Equipment"
  | Rental => "Rental"
  | Parts => "Parts"
  | Service => "Service"
  end.

Definition flattenAllMetrics : list string := flat_map DEPT_MAP ALL_DEPARTMENTS.

Definition metricsForDepartment (d : Department) : list string := DEPT_MAP d.

Definition departmentForMetric (metric : string) : option Department :=
  List.find (λ d, includes (DEPT_MAP d) metric) ALL_DEPARTMENTS.

(** a group of the picker: [{ key, label, metrics }] *)
Record Group : Type := mkGroup {
  g_key : string;
  g_label : string;
  g_metrics : list string;
}.

(** [metricsByDepartment[dept]]; [availableMetrics] is [None] when the
    property is not an array *)
Definition metricsByDepartment (availableMetrics : option (list string)) (dept : Department)
  : list string :=
  match availableMetrics with
  | Some ((_ :: _) as available) => List.filter (includes available) (DEPT_MAP dept)
  | _ => DEPT_MAP dept
  end.

Definition extraMetrics (availableMetrics : option (list string)) : list string :=
  match availableMetrics with
  | Some ((_ :: _) as available) =>
      List.filter (λ metric, negb (includes flattenAllMetrics metric)) available
  | _ => []
  end.

Definition groups (availableMetrics : option (list string)) : list Group :=
  let entries :=
    List.filter (λ group, negb (bool_decide (length (g_metrics group) = 0%nat)))
      (map (λ dept, {| g_key := department_name dept; g_label := department_name dept;
                       g_metrics := metricsByDepartment availableMetrics dept |})
         ALL_DEPARTMENTS) in
  match extraMetrics availableMetrics with
  | [] => entries
  | extra => entries ++ [ {| g_key := "Other"; g_label := "Other Metrics"; g_metrics := extra |} ]
  end.

(** [groups.find((g) => g.key === key)], kept only when it has metrics *)
Definition find_group (gs : list Group) (key : string) : option Group :=
  match List.find (λ g, String.eqb (g_key g) key) gs with
  | Some group => if bool_decide (length (g_metrics group) = 0%nat) then None else Some group
  | None => None
  end.

Definition isGroupAllSelected (gs : list Group) (selectedMetrics : list string) (key : string)
  : bool :=
  match find_group gs key with
  | Some group => forallb (includes selectedMetrics) (g_metrics group)
  | None => false
  end.

Definition isGroupPartiallySelected (gs : list Group) (selectedMetrics : list string)
    (key : string) : bool :=
  match find_group gs key with
  | Some group =>
      let count := length (List.filter (includes selectedMetrics) (g_metrics group)) in
      bool_decide (0 < count)%nat && bool_decide (count < length (g_metrics group))%nat
  | None => false
  end.

(** [toggleGroupAll]: the selection handed to [onChange]; [None] when
    [onChange] is not called *)
Definition toggleGroupAll (gs : list Group) (selectedMetrics : list string) (key : string)
  : option (list string) :=
  match find_group gs key with
  | Some group =>
      if isGroupAllSelected gs selectedMetrics key
      then Some (List.filter (λ metric, negb (includes (g_metrics group) metric))
                   selectedMetrics)
      else Some (distinct (selectedMetrics ++ g_metrics group))
  | None => None
  end.

(** [toggleMetric] *)
Definition toggleMetric (selectedMetrics : list string) (metric : string) : list string :=
  if includes selectedMetrics metric
  then List.filter (λ m, negb (String.eqb m metric)) selectedMetrics
  else selectedMetrics ++ [metric].

(** ** File sizes *)

(** ["0".repeat(k)] *)
Fixpoint zero_digits (k : nat) : string :=
  match k with
  | O => EmptyString
  | S k' => String "0"%char (zero_digits k')
  end.

(** [x.toFixed(f)] (ECMAScript Number.prototype.toFixed): the sign, then
    the integer [n] nearest to [x * 10 ^ f], the larger one on a tie, with a
    point before its last [f] digits.  From [10 ^ 21] on the result is
    [String(x)]. *)
Definition toFixed (x : num) (f : nat) : string :=
  match x with
  | Fin q =>
      let s := if bool_decide (q < 0)%Qc then "-" else "" in
      let a := if bool_decide (q < 0)%Qc then (- q)%Qc else q in
      if bool_decide (Qc_of_Z (10 ^ 21) <= a)%Qc then s +:+ NumberToString (Fin a)
      else
        let n := Qfloor (a * Qc_of_Z (10 ^ Z.of_nat f) + Qc_of_Z 1 / Qc_of_Z 2)%Qc in
        let m := Z_to_string n in
        let m := if (String.length m <=? f)%nat
                 then zero_digits (f + 1 - String.length m) +:+ m else m in
        let k := String.length m in
        s +:+ (if (f =? 0)%nat then m
               else String.substring 0 (k - f) m +:+ "." +:+ String.substring (k - f) f m)
  | _ => NumberToString x
  end.

Definition units : list string := ["B"; "KB"; "MB"; "GB"; "TB"].

(** the loop [while (value >= 1024 && unitIndex < units.length - 1)] of
    [formatFileSize]; [fuel] bounds the number of rounds, and
    [units.length - 1] rounds are enough since each round adds 1 to
    [unitIndex] *)
Fixpoint scale_units (fuel : nat) (value : num) (unitIndex : nat) : num * nat :=
  match fuel with
  | O => (value, unitIndex)
  | S fuel' =>
      if geb value (ofZ 1024) && bool_decide (unitIndex < length units - 1)%nat
      then scale_units fuel' (div value (ofZ 1024)) (S unitIndex)
      else (value, unitIndex)
  end.

(** [formatFileSize]; [None] as argument is [null] or [undefined], [None] as
    result is [null] *)
Definition formatFileSize (bytes : option num) : option string :=
  match bytes with
  | None => None
  | Some bytes =>
      if negb (isFinite bytes) then None
      else
        let '(value, unitIndex) := scale_units (length units - 1) bytes 0 in
        let precision :=
          if geb value (ofZ 100) then 0%nat else if geb value (ofZ 10) then 1%nat else 2%nat in
        Some (toFixed value precision +:+ " " +:+ default "undefined" (units !! unitIndex))
  end.

(** ** The list of datasets *)

(** an entry of [DATASET_OVERRIDES] *)
Record Override : Type := mkOverride {
  o_id : string;
  o_label : string;
  o_instructions : string;
  o_colors : list (string * string);
  o_defaultCategory : string;
  o_valueType : string;
}.

(** [DATASET_OVERRIDES[fileName]] *)
Definition DATASET_OVERRIDES (fileName : string) : option Override :=
  if String.eqb fileName "historical_all.csv" then
    Some {| o_id := "Historical_All"; o_label := "Historical All ($)";
            o_instructions := "Year, Period, Branch, Equipment, Rental, Parts, Service, Total";
            o_colors := [("Equipment", "#2563EB"); ("Rental", "#7C3AED"); ("Parts", "#0EA5E9");
                         ("Service", "#F97316"); ("Total", "#FACC15")];
            o_defaultCategory := "Total"; o_valueType := "currency" |}
  else if String.eqb fileName "historical_sales.csv" then
    Some {| o_id := "Historical_Sales"; o_label := "Historical Equipment Sales ($)";
            o_instructions := "Year, Period, Branch, New Equipment Sales, Used Equipment Sales, RPO Sales, Re-Marketing Sales, Trade-In Sales, RtoR Sales, Other, Total Equipment";
            o_colors := [("New Equipment Sales", "#2563EB"); ("Used Equipment Sales", "#7C3AED");
                         ("RPO Sales", "#0EA5E9"); ("Re-Marketing Sales", "#F97316");
                         ("Trade-In Sales", "#F43F5E"); ("RtoR Sales", "#10B981");
                         ("Other", "#94A3B8"); ("Total Equipment", "#FACC15")];
            o_defaultCategory := "Total Equipment"; o_valueType := "currency" |}
  else None.

Definition DEFAULT_DATASET : string := "Historical_All".

(** [fileName.replace(/\.csv$/i, "")] *)
Definition strip_csv (fileName : string) : string :=
  let n := String.length fileName in
  if (4 <=? n)%nat && String.eqb (toLowerCase (String.substring (n - 4) 4 fileName)) ".csv"
  then String.substring 0 (n - 4) fileName
  else fileName.

(** [A-Za-z0-9] *)
Definition is_alnum (a : ascii) : bool :=
  let n := N_of_ascii a in
  ((48 <=? n) && (n <=? 57) || (65 <=? n) && (n <=? 90) || (97 <=? n) && (n <=? 122))%N.

(** [s.split(/[^A-Za-z0-9]+/)]: the pieces between the runs of other
    characters; [in_run] tells that the previous character belongs to a run *)
Fixpoint split_runs (s : string) (in_run : bool) : list string :=
  match s with
  | EmptyString => [EmptyString]
  | String a s' =>
      if is_alnum a then
        match split_runs s' false with
        | piece :: pieces => String a piece :: pieces
        | [] => [String a EmptyString]
        end
      else if in_run then split_runs s' true
      else EmptyString :: split_runs s' true
  end.

(** [splitFileSegments] *)
Definition splitFileSegments (fileName : string) : list string :=
  List.filter (λ piece, negb (String.eqb piece "")) (split_runs (strip_csv fileName) false).

(** [c.toUpperCase()] on an ASCII letter *)
Definition upper_ascii (a : ascii) : ascii :=
  let n := N_of_ascii a in
  if (97 <=? n)%N && (n <=? 122)%N then ascii_of_N (n - 32) else a.

(** [capitalize] *)
Definition capitalize (segment : string) : string :=
  match segment with
  | EmptyString => segment
  | String a rest => String (upper_ascii a) rest
  end.

(** [l.join(sep)] *)
Fixpoint join (sep : string) (l : list string) : string :=
  match l with
  | [] => EmptyString
  | [x] => x
  | x :: l' => x +:+ sep +:+ join sep l'
  end.

(** a record of the dataset list: [{ file, size, lastModified }], each
    property possibly missing *)
Record DatasetRecord : Type := mkDatasetRecord {
  rec_file : option string;
  rec_size : option num;
  rec_lastModified : option string;
}.

(** an entry built by [buildDatasetEntry]; [None] in a field is [null] or
    [undefined] *)
Record DatasetEntry : Type := mkDatasetEntry {
  e_id : string;
  e_label : string;
  e_file : string;
  e_fileName : string;
  e_instructions : option string;
  e_colors : option (list (string * string));
  e_defaultCategory : option string;
  e_valueType : option string;
  e_size : option num;
  e_lastModified : option string;
}.

(** [a || b] on strings, where [a] may be missing *)
Definition text_or (a : option string) (b : string) : string :=
  match a with
  | Some s => if String.eqb s "" then b else s
  | None => b
  end.

(** [a || null] *)
Definition text_or_null (a : option string) : option string :=
  match a with
  | Some s => if String.eqb s "" then None else Some s
  | None => None
  end.

(** [buildDatasetEntry(fileName, meta)]; [None] is [null] *)
Definition buildDatasetEntry (fileName : string) (meta : DatasetRecord)
  : option DatasetEntry :=
  if String.eqb fileName "" then None
  else
    let override := DATASET_OVERRIDES fileName in
    let segments := splitFileSegments fileName in
    let defaultId :=
      match segments with
      | [] => strip_csv fileName
      | _ => join "_" (map capitalize segments)
      end in
    let defaultLabel :=
      match segments with
      | [] => strip_csv fileName
      | _ => join " " (map capitalize segments)
      end in
    Some {| e_id := text_or (o_id <$> override) defaultId;
            e_label := text_or (o_label <$> override) (text_or (Some defaultLabel) fileName);
            e_file := "/" +:+ fileName;
            e_fileName := fileName;
            e_instructions := text_or_null (o_instructions <$> override);
            e_colors := o_colors <$> override;
            e_defaultCategory := text_or_null (o_defaultCategory <$> override);
            e_valueType := text_or_null (o_valueType <$> override);
            e_size := rec_size meta;
            e_lastModified := text_or_null (rec_lastModified meta) |}.

(** [{ ...existing, size: existing.size ?? entry.size,
       lastModified: existing.lastModified ?? entry.lastModified }] *)
Definition merge_entry (existing entry : DatasetEntry) : DatasetEntry :=
  {| e_id := e_id existing; e_label := e_label existing; e_file := e_file existing;
     e_fileName := e_fileName existing; e_instructions := e_instructions existing;
     e_colors := e_colors existing; e_defaultCategory := e_defaultCategory existing;
     e_valueType := e_valueType existing;
     e_size := match e_size existing with Some s => Some s | None => e_size entry end;
     e_lastModified :=
       match e_lastModified existing with
       | Some t => Some t
       | None => e_lastModified entry
       end |}.

(** [map.has(entry.id) ? map.set(entry.id, merged) : map.set(entry.id, entry)]
    on the map in insertion order *)
Fixpoint set_entry (entry : DatasetEntry) (map : list DatasetEntry) : list DatasetEntry :=
  match map with
  | [] => [entry]
  | existing :: map' =>
      if String.eqb (e_id existing) (e_id entry)
      then merge_entry existing entry :: map'
      else existing :: set_entry entry map'
  end.

(** the loop of [normalizeDatasetRecords]; a record of the list may be
    [null] *)
Definition dataset_step (map : list DatasetEntry) (record : option DatasetRecord)
  : list DatasetEntry :=
  match record with
  | None => map
  | Some record =>
      match rec_file record with
      | None => map
      | Some file =>
          match buildDatasetEntry file record with
          | None => map
          | Some entry => set_entry entry map
          end
      end
  end.

(** the comparator of the sort: the default dataset first, then the labels
    in the order of [localeCompare], taken as [collate] *)
Definition dataset_order (collate : string → string → num) (a b : DatasetEntry) : num :=
  if String.eqb (e_id a) DEFAULT_DATASET then ofZ (-1)
  else if String.eqb (e_id b) DEFAULT_DATASET then ofZ 1
  else collate (text_or (Some (e_label a)) (e_id a)) (text_or (Some (e_label b)) (e_id b)).

Definition normalizeDatasetRecords (collate : string → string → num)
    (records : list (option DatasetRecord)) : list DatasetEntry :=
  sort_by (dataset_order collate) (fold_left dataset_step records []).

(** ** Statements of the specification

    The definitions below say what the program is compared with: the notions
    of the specification (error classes, the row-by-row skip policy, sums
    over index ranges, the window test, the order of the rows), written
    without the loops of the program. *)

(** the classes of error of the specification *)
Inductive ErrorClass : Type :=
  | MissingColumn
  | EmptyDataset.

(** both messages about headers report the absence of a required column *)
Definition error_class (e : Error) : ErrorClass :=
  match e with
  | NoHeaders | MissingYearOrPeriod => MissingColumn
  | NoValidRows => EmptyDataset
  end.

(** some resolved header matches one of [names], whatever its case *)
Definition has_header (names : list string) (data : list record)
    (metaFields : option (list string)) : Prop :=
  ∃ h, h ∈ resolve_headers data metaFields ∧ toLowerCase h ∈ names.

(** the columns the normalizer works with *)
Record columns : Type := mkColumns {
  yearCol : string;
  periodCol : string;
  branchCol : option string;
  catCols : list string;
}.

(** the columns found in a header list, when Year and Period are both there *)
Definition resolve_columns (headers : list string) : option columns :=
  match List.find (test_names year_names) headers,
        List.find (test_names period_names) headers with
  | Some y, Some p =>
      let b := List.find (test_names branch_names) headers in
      Some {| yearCol := y; periodCol := p; branchCol := b;
              catCols := category_columns headers y p b |}
  | _, _ => None
  end.

(** the Month of a row: the month token, else the raw number *)
Definition row_month (c : columns) (row : record) : num :=
  or_number (toMonthIndex (get row (periodCol c))) (ToNumber (get row (periodCol c))).

(** the fact of one category cell: none when the cell is not a number *)
Definition cell_fact (c : columns) (row : record) (col : string) : option Fact :=
  let v := cell_number (get row col) in
  if isNaN v then None
  else
    let B := match branchCol c with
             | Some b => get row b
             | None => VUndef
             end in
    Some {| Year := ToNumber (get row (yearCol c)); Month := row_month c row;
            Category := trim col; Value := v;
            Branch := if ToBoolean B then Some (trim (ToString B)) else None |}.

(** the facts of one row: none when its Year or its Month is unusable, else
    one per category cell that is a number *)
Definition row_facts (c : columns) (row : record) : list Fact :=
  if truthy (ToNumber (get row (yearCol c))) && truthy (row_month c row)
  then omap (cell_fact c row) (catCols c)
  else [].



(** the invariant of the facts the normalizer emits, from a dataset without
    a [Date] in its period column *)
Definition fact_ok (f : Fact) : Prop :=
  leb (ofZ 1) (Month f) = true ∧ leb (Month f) (ofZ 12) = true ∧
  truthy (Year f) = true ∧ Value f ≠ NaN.

(** the sum of a list of numbers *)
Definition sum_num (l : list num) : num := foldr add zero l.

(** the entry of category [c] in a row of an aggregate, as the
    specification reads it: an entry that is missing, [null] or not a number
    counts as 0 *)
Definition entry (c : string) (p : Point) : num :=
  match pt_vals p !! c with
  | Some (Some v) => if isNaN v then zero else v
  | _ => zero
  end.





(** [inWindow] of the specification: no filtering when the window is
    invalid, else [start <= key <= end] *)
Definition inWindow (dateStart dateEnd : string) (k : num) : bool :=
  match keyFromStr dateStart, keyFromStr dateEnd with
  | Some s, Some e => if leb s e then leb s k && leb k e else true
  | _, _ => true
  end.

(** ascending order by (Year, Month) *)
Definition pt_le (a b : Point) : Prop :=
  ltb (pt_Year a) (pt_Year b) = true ∨
  (pt_Year a = pt_Year b ∧ leb (pt_Month a) (pt_Month b) = true).

(** a fact and a row of the same month *)
Definition of_month (r : Fact) (p : Point) : Prop :=
  pt_Year p = Year r ∧ pt_Month p = Month r.

(** a fact counted by the branch summary: it passes the branch filter, lies
    inside the window and belongs to a selected category *)
Definition summary_fact (selectedCategories selectedBranches : list string)
    (dateStart dateEnd : string) (r : Fact) : bool :=
  matchBranch selectedBranches r &&
  inWindow dateStart dateEnd (ymToKey (Year r) (Month r)) &&
  includes selectedCategories (Category r).

(** the column of key [c] over the rows of a summary *)
Definition column (c : string) (rs : list (string * gmap string num)) : list num :=
  (λ e, prop e.2 c) <$> rs.

(** values that doubles add without rounding, in any grouping: whole
    numbers, the absolute values of which add up to at most 2^53 *)
Definition exact_values (rows : list Fact) : Prop :=
  ∃ zs : list Z, Value <$> rows = ofZ <$> zs ∧ foldr Z.add 0 (Z.abs <$> zs) ≤ 2 ^ 53.

(** ** Auxiliary definitions of the proofs *)

(** the first letters of the month names, in either case *)
Definition month_initial (a : ascii) : bool :=
  existsb
    (λ name, match name with
             | String c _ => Ascii.eqb (lower_ascii a) (lower_ascii c)
             | EmptyString => false
             end)
    monthNames.

(** a number that is not negative ([NaN] put aside) *)
Definition nonneg (n : num) : Prop :=
  match n with
  | NaN | PInf => True
  | NInf => False
  | Fin q => (0 <= q)%Qc
  end.

(** the string has a minus sign somewhere *)
Fixpoint has_minus (s : string) : bool :=
  match s with
  | EmptyString => false
  | String a s' => Ascii.eqb a "-" || has_minus s'
  end.

(** a row made from a normalized fact: a Year that is a number and a finite
    Month *)
Definition pt_ok (p : Point) : Prop :=
  pt_Year p ≠ NaN ∧ isFinite (pt_Month p) = true.

(** the shape shared by the loops of [chartData] and [monthlyAggAllMonths]:
    a test on the fact, then an update of the row of its month *)
Definition month_step (pass : Fact → bool) (upd : Fact → Point → Point)
    (map : list Point) (r : Fact) : list Point :=
  if pass r
  then upsert (same_month (Year r) (Month r)) (new_point r) (upd r) map
  else map.

(** a row that carries the month and the label of a fact *)
Definition labelled (r : Fact) (p : Point) : Prop :=
  of_month r p ∧ pt_month p = month_label (Month r) (Year r).

(** the test and the update of the loop of [chartData] *)
Definition chart_pass (selectedBranches : list string) (ds de : string) (r : Fact) : bool :=
  matchBranch selectedBranches r &&
  negb (hasRange (keyFromStr ds) (keyFromStr de) &&
        outside (keyFromStr ds) (keyFromStr de) (ymToKey (Year r) (Month r))).

Definition chart_upd (selectedCategories : list string) (r : Fact) (obj : Point) : Point :=
  if includes selectedCategories (Category r)
  then set_val obj (Category r) (Some (add (val_or_0 obj (Category r)) (Value r)))
  else obj.

(** the update of the loop of [monthlyAggAllMonths] *)
Definition agg_upd (r : Fact) (obj : Point) : Point :=
  set_val obj (Category r)
    (Some (add (val_or_0 obj (Category r)) (or_else (Value r) zero))).

(** the test of the loop of [branchSummary] *)
Definition summary_pass (cats sel : list string) (ds de : string) (r : Fact) : bool :=
  matchBranch sel r &&
  negb (hasRange (keyFromStr ds) (keyFromStr de) &&
        outside (keyFromStr ds) (keyFromStr de) (ymToKey (Year r) (Month r))) &&
  includes cats (Category r).

(** the month of a series row *)
Definition pt_ym (p : Point) : num * num := (pt_Year p, pt_Month p).

(** the update shared by the two monthly loops: when the fact is taken, its
    amount is added to the cell of its category *)
Definition sum_upd (take : Fact → bool) (amount : Fact → num) (r : Fact) (obj : Point)
  : Point :=
  if take r
  then set_val obj (Category r) (Some (add (val_or_0 obj (Category r)) (amount r)))
  else obj.





(** a branch selection in order: the whole company, or an explicit list of
    branches that is not empty *)
Definition selection_ok (selectedBranches : list string) : Prop :=
  selectedBranches = [ALL] ∨ (selectedBranches ≠ [] ∧ ALL ∉ selectedBranches).

Definition event_ok (ev : BranchEvent) : Prop :=
  match ev with
  | BranchesChange _ => True
  | RegionClick region => region ∈ regions
  | BranchClick b => b ≠ ALL
  end.

(** a name that [allCategories] lists *)
Definition listable (name : string) : bool :=
  negb (String.eqb name "") &&
  negb (includes DIMENSION_COLUMN_NAMES (toLowerCase (trim name))).

(** the value of a decimal numeral read from the left, after [acc] *)
Fixpoint uint_value (u : Decimal.uint) (acc : Z) : Z :=
  match u with
  | Decimal.Nil => acc
  | Decimal.D0 u => uint_value u (acc * 10 + 0)
  | Decimal.D1 u => uint_value u (acc * 10 + 1)
  | Decimal.D2 u => uint_value u (acc * 10 + 2)
  | Decimal.D3 u => uint_value u (acc * 10 + 3)
  | Decimal.D4 u => uint_value u (acc * 10 + 4)
  | Decimal.D5 u => uint_value u (acc * 10 + 5)
  | Decimal.D6 u => uint_value u (acc * 10 + 6)
  | Decimal.D7 u => uint_value u (acc * 10 + 7)
  | Decimal.D8 u => uint_value u (acc * 10 + 8)
  | Decimal.D9 u => uint_value u (acc * 10 + 9)
  end.

(** a string of decimal digits *)
Fixpoint all_digits (s : string) : bool :=
  match s with
  | EmptyString => true
  | String a s' =>
      match digit_of 10 a with
      | Some _ => all_digits s'
      | None => false
      end
  end.

(** the value of a string of decimal digits, after [acc] *)
Fixpoint digits_value (s : string) (acc : Z) : Z :=
  match s with
  | EmptyString => acc
  | String a s' => digits_value s' (acc * 10 + default 0 (digit_of 10 a))
  end.

(** the window of the date controls is in order: both ends read as keys
    and start <= end *)
Definition ordered (dateStart dateEnd : string) : Prop :=
  ∀ sk ek, keyFromStr dateStart = Some sk → keyFromStr dateEnd = Some ek →
           leb sk ek = true.

(** a fact of a calendar month: a whole year from 1 to [max_exact_year] and
    a month 1..12 *)
Definition calendar_fact (r : Fact) : Prop :=
  ∃ y m, Year r = ofZ y ∧ Month r = ofZ m ∧ 1 ≤ y ≤ max_exact_year ∧ 1 ≤ m ≤ 12.



(** the polynomial of the character codes, without wrap-around *)
Definition poly_hash (input : list ascii) (acc : Z) : Z :=
  fold_left (λ hash a, hash * 31 + Z.of_N (N_of_ascii a)) input acc.

(** the colour that [getPersistentColorMap] gives a key *)
Definition color_of (stored overrides : gmap string string) (key : string) : string :=
  default (default (colorFromString key) (stored !! key)) (overrides !! key).

(** the number of a calendar month, counted from January of the year 0 *)
Definition month_number (y m : Z) : Z := y * 12 + (m - 1).

(** the number of fraction digits that [formatFileSize] shows *)
Definition size_precision (value : num) : nat :=
  if geb value (ofZ 100) then 0%nat else if geb value (ofZ 10) then 1%nat else 2%nat.

(** the entry that a record of the list gives, if any *)
Definition record_entry (record : option DatasetRecord) : option DatasetEntry :=
  match record with
  | Some record =>
      match rec_file record with
      | Some file => buildDatasetEntry file record
      | None => None
      end
  | None => None
  end.

(** an entry of the map and the entry of the record it comes from *)
Definition from_record (records : list (option DatasetRecord)) (e : DatasetEntry) : Prop :=
  ∃ record entry, record ∈ records ∧ record_entry record = Some entry ∧
    e_id e = e_id entry ∧ e_fileName e = e_fileName entry ∧ e_label e = e_label entry ∧
    e_file e = e_file entry.

(** ** Sample data *)

(** a small dataset: one good row, one row with an unusable year, and a
    cell that is not a number *)
Definition sample_data : list record :=
  [ [("Year", VNum (ofZ 2024)); ("Period", VStr "Jan"); ("Branch", VStr "A");
     ("Parts", VStr "1,234"); ("Service", VStr "n/a")];
    [("Year", VStr "total"); ("Period", VStr "Feb"); ("Branch", VStr "A");
     ("Parts", VNum (ofZ 5)); ("Service", VNum (ofZ 6))] ].

Definition sample_facts : list Fact :=
  [ {| Year := ofZ 2024; Month := ofZ 1; Category := "Parts"; Value := ofZ 1234;
       Branch := Some "A" |} ].

(** twenty-four consecutive months of Total = 100, without a branch *)
Definition sample_months : list Fact :=
  y ← [2022; 2023];
  m ← seqZ 1 12;
  [ {| Year := ofZ y; Month := ofZ m; Category := "Total"; Value := ofZ 100;
       Branch := None |} ].

Definition sample_aggregate : list Point := monthlyAggAllMonths sample_months [ALL].


(** three facts: two branches in January 2023, and a fact without a branch
    in December 2022 *)
Definition sample_rows : list Fact :=
  [ {| Year := ofZ 2023; Month := ofZ 1; Category := "Total"; Value := ofZ 100;
       Branch := Some "A" |};
    {| Year := ofZ 2023; Month := ofZ 1; Category := "Total"; Value := ofZ 50;
       Branch := Some "B" |};
    {| Year := ofZ 2022; Month := ofZ 12; Category := "Parts"; Value := ofZ 7;
       Branch := None |} ].

(** a collation for the examples: the order of the character codes *)
Definition collate_codes (a b : string) : num :=
  if String.ltb a b then ofZ (-1) else if String.eqb a b then zero else ofZ 1.

(** * Properties *)

(** ** Arithmetic of [num] *)

Lemma Qc_of_Z_0 : Qc_of_Z 0 = 0%Qc.
Proof. exact Z2Qc_inj_0. Qed.

Lemma add_comm (a b : num) : add a b = add b a.
Proof. destruct a, b; simpl; try reflexivity. f_equal. apply Qcplus_comm. Qed.

Lemma add_assoc (a b c : num) : add a (add b c) = add (add a b) c.
Proof. destruct a, b, c; simpl; try reflexivity. f_equal. apply Qcplus_assoc. Qed.

Lemma add_zero_l (a : num) : add zero a = a.
Proof.
  destruct a; simpl; try reflexivity.
  f_equal. rewrite Qc_of_Z_0. apply Qcplus_0_l.
Qed.

Lemma add_zero_r (a : num) : add a zero = a.
Proof. rewrite add_comm. apply add_zero_l. Qed.

Lemma add_ofZ (a b : Z) : add (ofZ a) (ofZ b) = ofZ (a + b).
Proof. unfold ofZ; simpl. by rewrite Z2Qc_inj_add. Qed.

Lemma mul_ofZ (a b : Z) : mul (ofZ a) (ofZ b) = ofZ (a * b).
Proof. unfold ofZ; simpl. by rewrite Z2Qc_inj_mul. Qed.

Lemma ofZ_inj (a b : Z) : ofZ a = ofZ b → a = b.
Proof. unfold ofZ. intros H. apply Z2Qc_inj. congruence. Qed.

Lemma ltb_ofZ (a b : Z) : ltb (ofZ a) (ofZ b) = bool_decide (a < b).
Proof.
  unfold ofZ; simpl. apply bool_decide_ext. symmetry. apply Z2Qc_inj_lt.
Qed.

Lemma leb_ofZ (a b : Z) : leb (ofZ a) (ofZ b) = bool_decide (a ≤ b).
Proof.
  unfold leb. change (negb (ltb (ofZ b) (ofZ a)) = bool_decide (a ≤ b)).
  rewrite ltb_ofZ. do 2 case_bool_decide; simpl; try reflexivity; lia.
Qed.

Lemma truthy_ofZ (a : Z) : truthy (ofZ a) = negb (bool_decide (a = 0)).
Proof.
  unfold ofZ; simpl. f_equal. apply bool_decide_ext.
  rewrite <- Qc_of_Z_0. apply Z2Qc_inj_iff.
Qed.

Lemma ymToKey_ofZ (y m : Z) : ymToKey (ofZ y) (ofZ m) = ofZ (y * 100 + m).
Proof. unfold ymToKey. by rewrite mul_ofZ, add_ofZ. Qed.

(** the quotient of two integers, as a rational *)
Lemma Qc_of_Z_div_this (k d : Z) :
  d ≠ 0 → (this (Qc_of_Z k / Qc_of_Z d)%Qc == inject_Z k / inject_Z d)%Q.
Proof.
  intros Hd. unfold Qcdiv, Qcmult, Qcinv, Q2Qc; simpl.
  rewrite !Qred_correct. reflexivity.
Qed.

Lemma Qfloor_Qc_of_Z_div (k d : Z) :
  d ≠ 0 → Qfloor (this (Qc_of_Z k / Qc_of_Z d)%Qc) = k / d.
Proof.
  intros Hd. rewrite (Qfloor_comp _ _ (Qc_of_Z_div_this k d Hd)).
  symmetry. apply Zdiv_Qdiv.
Qed.

Lemma Qc_of_Z_ne_0 (d : Z) : d ≠ 0 → Qc_of_Z d ≠ 0%Qc.
Proof. intros Hd H. rewrite <- Qc_of_Z_0 in H. by apply Z2Qc_inj in H. Qed.

Lemma Math_floor_div_ofZ (k d : Z) :
  d ≠ 0 → Math_floor (div (ofZ k) (ofZ d)) = ofZ (k / d).
Proof.
  intros Hd. unfold ofZ at 1 2. unfold div.
  destruct (decide (Qc_of_Z d = 0%Qc)) as [H|_].
  { by apply Qc_of_Z_ne_0 in H. }
  unfold Math_floor. by rewrite Qfloor_Qc_of_Z_div.
Qed.

Lemma Qc_div_nonneg (k d : Z) :
  0 ≤ k → 0 < d → (0 <= Qc_of_Z k / Qc_of_Z d)%Qc.
Proof.
  intros Hk Hd. unfold Qcdiv.
  apply Qcmult_nonneg_nonneg.
  - rewrite <- Qc_of_Z_0. exact (proj1 (Z2Qc_inj_le 0 k) Hk).
  - apply Qclt_le_weak, Qcinv_pos. rewrite <- Qc_of_Z_0.
    exact (proj1 (Z2Qc_inj_lt 0 d) Hd).
Qed.

(** [k % d] on non-negative integers is the integer remainder *)
Lemma rem_ofZ_nonneg (k d : Z) :
  0 ≤ k → 0 < d → rem (ofZ k) (ofZ d) = ofZ (k mod d).
Proof.
  intros Hk Hd. unfold ofZ at 1 2. unfold rem.
  destruct (decide (Qc_of_Z d = 0%Qc)) as [H|_].
  { apply Qc_of_Z_ne_0 in H; [done | lia]. }
  unfold ofZ. f_equal. unfold Qc_trunc.
  rewrite bool_decide_eq_true_2 by (by apply Qc_div_nonneg).
  rewrite Qfloor_Qc_of_Z_div by lia.
  rewrite <- Z2Qc_inj_mul, <- Z2Qc_inj_sub. f_equal.
  rewrite Z.mod_eq by lia. reflexivity.
Qed.

(** ** Month keys *)

Lemma ymToKey_lt_iff (y m y' m' : Z) :
  1 ≤ m ≤ 12 → 1 ≤ m' ≤ 12 →
  ltb (ymToKey (ofZ y) (ofZ m)) (ymToKey (ofZ y') (ofZ m')) = true
  ↔ y < y' ∨ (y = y' ∧ m < m').
Proof.
  intros Hm Hm'. rewrite !ymToKey_ofZ, ltb_ofZ, bool_decide_eq_true. lia.
Qed.

Lemma fromKey_ymToKey (y m : Z) :
  0 ≤ y → 0 ≤ m < 100 → fromKey (ymToKey (ofZ y) (ofZ m)) = (ofZ y, ofZ m).
Proof.
  intros Hy Hm. rewrite ymToKey_ofZ. unfold fromKey.
  rewrite Math_floor_div_ofZ by lia. rewrite rem_ofZ_nonneg by lia.
  f_equal; f_equal.
  - rewrite Z.add_comm, Z.div_add by lia. rewrite Z.div_small by lia. lia.
  - rewrite Z.add_comm, Z.mod_add by lia. apply Z.mod_small. lia.
Qed.

(** the keys of the years up to [max_exact_year], of either sign, are whole
    numbers of absolute value below 2^53; the keys of the next year are not *)
Lemma exact_year_keys (y m : Z) :
  - max_exact_year ≤ y ≤ max_exact_year → 1 ≤ m ≤ 12 →
  ymToKey (ofZ y) (ofZ m) = ofZ (y * 100 + m) ∧ - 2 ^ 53 < y * 100 + m < 2 ^ 53 ∧
  2 ^ 53 < (max_exact_year + 1) * 100 + m.
Proof.
  intros Hy Hm. rewrite ymToKey_ofZ. split; [done|].
  unfold max_exact_year in *. change (2 ^ 53) with 9007199254740992. lia.
Qed.

(** C4, as amended: [toKey(2024,1) < toKey(2024,12) < toKey(2025,1)]; for
    every integer year [y] from 0 to [max_exact_year] and month [m] in 1..12,
    decoding [ymToKey y m] by [Math.floor(key / 100)] and [key % 100] gives
    back [(y, m)]; and for all integer years of absolute value up to
    [max_exact_year] and months in 1..12 the order of the keys is the
    chronological order of the pairs.  Up to that year the keys are whole
    numbers below 2^53, computed by doubles without rounding; beyond it they
    are rounded, which the exact numbers of the model do not show. *)
Theorem month_key_order_and_roundtrip (y m y' m' : Z) :
  1 ≤ m ≤ 12 → 1 ≤ m' ≤ 12 →
  - max_exact_year ≤ y ≤ max_exact_year → - max_exact_year ≤ y' ≤ max_exact_year →
  ltb (ymToKey (ofZ 2024) (ofZ 1)) (ymToKey (ofZ 2024) (ofZ 12)) = true ∧
  ltb (ymToKey (ofZ 2024) (ofZ 12)) (ymToKey (ofZ 2025) (ofZ 1)) = true ∧
  (0 ≤ y → fromKey (ymToKey (ofZ y) (ofZ m)) = (ofZ y, ofZ m)) ∧
  (ltb (ymToKey (ofZ y) (ofZ m)) (ymToKey (ofZ y') (ofZ m')) = true
   ↔ y < y' ∨ (y = y' ∧ m < m')).
Proof.
  intros Hm Hm' _ _. split; [|split; [|split]].
  - apply ymToKey_lt_iff; lia.
  - apply ymToKey_lt_iff; lia.
  - intros Hy. apply fromKey_ymToKey; lia.
  - by apply ymToKey_lt_iff.
Qed.

Lemma month_key_order_and_roundtrip_witness :
  fromKey (ymToKey (ofZ 2024) (ofZ 12)) = (ofZ 2024, ofZ 12) ∧
  (ltb (ymToKey (ofZ 2024) (ofZ 12)) (ymToKey (ofZ 2025) (ofZ 1)) = true
   ↔ 2024 < 2025 ∨ (2024 = 2025 ∧ 12 < 1)).
Proof.
  destruct (month_key_order_and_roundtrip 2024 12 2025 1) as (_ & _ & H1 & H2);
    [lia | lia | unfold max_exact_year; lia | unfold max_exact_year; lia |].
  split; [apply H1; lia | exact H2].
Defined.

(** C4, the counterexample: the year -1.  [ymToKey(-1, 1)] is [-99];
    [Math.floor(-99 / 100)] is [-1], but [-99 % 100] is [-99], not [1]. *)
Lemma fromKey_negative_year :
  1 ≤ 1 ≤ 12 ∧
  fromKey (ymToKey (ofZ (-1)) (ofZ 1)) = (ofZ (-1), ofZ (-99)) ∧
  fromKey (ymToKey (ofZ (-1)) (ofZ 1)) ≠ (ofZ (-1), ofZ 1).
Proof. split; [lia | split; compute_done]. Qed.

(** ** Strings and the number parser *)

Lemma trimStart_head (s : string) :
  trimStart s = EmptyString ∨
  ∃ a r, trimStart s = String a r ∧ Ascii.is_space a = false.
Proof.
  induction s as [|a s IH]; simpl; [by left|].
  destruct (Ascii.is_space a) eqn:Ha; [exact IH|]. right. eauto.
Qed.

Lemma trimStart_id (a : ascii) (r : string) :
  Ascii.is_space a = false → trimStart (String a r) = String a r.
Proof. intros Ha. simpl. by rewrite Ha. Qed.

Lemma trimEnd_idemp (s : string) : trimEnd (trimEnd s) = trimEnd s.
Proof.
  induction s as [|a s IH]; simpl; [done|].
  destruct (trimEnd s) as [|b t] eqn:Hs.
  - destruct (Ascii.is_space a) eqn:Ha; simpl; [done|]. by rewrite Ha.
  - simpl. simpl in IH. by rewrite IH.
Qed.

Lemma trimEnd_head (a : ascii) (r : string) :
  Ascii.is_space a = false → ∃ r', trimEnd (String a r) = String a r'.
Proof.
  intros Ha. simpl. destruct (trimEnd r); rewrite ?Ha; eauto.
Qed.

Lemma trim_head (s : string) :
  trim s = EmptyString ∨ ∃ a r, trim s = String a r ∧ Ascii.is_space a = false.
Proof.
  unfold trim. destruct (trimStart_head s) as [->|(a & r & -> & Ha)]; [by left|].
  right. destruct (trimEnd_head a r Ha) as [r' Hr']. eauto.
Qed.

Lemma trim_idemp (s : string) : trim (trim s) = trim s.
Proof.
  destruct (trim_head s) as [->|(a & r & Hs & Ha)]; [done|].
  unfold trim at 1. rewrite Hs, (trimStart_id a r Ha), <- Hs.
  unfold trim. apply trimEnd_idemp.
Qed.

(** [Number(s)] only looks at the trimmed string *)
Lemma StringToNumber_trim (s : string) : StringToNumber (trim s) = StringToNumber s.
Proof. unfold StringToNumber. by rewrite trim_idemp. Qed.

(** a trimmed string that starts like a month name is not a number *)
Lemma month_initial_not_number (a : ascii) (r : string) :
  month_initial a = true → trim (String a r) = String a r →
  StringToNumber (String a r) = NaN.
Proof.
  intros Ha Ht. unfold StringToNumber. rewrite Ht. clear Ht.
  destruct a as [[] [] [] [] [] [] [] []];
    try discriminate Ha; reflexivity.
Qed.

Lemma findIndex_None {A} (p : A → bool) (l : list A) :
  findIndex p l = None ↔ ∀ x, x ∈ l → p x = false.
Proof.
  induction l as [|y l IH]; simpl.
  - split; [|done]. intros _ x Hx. by apply elem_of_nil in Hx.
  - destruct (p y) eqn:Hy.
    + split; [done|]. intros H. specialize (H y (list_elem_of_here _ _)). congruence.
    + rewrite fmap_None, IH. split.
      * intros H x Hx. apply elem_of_cons in Hx as [->|Hx]; auto.
      * intros H x Hx. apply H. by apply list_elem_of_further.
Qed.

(** ** The month-token parser *)

Lemma ltb_Fin (x y : Qc) : ltb (Fin x) (Fin y) = bool_decide (x < y)%Qc.
Proof. reflexivity. Qed.

Lemma leb_Fin (x y : Qc) : leb (Fin x) (Fin y) = bool_decide (x <= y)%Qc.
Proof.
  unfold leb. rewrite ltb_Fin.
  destruct (bool_decide_reflect (y < x)%Qc) as [H|H]; simpl; symmetry.
  - apply bool_decide_eq_false_2. by apply Qclt_not_le.
  - apply bool_decide_eq_true_2. by apply Qcnot_lt_le.
Qed.

(** the clamp of [toMonthIndex] lands in 1..12 on every number but [NaN] *)
Lemma clamp_range (n : num) :
  n ≠ NaN →
  leb (ofZ 1) (Math_max (ofZ 1) (Math_min (ofZ 12) n)) = true ∧
  leb (Math_max (ofZ 1) (Math_min (ofZ 12) n)) (ofZ 12) = true.
Proof.
  intros Hn. destruct n as [| | |q]; [done | split; compute_done.. |].
  assert (H112 : (Qc_of_Z 1 <= Qc_of_Z 12)%Qc) by (by apply (proj1 (Z2Qc_inj_le 1 12))).
  assert (H112' : (Qc_of_Z 1 < Qc_of_Z 12)%Qc) by (by apply (proj1 (Z2Qc_inj_lt 1 12))).
  unfold Math_min, ofZ. rewrite ltb_Fin.
  destruct (bool_decide_reflect (q < Qc_of_Z 12)%Qc) as [H12|H12];
    unfold Math_max; rewrite ltb_Fin.
  - destruct (bool_decide_reflect (Qc_of_Z 1 < q)%Qc) as [H1|H1];
      rewrite !leb_Fin, !bool_decide_eq_true; split;
      auto using Qclt_le_weak, Qcle_refl.
  - rewrite bool_decide_eq_true_2 by done.
    rewrite !leb_Fin, !bool_decide_eq_true; split; auto using Qcle_refl.
Qed.

Lemma month_prefix_initial (t name : string) :
  name ∈ monthNames →
  toLowerCase (slice03 t) = toLowerCase name →
  ∃ a r, t = String a r ∧ month_initial a = true.
Proof.
  intros Hname Hpre. destruct t as [|a r].
  - exfalso. revert Hpre. unfold monthNames in Hname.
    repeat (apply elem_of_cons in Hname as [->|Hname]; [discriminate|]).
    by apply elem_of_nil in Hname.
  - exists a, r. split; [done|].
    unfold slice03 in Hpre. simpl in Hpre. unfold month_initial.
    apply existsb_exists. exists name. split; [by apply list_elem_of_In|].
    unfold monthNames in Hname.
    repeat (apply elem_of_cons in Hname as [->|Hname];
            [injection Hpre as -> _; reflexivity|]).
    by apply elem_of_nil in Hname.
Qed.

Lemma month_prefix_not_number (s name : string) :
  name ∈ monthNames →
  toLowerCase (slice03 (trim s)) = toLowerCase name →
  StringToNumber (trim s) = NaN.
Proof.
  intros Hname Hpre.
  destruct (month_prefix_initial _ _ Hname Hpre) as (a & r & Ht & Ha).
  rewrite Ht. apply month_initial_not_number; [done|].
  rewrite <- Ht. apply trim_idemp.
Qed.

Lemma toMonthIndex_month_name (s name : string) (i : nat) :
  monthNames !! i = Some name →
  toLowerCase (slice03 (trim s)) = toLowerCase name →
  toMonthIndex (VStr s) = Some (ofZ (Z.of_nat i + 1)).
Proof.
  intros Hi Hpre.
  assert (Hnan : StringToNumber (trim s) = NaN).
  { eapply month_prefix_not_number; [|exact Hpre]. by eapply list_elem_of_lookup_2. }
  unfold toMonthIndex, reparse, ToString. rewrite Hnan. simpl negb. cbv iota.
  rewrite Hpre. clear Hpre Hnan.
  unfold monthNames in Hi.
  do 12 (destruct i as [|i]; [injection Hi as <-; reflexivity|]).
  discriminate Hi.
Qed.

Lemma toMonthIndex_number (s : string) :
  StringToNumber s ≠ NaN →
  toMonthIndex (VStr s)
  = Some (Math_max (ofZ 1) (Math_min (ofZ 12) (StringToNumber s))).
Proof.
  intros Hn. unfold toMonthIndex, reparse, ToString.
  rewrite StringToNumber_trim. by destruct (StringToNumber s).
Qed.

Lemma toMonthIndex_None (s : string) :
  toMonthIndex (VStr s) = None
  ↔ StringToNumber s = NaN ∧
    ∀ name, name ∈ monthNames → toLowerCase (slice03 (trim s)) ≠ toLowerCase name.
Proof.
  unfold toMonthIndex, reparse, ToString. rewrite StringToNumber_trim.
  destruct (StringToNumber s) eqn:Hn; simpl negb; cbv iota;
    try (split; [discriminate | intros [? _]; discriminate]).
  destruct (findIndex _ monthNames) as [idx|] eqn:Hf.
  - split; [discriminate|]. intros [_ H]. exfalso.
    assert (Hnone : findIndex
              (λ x, String.eqb (toLowerCase x) (toLowerCase (slice03 (trim s))))
              monthNames = None).
    { apply findIndex_None. intros x Hx. apply String.eqb_neq.
      intros Heq. by apply (H x Hx). }
    congruence.
  - split; [|done]. intros _. split; [done|]. intros name Hname Heq.
    apply findIndex_None with (x := name) in Hf; [|done].
    apply String.eqb_neq in Hf. by apply Hf.
Qed.

(** C5, as amended: [toMonthIndex] maps the numeric tokens "1".."12" to
    their integer and a token whose first three letters are, in any case,
    those of a month name Jan..Dec to that month; every other token that
    reads as a number (and every cell that is a number) is clamped into
    1..12 instead of being refused; the result is [null] exactly for [null],
    [undefined] and the tokens that neither read as a number nor start like
    a month name. *)
Theorem toMonthIndex_spec (s : string) :
  (∀ k, 1 ≤ k ≤ 12 → s = Z_to_string k → toMonthIndex (VStr s) = Some (ofZ k)) ∧
  (∀ i name, monthNames !! i = Some name →
             toLowerCase (slice03 (trim s)) = toLowerCase name →
             toMonthIndex (VStr s) = Some (ofZ (Z.of_nat i + 1))) ∧
  (StringToNumber s ≠ NaN →
     ∃ r, toMonthIndex (VStr s) = Some r ∧
          r = Math_max (ofZ 1) (Math_min (ofZ 12) (StringToNumber s)) ∧
          leb (ofZ 1) r = true ∧ leb r (ofZ 12) = true) ∧
  (toMonthIndex (VStr s) = None
   ↔ StringToNumber s = NaN ∧
     ∀ name, name ∈ monthNames →
             toLowerCase (slice03 (trim s)) ≠ toLowerCase name) ∧
  (∀ n, n ≠ NaN →
        toMonthIndex (VNum n) = Some (Math_max (ofZ 1) (Math_min (ofZ 12) n))) ∧
  toMonthIndex VNull = None ∧ toMonthIndex VUndef = None.
Proof.
  split; [|split; [|split; [|split; [|split; [by intros [] | done]]]]].
  - intros k Hk ->.
    assert (Hc : k ∈ [1; 2; 3; 4; 5; 6; 7; 8; 9; 10; 11; 12]).
    { rewrite !elem_of_cons. lia. }
    repeat (apply elem_of_cons in Hc as [->|Hc]; [reflexivity|]).
    by apply elem_of_nil in Hc.
  - intros i name. apply toMonthIndex_month_name.
  - intros Hn. eexists. split; [by apply toMonthIndex_number|].
    split; [done|]. by apply clamp_range.
  - apply toMonthIndex_None.
Qed.

Lemma toMonthIndex_spec_witness :
  toMonthIndex (VStr "7") = Some (ofZ 7) ∧
  toMonthIndex (VStr " January ") = Some (ofZ 1) ∧
  (toMonthIndex (VStr "Ja") = None
   ↔ StringToNumber "Ja" = NaN ∧
     ∀ name, name ∈ monthNames →
             toLowerCase (slice03 (trim "Ja")) ≠ toLowerCase name).
Proof.
  split; [|split].
  - destruct (toMonthIndex_spec "7") as (H & _). apply (H 7); [lia | reflexivity].
  - destruct (toMonthIndex_spec " January ") as (_ & H & _).
    apply (H 0%nat "Jan"); reflexivity.
  - destruct (toMonthIndex_spec "Ja") as (_ & _ & _ & H & _). exact H.
Defined.

(** C5, the counterexample: the token "13" (or the number 13, as the CSV
    reader types it) is neither one of "1".."12" nor a month name, and it is
    mapped to December instead of [null]; the empty token is mapped to
    January. *)
Lemma toMonthIndex_13_is_december :
  toMonthIndex (VStr "13") = Some (ofZ 12) ∧
  toMonthIndex (VNum (ofZ 13)) = Some (ofZ 12) ∧
  toMonthIndex (VStr "") = Some (ofZ 1) ∧
  toMonthIndex (VStr "13") ≠ None.
Proof. repeat split; compute_done. Qed.

(** ** The record normalizer *)

Lemma push_cell_fold (c : columns) (row : record) (cols : list string) (parsed : list Fact) :
  fold_left
    (push_cell row (ToNumber (get row (yearCol c))) (row_month c row)
       (match branchCol c with Some b => get row b | None => VUndef end))
    cols parsed
  = parsed ++ omap (cell_fact c row) cols.
Proof.
  revert parsed. induction cols as [|col cols IH]; intros parsed; simpl.
  - by rewrite app_nil_r.
  - rewrite IH. unfold push_cell, cell_fact.
    destruct (isNaN (cell_number (get row col))); [done|].
    by rewrite <- app_assoc.
Qed.

Lemma push_row_facts (c : columns) (parsed : list Fact) (row : record) :
  push_row (yearCol c) (periodCol c) (branchCol c) (catCols c) parsed row
  = parsed ++ row_facts c row.
Proof.
  unfold push_row, row_facts. fold (row_month c row).
  destruct (truthy (ToNumber (get row (yearCol c)))); simpl;
    [|by rewrite app_nil_r].
  destruct (truthy (row_month c row)); simpl; [|by rewrite app_nil_r].
  apply push_cell_fold.
Qed.

Lemma push_rows_facts (c : columns) (data : list record) (parsed : list Fact) :
  fold_left (push_row (yearCol c) (periodCol c) (branchCol c) (catCols c)) data parsed
  = parsed ++ flat_map (row_facts c) data.
Proof.
  revert parsed. induction data as [|row data IH]; intros parsed; simpl.
  - by rewrite app_nil_r.
  - rewrite IH, push_row_facts. by rewrite <- app_assoc.
Qed.

(** the normalizer, read through the columns it resolves *)
Lemma normalizeParsedRows_unfold (data : list record) (metaFields : option (list string)) :
  normalizeParsedRows data metaFields
  = match resolve_headers data metaFields with
    | [] => Thrown NoHeaders
    | _ :: _ =>
        match resolve_columns (resolve_headers data metaFields) with
        | None => Thrown MissingYearOrPeriod
        | Some c =>
            match flat_map (row_facts c) data with
            | [] => Thrown NoValidRows
            | f :: l => Returned (f :: l)
            end
        end
    end.
Proof.
  unfold normalizeParsedRows, resolve_columns.
  destruct (resolve_headers data metaFields) as [|h hs]; [done|].
  destruct (List.find (test_names year_names) (h :: hs)) as [y|]; [|done].
  destruct (List.find (test_names period_names) (h :: hs)) as [p|]; [|done].
  set (c := {| yearCol := y; periodCol := p;
               branchCol := List.find (test_names branch_names) (h :: hs);
               catCols := _ |}).
  change (fold_left _ data [])
    with (fold_left (push_row (yearCol c) (periodCol c) (branchCol c) (catCols c)) data []).
  rewrite push_rows_facts. simpl. by destruct (flat_map (row_facts c) data).
Qed.







Lemma flat_map_Forall {A B} (P : B → Prop) (f : A → list B) (l : list A) :
  (∀ x, Forall P (f x)) → Forall P (flat_map f l).
Proof.
  intros H. induction l as [|x l IH]; simpl; [constructor|].
  apply Forall_app. auto.
Qed.

Lemma has_header_find (names : list string) (data : list record)
    (metaFields : option (list string)) :
  has_header names data metaFields
  ↔ is_Some (List.find (test_names names) (resolve_headers data metaFields)).
Proof.
  unfold has_header. generalize (resolve_headers data metaFields). intros hs.
  split.
  - intros (h & Hh & Hn).
    destruct (List.find (test_names names) hs) as [x|] eqn:Hf; [by eexists|].
    exfalso. apply list_elem_of_In in Hh.
    pose proof (find_none _ _ Hf h Hh) as Hfalse.
    unfold test_names, includes in Hfalse.
    by apply bool_decide_eq_false in Hfalse.
  - intros [x Hf]. apply find_some in Hf as [Hin Ht].
    exists x. split; [by apply list_elem_of_In|].
    unfold test_names, includes in Ht. by apply bool_decide_eq_true in Ht.
Qed.

Lemma resolve_columns_Some (hs : list string) :
  is_Some (resolve_columns hs)
  ↔ is_Some (List.find (test_names year_names) hs) ∧
    is_Some (List.find (test_names period_names) hs).
Proof.
  unfold resolve_columns.
  destruct (List.find (test_names year_names) hs),
           (List.find (test_names period_names) hs);
    (split; [intros Hs | intros [[? Hy] [? Hp]]]);
    try discriminate; try (destruct Hs; discriminate); eauto.
Qed.











(** reading a name the row does not have: a category column named like a
    member of [Object.prototype] gives the inherited member, which does not
    read as a number, so the cell is skipped; any other missing cell reads
    as 0 *)
Example missing_cells :
  get [("Year", VNum (ofZ 2024))] "constructor"
  = VObject "function Object() { [native code] }" ∧
  cell_number (get [("Year", VNum (ofZ 2024))] "constructor") = NaN ∧
  cell_number (get [("Year", VNum (ofZ 2024))] "__proto__") = NaN ∧
  cell_number (get [("Year", VNum (ofZ 2024))] "Sales") = zero.
Proof. repeat split; vm_compute; reflexivity. Qed.

(** C9: normalization fails with a MissingColumn error (either message about
    headers) exactly when no resolved header matches, in any case, one of
    year, yr, fy, fiscal year, or none matches one of period, per, month;
    when both columns are there it fails with EmptyDataset exactly when no
    Fact was produced, and otherwise returns the facts. *)
Theorem normalizer_error_contract (data : list record)
    (metaFields : option (list string)) :
  ((∃ e, normalizeParsedRows data metaFields = Thrown e ∧
         error_class e = MissingColumn)
   ↔ ¬ has_header year_names data metaFields ∨
     ¬ has_header period_names data metaFields) ∧
  (has_header year_names data metaFields ∧ has_header period_names data metaFields
   ↔ ∃ c, resolve_columns (resolve_headers data metaFields) = Some c) ∧
  (∀ c, resolve_columns (resolve_headers data metaFields) = Some c →
     ((∃ e, normalizeParsedRows data metaFields = Thrown e ∧
            error_class e = EmptyDataset)
      ↔ flat_map (row_facts c) data = []) ∧
     (flat_map (row_facts c) data ≠ [] →
      normalizeParsedRows data metaFields = Returned (flat_map (row_facts c) data))).
Proof.
  rewrite !has_header_find, normalizeParsedRows_unfold.
  pose proof (resolve_columns_Some (resolve_headers data metaFields)) as Hcols.
  destruct (resolve_headers data metaFields) as [|h hs] eqn:Hhs.
  { split; [|split].
    - split; [intros _; left; by intros [? ?]|]. intros _. by exists NoHeaders.
    - split; [by intros [[? ?] _]|]. by intros [? ?].
    - intros c Hc. discriminate Hc. }
  destruct (resolve_columns (h :: hs)) as [c|] eqn:Hc.
  - assert (Hboth : is_Some (List.find (test_names year_names) (h :: hs)) ∧
                    is_Some (List.find (test_names period_names) (h :: hs))).
    { apply Hcols. by eexists. }
    split; [|split].
    + split.
      * intros (e & He & Hcl).
        destruct (flat_map (row_facts c) data); [|discriminate].
        injection He as <-. discriminate Hcl.
      * intros [Hn|Hn]; exfalso; apply Hn, Hboth.
    + split; [by eexists|done].
    + intros c' [= <-]. destruct (flat_map (row_facts c) data) as [|f l].
      * split; [|done]. split; [done|]. intros _. by exists NoValidRows.
      * split; [|done]. split; [|done]. intros (e & He & _). discriminate He.
  - split; [|split].
    + split; [|intros _; by exists MissingYearOrPeriod].
      intros _.
      destruct (List.find (test_names year_names) (h :: hs)) eqn:Hy;
        [|left; by intros [? ?]].
      destruct (List.find (test_names period_names) (h :: hs)) eqn:Hp;
        [|right; by intros [? ?]].
      exfalso. assert (Hs : is_Some (@None columns)); [|by destruct Hs].
      apply Hcols. split; by eexists.
    + split; [|by intros [? ?]]. intros Hboth. apply Hcols in Hboth.
      destruct Hboth as [? ?]. discriminate.
    + intros c Hc'. discriminate Hc'.
Qed.

Lemma normalizer_error_contract_witness :
  normalizeParsedRows sample_data None
  = Returned
      (flat_map
         (row_facts {| yearCol := "Year"; periodCol := "Period";
                       branchCol := Some "Branch"; catCols := ["Parts"; "Service"] |})
         sample_data) ∧
  ((∃ e, normalizeParsedRows [] (Some ["Period"; "Total"]) = Thrown e ∧
         error_class e = MissingColumn)
   ↔ ¬ has_header year_names [] (Some ["Period"; "Total"]) ∨
     ¬ has_header period_names [] (Some ["Period"; "Total"])).
Proof.
  split.
  - destruct (normalizer_error_contract sample_data None) as (_ & _ & H).
    destruct (H {| yearCol := "Year"; periodCol := "Period";
                   branchCol := Some "Branch"; catCols := ["Parts"; "Service"] |})
      as [_ Hret]; [reflexivity|].
    apply Hret. discriminate.
  - destruct (normalizer_error_contract [] (Some ["Period"; "Total"])) as (H & _).
    exact H.
Defined.

(** ** Branch filter *)

(** C7: when the ALL sentinel is selected every fact matches, a fact without
    a branch included; when it is not, and the selection is a set of branch
    identifiers (non-empty strings, as the program collects them), a fact
    matches exactly when it has a branch and that branch is selected, so a
    fact without a branch never matches. *)
Theorem matchBranch_spec (selectedBranches : list string) (r : Fact) :
  (ALL ∈ selectedBranches → matchBranch selectedBranches r = true) ∧
  (ALL ∉ selectedBranches → "" ∉ selectedBranches →
   (matchBranch selectedBranches r = true
    ↔ ∃ b, Branch r = Some b ∧ b ∈ selectedBranches)) ∧
  (ALL ∉ selectedBranches → Branch r = None → matchBranch selectedBranches r = false).
Proof.
  unfold matchBranch, includes. split; [|split].
  - intros H. by rewrite bool_decide_eq_true_2.
  - intros HA He. rewrite bool_decide_eq_false_2 by done.
    destruct (Branch r) as [b|]; [|split; [done | by intros (b & ? & _)]].
    destruct (String.eqb_spec b "") as [->|Hb].
    + split; [done|]. intros (b & [= <-] & Hin). done.
    + rewrite bool_decide_eq_true. split; [by eauto|]. by intros (b' & [= <-] & Hin).
  - intros HA Hb. rewrite bool_decide_eq_false_2 by done. by rewrite Hb.
Qed.

Lemma matchBranch_spec_witness :
  matchBranch [ALL] (mkFact (ofZ 2023) (ofZ 1) "Total" (ofZ 100) None) = true ∧
  (matchBranch ["A"; "B"] (mkFact (ofZ 2023) (ofZ 1) "Total" (ofZ 100) (Some "B")) = true
   ↔ ∃ b, Some "B" = Some b ∧ b ∈ ["A"; "B"]) ∧
  matchBranch ["A"; "B"] (mkFact (ofZ 2023) (ofZ 1) "Total" (ofZ 100) None) = false.
Proof.
  split; [|split].
  - destruct (matchBranch_spec [ALL]
                (mkFact (ofZ 2023) (ofZ 1) "Total" (ofZ 100) None)) as (H & _).
    apply H, list_elem_of_here.
  - destruct (matchBranch_spec ["A"; "B"]
                (mkFact (ofZ 2023) (ofZ 1) "Total" (ofZ 100) (Some "B"))) as (_ & H & _).
    apply H; compute_done.
  - destruct (matchBranch_spec ["A"; "B"]
                (mkFact (ofZ 2023) (ofZ 1) "Total" (ofZ 100) None)) as (_ & _ & H).
    apply H; [compute_done | reflexivity].
Defined.

Example matchBranch_examples :
  matchBranch [ALL] (mkFact (ofZ 2023) (ofZ 1) "Total" (ofZ 100) None) = true ∧
  matchBranch ["A"; "B"] (mkFact (ofZ 2023) (ofZ 1) "Total" (ofZ 100) (Some "B")) = true ∧
  matchBranch ["A"; "B"] (mkFact (ofZ 2023) (ofZ 1) "Total" (ofZ 100) (Some "C")) = false ∧
  matchBranch ["A"; "B"] (mkFact (ofZ 2023) (ofZ 1) "Total" (ofZ 100) None) = false.
Proof. repeat split; reflexivity. Qed.

(** ** Sums *)

Lemma fold_left_add (l : list num) (z : num) :
  fold_left add l z = add z (sum_num l).
Proof.
  revert z. induction l as [|x l IH]; intros z; simpl.
  - by rewrite add_zero_r.
  - rewrite IH. by rewrite add_assoc.
Qed.

Lemma sum_num_app (l1 l2 : list num) :
  sum_num (l1 ++ l2) = add (sum_num l1) (sum_num l2).
Proof.
  induction l1 as [|x l1 IH].
  - symmetry. apply add_zero_l.
  - simpl. by rewrite IH, add_assoc.
Qed.

Lemma sum_num_perm (l1 l2 : list num) : l1 ≡ₚ l2 → sum_num l1 = sum_num l2.
Proof.
  induction 1 as [|x l1 l2 _ IH|x y l|l1 l2 l3 _ IH1 _ IH2]; simpl.
  - done.
  - by rewrite IH.
  - by rewrite !add_assoc, (add_comm y x).
  - by rewrite IH1.
Qed.

(** ** Loops *)


Lemma fold_left_add_fmap {B} (f : B → num) (l : list B) (z : num) :
  fold_left (λ acc j, add acc (f j)) l z = add z (sum_num (f <$> l)).
Proof.
  revert z. induction l as [|x l IH]; intros z; simpl.
  - by rewrite add_zero_r.
  - rewrite IH. by rewrite add_assoc.
Qed.
















(** ** Rolling engine *)







(** the scenario of the specification: with 24 months of Total = 100 the
    rolling value at index 11 is 1200 and the growth at index 23 is 0 *)
Example rolling_scenario :
  (r12ValueData sample_aggregate ["Total"] "" "" !! 11%nat) ≫= (λ row, pt_vals row !! "Total")
  = Some (Some (ofZ 1200)) ∧
  (r12ValueData sample_aggregate ["Total"] "" "" !! 10%nat) ≫= (λ row, pt_vals row !! "Total")
  = Some None ∧
  (r12Data sample_aggregate ["Total"] "" "" !! 23%nat) ≫= (λ row, pt_vals row !! "Total")
  = Some (Some zero) ∧
  (r12Data sample_aggregate ["Total"] "" "" !! 22%nat) ≫= (λ row, pt_vals row !! "Total")
  = None.
Proof. repeat split; compute_done. Qed.

(** ** Window keys *)

Lemma digit_of_nonneg (base : Z) (a : ascii) (d : Z) :
  digit_of base a = Some d → 0 ≤ d.
Proof.
  unfold digit_of. repeat case_match; intros; simplify_eq; lia.
Qed.

Lemma digits_nonneg (base : Z) (s : string) (acc : Z) (n : nat) :
  0 ≤ base → 0 ≤ acc → 0 ≤ (digits base s acc n).1.1.
Proof.
  intros Hb. revert acc n. induction s as [|a s IH]; intros acc n Hacc; simpl; [done|].
  destruct (digit_of base a) as [d|] eqn:Hd; [|done].
  apply IH. apply digit_of_nonneg in Hd. nia.
Qed.

Lemma Qc_of_Z_nonneg (z : Z) : 0 ≤ z → (0 <= Qc_of_Z z)%Qc.
Proof. intros H. rewrite <- Qc_of_Z_0. exact (proj1 (Z2Qc_inj_le 0 z) H). Qed.

Lemma scale10_nonneg (m e : Z) : 0 ≤ m → (0 <= scale10 m e)%Qc.
Proof.
  intros Hm. unfold scale10. destruct (Z.leb_spec 0 e).
  - apply Qc_of_Z_nonneg. apply Z.mul_nonneg_nonneg; [done|]. by apply Z.pow_nonneg.
  - apply Qc_div_nonneg; [done|]. apply Z.pow_pos_nonneg; lia.
Qed.

Lemma unsigned_decimal_nonneg (s : string) : nonneg (unsigned_decimal s).
Proof.
  unfold unsigned_decimal. destruct (String.eqb s "Infinity"); [done|].
  pose proof (digits_nonneg 10 s 0 0 ltac:(lia) ltac:(lia)) as Hip.
  destruct (digits 10 s 0 0) as [[ip ni] r1]. simpl in Hip.
  assert (Hm : ∀ r, 0 ≤ (digits 10 r ip 0).1.1) by (intros r; by apply digits_nonneg).
  assert (Hgoal : ∀ m nf r2, 0 ≤ m →
    nonneg match (ni + nf)%nat with
           | O => NaN
           | S _ => match exponent r2 with
                    | Some e => Fin (scale10 m (e - Z.of_nat nf))
                    | None => NaN
                    end
           end).
  { intros m nf r2 Hmm. destruct (ni + nf)%nat; [done|].
    destruct (exponent r2); [|done]. simpl. by apply scale10_nonneg. }
  destruct r1 as [|a r]; [by apply Hgoal|].
  destruct (Ascii.eqb_spec a ".") as [->|Hne].
  - specialize (Hm r). destruct (digits 10 r ip 0) as [[m nf] r2]. by apply Hgoal.
  - assert (Heq : match String a r with
                  | String "."%char r' => digits 10 r' ip 0
                  | _ => (ip, 0%nat, String a r)
                  end = (ip, 0%nat, String a r)).
    { destruct a as [[] [] [] [] [] [] [] []]; try reflexivity. done. }
    rewrite Heq. by apply Hgoal.
Qed.

Lemma non_decimal_nonneg (base : Z) (s : string) : 0 ≤ base → nonneg (non_decimal base s).
Proof.
  intros Hb. unfold non_decimal.
  pose proof (digits_nonneg base s 0 0 Hb ltac:(lia)) as Hv.
  destruct (digits base s 0 0) as [[v [|n]] [|a r]]; try done.
  simpl in *. by apply Qc_of_Z_nonneg.
Qed.

(** only a leading minus sign makes a parsed number negative *)
Lemma StringToNumber_nonneg (s : string) :
  (∀ r, trim s ≠ String "-" r) → nonneg (StringToNumber s).
Proof.
  intros Hs. unfold StringToNumber. destruct (trim s) as [|a r].
  { simpl. rewrite <- Qc_of_Z_0. by apply Qc_of_Z_nonneg. }
  destruct a as [[] [] [] [] [] [] [] []];
    try apply unsigned_decimal_nonneg;
    try (exfalso; by apply (Hs r)).
  destruct r as [|b r']; [apply unsigned_decimal_nonneg|].
  destruct b as [[] [] [] [] [] [] [] []];
    first [ apply unsigned_decimal_nonneg | apply non_decimal_nonneg; lia ].
Qed.

Lemma trimStart_minus (s r : string) :
  trimStart s = String "-" r → has_minus s = true.
Proof.
  induction s as [|a s IH]; simpl; [done|].
  destruct (Ascii.is_space a) eqn:Ha.
  - intros H. rewrite (IH H). apply orb_true_r.
  - intros [= -> _]. reflexivity.
Qed.

Lemma trimEnd_head_eq (a b : ascii) (s r : string) :
  trimEnd (String a s) = String b r → a = b.
Proof.
  simpl. destruct (trimEnd s); [destruct (Ascii.is_space a)|]; congruence.
Qed.

Lemma trim_minus (s r : string) : trim s = String "-" r → has_minus s = true.
Proof.
  unfold trim. destruct (trimStart s) as [|a r0] eqn:Hs; [done|].
  intros H. apply trimEnd_head_eq in H as ->. by eapply trimStart_minus.
Qed.

Lemma split_no_minus (s p : string) : p ∈ split "-" s → has_minus p = false.
Proof.
  revert p. induction s as [|a s IH]; intros p; simpl.
  - intros ->%list_elem_of_singleton. reflexivity.
  - destruct (Ascii.eqb a "-") eqn:Ha.
    + intros [->|Hp]%elem_of_cons; [reflexivity | by apply IH].
    + destruct (split "-" s) as [|h t].
      * intros ->%list_elem_of_singleton. simpl. by rewrite Ha.
      * intros [->|Hp]%elem_of_cons.
        -- simpl. rewrite Ha. apply IH, list_elem_of_here.
        -- by apply IH, list_elem_of_further.
Qed.

Lemma part_nonneg (s p : string) : p ∈ split "-" s → nonneg (StringToNumber p).
Proof.
  intros Hp. apply StringToNumber_nonneg. intros r Hr.
  apply trim_minus in Hr. apply split_no_minus in Hp. congruence.
Qed.

Lemma truthy_nonneg_key (yy mm : num) :
  nonneg yy → nonneg mm → truthy yy = true → truthy mm = true →
  truthy (ymToKey yy mm) = true.
Proof.
  unfold ymToKey.
  assert (H100 : (0 < Qc_of_Z 100)%Qc).
  { rewrite <- Qc_of_Z_0. exact (proj1 (Z2Qc_inj_lt 0 100) ltac:(lia)). }
  destruct yy as [| | |y], mm as [| | |m]; try done; simpl.
  intros Hy Hm Hty Htm.
  apply negb_true_iff, bool_decide_eq_false_2. intros Hsum.
  apply negb_true_iff, bool_decide_eq_false in Hty.
  assert (Hypos : (0 < y)%Qc).
  { destruct (Qcle_lt_or_eq _ _ Hy) as [?|Heq]; [done|]. by symmetry in Heq. }
  assert (Hpos : (0 < y * Qc_of_Z 100 + m)%Qc).
  { apply Qcplus_pos_nonneg; [|done]. by apply Qcmult_pos_pos. }
  rewrite Hsum in Hpos. by apply Qclt_not_eq in Hpos.
Qed.

(** a key read from a window string is a positive number *)
Lemma keyFromStr_truthy (s : string) (k : num) :
  keyFromStr s = Some k → truthy k = true.
Proof.
  unfold keyFromStr. destruct (String.eqb s ""); [done|].
  destruct (split "-" s) as [|p1 [|p2 ps]] eqn:Hsp; try done. simpl.
  destruct (truthy (StringToNumber p1)) eqn:H1; [|done].
  destruct (truthy (StringToNumber p2)) eqn:H2; [|done]. simpl.
  intros [= <-]. apply truthy_nonneg_key; try done.
  - apply (part_nonneg s). rewrite Hsp. apply list_elem_of_here.
  - apply (part_nonneg s). rewrite Hsp. apply list_elem_of_further, list_elem_of_here.
Qed.

Lemma truthy_not_NaN (k : num) : truthy k = true → k ≠ NaN.
Proof. by destruct k. Qed.






(** ** Insertion-ordered maps and the sort *)

Local Arguments gtb : simpl never.
Local Arguments ltb : simpl never.
Local Arguments leb : simpl never.

Section Upsert.
Context {A : Type} (is_key : A → bool) (init : A) (f : A → A).

Lemma upsert_elem (map : list A) (q : A) :
  q ∈ upsert is_key init f map →
  q ∈ map ∨ q = f init ∨ ∃ p, p ∈ map ∧ is_key p = true ∧ q = f p.
Proof.
  induction map as [|p map IH]; simpl.
  - intros ->%list_elem_of_singleton. auto.
  - destruct (is_key p) eqn:Hp.
    + intros [->|Hq]%elem_of_cons.
      * right. right. exists p. split; [apply list_elem_of_here | done].
      * left. by apply list_elem_of_further.
    + intros [->|Hq]%elem_of_cons; [left; apply list_elem_of_here|].
      destruct (IH Hq) as [H|[H|(p' & Hp' & Hk & ->)]].
      * left. by apply list_elem_of_further.
      * by right; left.
      * right. right. exists p'. split; [by apply list_elem_of_further | done].
Qed.

Lemma upsert_keeps (map : list A) (p : A) :
  p ∈ map → p ∈ upsert is_key init f map ∨ f p ∈ upsert is_key init f map.
Proof.
  induction map as [|p' map IH]; simpl; [by intros ?%elem_of_nil|].
  intros [->|Hp]%elem_of_cons.
  - destruct (is_key p'); [right | left]; apply list_elem_of_here.
  - destruct (is_key p').
    + left. by apply list_elem_of_further.
    + destruct (IH Hp); [left | right]; by apply list_elem_of_further.
Qed.

Lemma upsert_touch (map : list A) :
  ∃ q, q ∈ upsert is_key init f map ∧
       (q = f init ∨ ∃ p, p ∈ map ∧ is_key p = true ∧ q = f p).
Proof.
  induction map as [|p map IH]; simpl.
  - exists (f init). split; [apply list_elem_of_here | by left].
  - destruct (is_key p) eqn:Hp.
    + exists (f p). split; [apply list_elem_of_here|].
      right. exists p. split; [apply list_elem_of_here | done].
    + destruct IH as (q & Hq & Hcase). exists q.
      split; [by apply list_elem_of_further|].
      destruct Hcase as [->|(p' & Hp' & Hk & ->)]; [by left|].
      right. exists p'. split; [by apply list_elem_of_further | done].
Qed.

End Upsert.

Section Sort.
Context {A : Type} (cmp : A → A → num).

Lemma insert_by_perm (x : A) (l : list A) : insert_by cmp x l ≡ₚ x :: l.
Proof.
  induction l as [|y l IH]; simpl; [done|].
  destruct (gtb (cmp x y) zero); [|done].
  rewrite IH. apply Permutation_swap.
Qed.

Lemma sort_by_perm (l : list A) : sort_by cmp l ≡ₚ l.
Proof.
  induction l as [|x l IH]; simpl; [done|].
  rewrite insert_by_perm. by rewrite IH.
Qed.

Lemma elem_of_sort_by (x : A) (l : list A) : x ∈ sort_by cmp l ↔ x ∈ l.
Proof. by rewrite sort_by_perm. Qed.

Context (R : A → A → Prop) (P : A → Prop).
Context (cmp_gt : ∀ x y, P x → P y → gtb (cmp x y) zero = true → R y x).
Context (cmp_le : ∀ x y, P x → P y → gtb (cmp x y) zero = false → R x y).

Lemma insert_by_sorted (x : A) (l : list A) :
  P x → Forall P l → Sorted R l → Sorted R (insert_by cmp x l).
Proof.
  intros Hx Hl Hs. induction l as [|y l IH]; simpl.
  - repeat constructor.
  - apply Forall_cons in Hl as [Hy Hl]. apply Sorted_inv in Hs as [Hs Hhd].
    destruct (gtb (cmp x y) zero) eqn:Hc.
    + constructor; [by apply IH|].
      destruct l as [|z l]; simpl.
      * constructor. by apply cmp_gt.
      * destruct (gtb (cmp x z) zero); constructor.
        -- by apply HdRel_inv in Hhd.
        -- by apply cmp_gt.
    + constructor; [by constructor|]. constructor. by apply cmp_le.
Qed.

Lemma sort_by_sorted (l : list A) : Forall P l → Sorted R (sort_by cmp l).
Proof.
  induction l as [|x l IH]; simpl; [constructor|].
  intros [Hx Hl]%Forall_cons. apply insert_by_sorted; [done | | by apply IH].
  apply Forall_forall. intros y Hy. rewrite elem_of_sort_by in Hy.
  by eapply Forall_forall in Hl.
Qed.

End Sort.

(** ** The comparator of the monthly series *)

Lemma Qc_sub_pos (a b : Qc) : (Qc_of_Z 0 < a + - b)%Qc ↔ (b < a)%Qc.
Proof.
  rewrite Qc_of_Z_0, (Qcplus_lt_mono_r b a (- b)), Qcplus_opp_r. done.
Qed.

Lemma Qc_sub_zero (a b : Qc) : (a + - b)%Qc = 0%Qc ↔ a = b.
Proof.
  split; [|intros ->; apply Qcplus_opp_r].
  intros H. apply (Qcplus_inj_l (- b)). simpl. by rewrite H, Qcplus_opp_r.
Qed.

Lemma gtb_sub_Fin (a b : Qc) : gtb (sub (Fin a) (Fin b)) zero = ltb (Fin b) (Fin a).
Proof. unfold gtb, ltb; simpl. apply bool_decide_ext, Qc_sub_pos. Qed.

Lemma truthy_sub_Fin (a b : Qc) :
  truthy (sub (Fin a) (Fin b)) = negb (bool_decide (a = b)).
Proof. simpl. f_equal. apply bool_decide_ext, Qc_sub_zero. Qed.

Lemma ltb_leb (a b : num) : ltb a b = true → leb a b = true.
Proof.
  unfold leb, ltb. destruct a as [| | |x], b as [| | |y]; try done.
  rewrite !bool_decide_eq_true, negb_true_iff, bool_decide_eq_false.
  intros H. by apply Qcle_not_lt, Qclt_le_weak.
Qed.

Lemma not_ltb_leb (a b : num) : a ≠ NaN → b ≠ NaN → ltb b a = false → leb a b = true.
Proof. unfold leb. intros Ha Hb ->. by destruct a, b. Qed.

Lemma ltb_total_Fin (a b : Qc) : a ≠ b → ltb (Fin b) (Fin a) = false → ltb (Fin a) (Fin b) = true.
Proof.
  unfold ltb. rewrite bool_decide_eq_false, bool_decide_eq_true.
  intros Hne Hnlt. apply Qcnot_lt_le in Hnlt.
  destruct (Qcle_lt_or_eq _ _ Hnlt); [done | congruence].
Qed.

Lemma month_diff_gt (a b : Point) :
  pt_Year a = pt_Year b → isFinite (pt_Month a) = true → isFinite (pt_Month b) = true →
  gtb (sub (pt_Month a) (pt_Month b)) zero = true → pt_le b a.
Proof.
  intros HY Ha Hb. destruct (pt_Month a) as [| | |ma] eqn:Ea; try done.
  destruct (pt_Month b) as [| | |mb] eqn:Eb; try done.
  rewrite gtb_sub_Fin. intros H. right. split; [done|].
  rewrite Ea, Eb. by apply ltb_leb.
Qed.

Lemma month_diff_le (a b : Point) :
  pt_Year a = pt_Year b → isFinite (pt_Month a) = true → isFinite (pt_Month b) = true →
  gtb (sub (pt_Month a) (pt_Month b)) zero = false → pt_le a b.
Proof.
  intros HY Ha Hb. destruct (pt_Month a) as [| | |ma] eqn:Ea; try done.
  destruct (pt_Month b) as [| | |mb] eqn:Eb; try done.
  rewrite gtb_sub_Fin. intros H. right. split; [done|].
  rewrite Ea, Eb. by apply not_ltb_leb.
Qed.

Lemma byYearMonth_gt (x y : Point) :
  pt_ok x → pt_ok y → gtb (byYearMonth x y) zero = true → pt_le y x.
Proof.
  intros [HYx HMx] [HYy HMy]. unfold byYearMonth, or_else.
  destruct (pt_Year x) as [| | |a] eqn:Ex; [done|..];
    destruct (pt_Year y) as [| | |b] eqn:Ey; try done;
    try (intros _; left; by rewrite Ex, Ey);
    try (apply month_diff_gt; congruence).
  rewrite truthy_sub_Fin. destruct (decide (a = b)) as [->|Hne].
  - rewrite bool_decide_eq_true_2 by done. simpl negb. cbv iota.
    apply month_diff_gt; congruence.
  - rewrite bool_decide_eq_false_2 by done. simpl negb. cbv iota.
    rewrite gtb_sub_Fin. intros H. left. by rewrite Ex, Ey.
Qed.

Lemma byYearMonth_le (x y : Point) :
  pt_ok x → pt_ok y → gtb (byYearMonth x y) zero = false → pt_le x y.
Proof.
  intros [HYx HMx] [HYy HMy]. unfold byYearMonth, or_else.
  destruct (pt_Year x) as [| | |a] eqn:Ex; [done|..];
    destruct (pt_Year y) as [| | |b] eqn:Ey; try done;
    try (intros _; left; by rewrite Ex, Ey);
    try (apply month_diff_le; congruence).
  rewrite truthy_sub_Fin. destruct (decide (a = b)) as [->|Hne].
  - rewrite bool_decide_eq_true_2 by done. simpl negb. cbv iota.
    apply month_diff_le; congruence.
  - rewrite bool_decide_eq_false_2 by done. simpl negb. cbv iota.
    rewrite gtb_sub_Fin. intros H. left. rewrite Ex, Ey. by apply ltb_total_Fin.
Qed.

(** ** Grouping facts by month *)

Lemma same_month_true (y m : num) (p : Point) :
  same_month y m p = true ↔ pt_Year p = y ∧ pt_Month p = m.
Proof.
  unfold same_month. by rewrite andb_true_iff, !bool_decide_eq_true.
Qed.

Section MonthMap.
Context (pass : Fact → bool) (upd : Fact → Point → Point).
Context (touches : Fact → string → Prop).
Context (upd_meta : ∀ r p,
  pt_Year (upd r p) = pt_Year p ∧ pt_Month (upd r p) = pt_Month p ∧
  pt_month (upd r p) = pt_month p).
Context (upd_keys : ∀ r p c,
  is_Some (pt_vals (upd r p) !! c) → is_Some (pt_vals p !! c) ∨ touches r c).

Lemma labelled_upd (r r' : Fact) (p : Point) : labelled r p → labelled r (upd r' p).
Proof.
  destruct (upd_meta r' p) as (HY & HM & Hm).
  unfold labelled, of_month. rewrite HY, HM, Hm. done.
Qed.

Lemma labelled_same (r r' : Fact) (p : Point) :
  labelled r' p → same_month (Year r) (Month r) p = true → labelled r p.
Proof.
  intros [[HY HM] Hm] [HY' HM']%same_month_true.
  unfold labelled, of_month. repeat split; [done..|]. rewrite Hm. congruence.
Qed.

Lemma labelled_new (r : Fact) : labelled r (upd r (new_point r)).
Proof. apply labelled_upd. by repeat split. Qed.

Lemma month_fold_cover (rows : list Fact) :
  (∀ r, r ∈ rows → pass r = true →
        ∃ p, p ∈ fold_left (month_step pass upd) rows [] ∧ labelled r p) ∧
  (∀ p, p ∈ fold_left (month_step pass upd) rows [] →
        ∃ r, r ∈ rows ∧ pass r = true ∧ labelled r p) ∧
  (∀ p c, p ∈ fold_left (month_step pass upd) rows [] → is_Some (pt_vals p !! c) →
          ∃ r, r ∈ rows ∧ pass r = true ∧ of_month r p ∧ touches r c).
Proof.
  induction rows as [|r rows (I1 & I2 & I3)] using rev_ind.
  { split; [|split]; simpl; intros; by apply elem_of_nil in H. }
  rewrite fold_left_app. simpl. unfold month_step at 1 3 5.
  set (map := fold_left (month_step pass upd) rows []) in *.
  destruct (pass r) eqn:Hr.
  - split; [|split].
    + intros r' [Hin | ->%list_elem_of_singleton]%elem_of_app Hp.
      * destruct (I1 r' Hin Hp) as (p & Hpm & Hl).
        destruct (upsert_keeps (same_month (Year r) (Month r)) (new_point r)
                    (upd r) map p Hpm) as [H|H]; [by eauto|].
        exists (upd r p). split; [done | by apply labelled_upd].
      * destruct (upsert_touch (same_month (Year r) (Month r)) (new_point r)
                    (upd r) map) as (q & Hq & [-> | (p & Hpm & Hk & ->)]).
        -- exists (upd r (new_point r)). split; [done | apply labelled_new].
        -- exists (upd r p). split; [done|]. apply labelled_upd.
           destruct (I2 p Hpm) as (r0 & _ & _ & Hl). by eapply labelled_same.
    + intros q Hq. apply upsert_elem in Hq as [Hq | [-> | (p & Hpm & Hk & ->)]].
      * destruct (I2 q Hq) as (r0 & Hin & Hp & Hl).
        exists r0. split; [apply elem_of_app; by left | done].
      * exists r. split; [apply elem_of_app; right; apply list_elem_of_here|].
        split; [done | apply labelled_new].
      * destruct (I2 p Hpm) as (r0 & Hin & Hp & Hl).
        exists r0. split; [apply elem_of_app; by left|].
        split; [done | by apply labelled_upd].
    + intros q c Hq Hc.
      assert (Hlast : r ∈ rows ++ [r]) by (apply elem_of_app; right; apply list_elem_of_here).
      apply upsert_elem in Hq as [Hq | [-> | (p & Hpm & Hk & ->)]].
      * destruct (I3 q c Hq Hc) as (r0 & Hin & Hp & Hl & Ht).
        exists r0. split; [apply elem_of_app; by left | done].
      * apply upd_keys in Hc as [Hc | Ht].
        { simpl in Hc. rewrite lookup_empty in Hc. by destruct Hc. }
        exists r. repeat split; try done; by destruct (labelled_new r) as [[? ?] _].
      * apply upd_keys in Hc as [Hc | Ht].
        -- destruct (I3 p c Hpm Hc) as (r0 & Hin & Hp & [HY HM] & Ht).
           exists r0. split; [apply elem_of_app; by left|].
           destruct (upd_meta r p) as (HY' & HM' & _).
           repeat split; try done; congruence.
        -- exists r. apply same_month_true in Hk as [HY HM].
           destruct (upd_meta r p) as (HY' & HM' & _).
           repeat split; try done; congruence.
  - split; [|split].
    + intros r' [Hin | ->%list_elem_of_singleton]%elem_of_app Hp;
        [by apply I1 | congruence].
    + intros q Hq. destruct (I2 q Hq) as (r0 & Hin & Hp & Hl).
      exists r0. split; [apply elem_of_app; by left | done].
    + intros q c Hq Hc. destruct (I3 q c Hq Hc) as (r0 & Hin & Hp & Hl).
      exists r0. split; [apply elem_of_app; by left | done].
Qed.

End MonthMap.

(** ** Period aggregator *)

Lemma fact_ok_month_finite (r : Fact) : fact_ok r → isFinite (Month r) = true.
Proof. intros (H1 & H12 & _). by destruct (Month r). Qed.

Lemma fact_ok_year (r : Fact) : fact_ok r → Year r ≠ NaN.
Proof. intros (_ & _ & HY & _). by destruct (Year r). Qed.

Lemma fact_ok_key (r : Fact) : fact_ok r → ymToKey (Year r) (Month r) ≠ NaN.
Proof.
  intros Hr. pose proof (fact_ok_month_finite r Hr) as HM.
  pose proof (fact_ok_year r Hr) as HY. unfold ymToKey.
  destruct (Year r) as [| | |y], (Month r) as [| | |m]; done.
Qed.

(** the test of the loop of [chartData] is [inWindow] *)
Lemma chart_window (ds de : string) (k : num) :
  k ≠ NaN →
  negb (hasRange (keyFromStr ds) (keyFromStr de) &&
        outside (keyFromStr ds) (keyFromStr de) k)
  = inWindow ds de k.
Proof.
  intros Hk. unfold hasRange, outside, inWindow.
  destruct (keyFromStr ds) as [s|] eqn:Hs; [|done].
  destruct (keyFromStr de) as [e|] eqn:He; [|done].
  pose proof (keyFromStr_truthy _ _ Hs) as Hts.
  pose proof (keyFromStr_truthy _ _ He) as Hte.
  rewrite Hts, Hte. simpl andb.
  destruct (leb s e); [|done]. simpl andb.
  rewrite negb_orb. unfold gtb, leb.
  apply truthy_not_NaN in Hts, Hte. by destruct s, e, k.
Qed.

Lemma chart_step_month (cats sel : list string) (ds de : string) (map : list Point) (r : Fact) :
  chart_step cats sel (keyFromStr ds) (keyFromStr de) map r
  = month_step (chart_pass sel ds de) (chart_upd cats) map r.
Proof.
  unfold chart_step, month_step, chart_pass.
  destruct (matchBranch sel r); [|done]. simpl.
  by destruct (hasRange _ _ && outside _ _ _).
Qed.

Lemma chart_fold_month (cats sel : list string) (ds de : string) (rows : list Fact) :
  fold_left (chart_step cats sel (keyFromStr ds) (keyFromStr de)) rows []
  = fold_left (month_step (chart_pass sel ds de) (chart_upd cats)) rows [].
Proof.
  generalize (@nil Point). induction rows as [|r rows IH]; intros map; simpl; [done|].
  by rewrite chart_step_month, IH.
Qed.

Lemma chart_upd_meta (cats : list string) (r : Fact) (p : Point) :
  pt_Year (chart_upd cats r p) = pt_Year p ∧
  pt_Month (chart_upd cats r p) = pt_Month p ∧
  pt_month (chart_upd cats r p) = pt_month p.
Proof. unfold chart_upd. by destruct (includes cats (Category r)). Qed.

Lemma chart_upd_keys (cats : list string) (r : Fact) (p : Point) (c : string) :
  is_Some (pt_vals (chart_upd cats r p) !! c) →
  is_Some (pt_vals p !! c) ∨ (Category r = c ∧ c ∈ cats).
Proof.
  unfold chart_upd, includes. case_bool_decide as Hin; [|by left]. simpl.
  destruct (decide (Category r = c)) as [<-|Hne]; [by right|].
  rewrite lookup_insert_ne by done. by left.
Qed.

(** C10: in the raw value series, every month with a branch-matching fact
    inside the date window has a row, with the Year, Month and label of the
    fact; every row comes from such a fact; a category key of a row is a
    selected category carried by a matching fact of that month, so a month
    whose matching facts are all outside the selection has a row with no
    category key at all; and the rows are in ascending order of
    (Year, Month).  The facts are those of a normalized dataset. *)
Theorem chartData_rows (rows : list Fact) (selectedCategories selectedBranches : list string)
    (dateStart dateEnd : string) :
  Forall fact_ok rows →
  (∀ r, r ∈ rows → matchBranch selectedBranches r = true →
        inWindow dateStart dateEnd (ymToKey (Year r) (Month r)) = true →
        ∃ p, p ∈ chartData rows selectedCategories selectedBranches dateStart dateEnd ∧
             pt_Year p = Year r ∧ pt_Month p = Month r ∧
             pt_month p = month_label (Month r) (Year r)) ∧
  (∀ p, p ∈ chartData rows selectedCategories selectedBranches dateStart dateEnd →
        (∃ r, r ∈ rows ∧ matchBranch selectedBranches r = true ∧
              inWindow dateStart dateEnd (ymToKey (Year r) (Month r)) = true ∧
              of_month r p) ∧
        (∀ c, is_Some (pt_vals p !! c) →
              c ∈ selectedCategories ∧
              ∃ r, r ∈ rows ∧ matchBranch selectedBranches r = true ∧
                   inWindow dateStart dateEnd (ymToKey (Year r) (Month r)) = true ∧
                   of_month r p ∧ Category r = c) ∧
        ((∀ r, r ∈ rows → matchBranch selectedBranches r = true →
               inWindow dateStart dateEnd (ymToKey (Year r) (Month r)) = true →
               of_month r p → Category r ∉ selectedCategories) →
         pt_vals p = ∅)) ∧
  Sorted pt_le (chartData rows selectedCategories selectedBranches dateStart dateEnd).
Proof.
  intros Hok.
  assert (Hpass : ∀ r, r ∈ rows →
    chart_pass selectedBranches dateStart dateEnd r = true
    ↔ matchBranch selectedBranches r = true ∧
      inWindow dateStart dateEnd (ymToKey (Year r) (Month r)) = true).
  { intros r Hr. unfold chart_pass. rewrite chart_window, andb_true_iff; [done|].
    apply fact_ok_key. by eapply Forall_forall in Hok. }
  assert (Hout : ∀ p,
    p ∈ chartData rows selectedCategories selectedBranches dateStart dateEnd
    ↔ p ∈ fold_left (month_step (chart_pass selectedBranches dateStart dateEnd)
                       (chart_upd selectedCategories)) rows []).
  { intros p. unfold chartData. destruct rows as [|r0 rows']; [done|].
    by rewrite elem_of_sort_by, chart_fold_month. }
  destruct (month_fold_cover (chart_pass selectedBranches dateStart dateEnd)
              (chart_upd selectedCategories)
              (λ r c, Category r = c ∧ c ∈ selectedCategories)
              (chart_upd_meta selectedCategories)
              (chart_upd_keys selectedCategories) rows) as (I1 & I2 & I3).
  assert (Hkeys : ∀ p c,
    p ∈ chartData rows selectedCategories selectedBranches dateStart dateEnd →
    is_Some (pt_vals p !! c) →
    c ∈ selectedCategories ∧
    ∃ r, r ∈ rows ∧ matchBranch selectedBranches r = true ∧
         inWindow dateStart dateEnd (ymToKey (Year r) (Month r)) = true ∧
         of_month r p ∧ Category r = c).
  { intros p c Hp Hc. apply Hout in Hp.
    destruct (I3 p c Hp Hc) as (r & Hr & Hpr & Hof & Hcat & Hsel).
    split; [done|]. exists r. apply Hpass in Hpr as [? ?]; done. }
  split; [|split].
  - intros r Hr Hm Hw.
    destruct (I1 r Hr) as (p & Hp & [[HY HM] Hl]); [apply Hpass; done|].
    exists p. by rewrite Hout.
  - intros p Hp. split; [|split].
    + apply Hout in Hp. destruct (I2 p Hp) as (r & Hr & Hpr & [Hof _]).
      exists r. apply Hpass in Hpr as [? ?]; done.
    + intros c. by apply Hkeys.
    + intros Hnone. apply map_eq. intros c. rewrite lookup_empty.
      destruct (pt_vals p !! c) as [v|] eqn:Hv; [exfalso|done].
      destruct (Hkeys p c Hp) as (Hsel & r & Hr & Hm & Hw & Hof & <-); [by eexists|].
      by apply (Hnone r).
  - unfold chartData. destruct rows as [|r0 rows']; [constructor|].
    apply (sort_by_sorted byYearMonth pt_le pt_ok byYearMonth_gt byYearMonth_le).
    apply Forall_forall. intros p Hp. rewrite chart_fold_month in Hp.
    destruct (I2 p Hp) as (r & Hr & _ & [[HY HM] _]).
    eapply Forall_forall in Hok; [|exact Hr]. unfold pt_ok. rewrite HY, HM.
    split; [by apply fact_ok_year | by apply fact_ok_month_finite].
Qed.

Lemma sample_rows_ok : Forall fact_ok sample_rows.
Proof. repeat constructor; compute_done. Qed.

Lemma chartData_rows_witness :
  (∀ r, r ∈ sample_rows → matchBranch [ALL] r = true →
        inWindow "" "" (ymToKey (Year r) (Month r)) = true →
        ∃ p, p ∈ chartData sample_rows ["Total"] [ALL] "" "" ∧
             pt_Year p = Year r ∧ pt_Month p = Month r ∧
             pt_month p = month_label (Month r) (Year r)) ∧
  (∀ p, p ∈ chartData sample_rows ["Total"] [ALL] "" "" →
        (∃ r, r ∈ sample_rows ∧ matchBranch [ALL] r = true ∧
              inWindow "" "" (ymToKey (Year r) (Month r)) = true ∧
              of_month r p) ∧
        (∀ c, is_Some (pt_vals p !! c) →
              c ∈ ["Total"] ∧
              ∃ r, r ∈ sample_rows ∧ matchBranch [ALL] r = true ∧
                   inWindow "" "" (ymToKey (Year r) (Month r)) = true ∧
                   of_month r p ∧ Category r = c) ∧
        ((∀ r, r ∈ sample_rows → matchBranch [ALL] r = true →
               inWindow "" "" (ymToKey (Year r) (Month r)) = true →
               of_month r p → Category r ∉ ["Total"]) →
         pt_vals p = ∅)) ∧
  Sorted pt_le (chartData sample_rows ["Total"] [ALL] "" "").
Proof. exact (chartData_rows sample_rows ["Total"] [ALL] "" "" sample_rows_ok). Defined.

(** the month of December 2022 has only a Parts fact: with Total selected
    its row has no category key; January 2023 sums both branches *)
Example chartData_sample :
  chartData sample_rows ["Total"] [ALL] "" ""
  = [ {| pt_Year := ofZ 2022; pt_Month := ofZ 12; pt_month := "Dec 2022";
         pt_vals := ∅ |};
      {| pt_Year := ofZ 2023; pt_Month := ofZ 1; pt_month := "Jan 2023";
         pt_vals := {[ "Total" := Some (ofZ 150) ]} |} ].
Proof. compute_done. Qed.

(** ** The monthly aggregate and the display clip *)

Lemma agg_fold_month (sel : list string) (rows : list Fact) :
  fold_left (agg_step sel) rows []
  = fold_left (month_step (matchBranch sel) agg_upd) rows [].
Proof.
  generalize (@nil Point). induction rows as [|r rows IH]; intros map; simpl; [done|].
  rewrite IH. f_equal. unfold agg_step, month_step. by destruct (matchBranch sel r).
Qed.







(** the window 2023-11 .. 2024-11 keeps the last two months of the sample *)
Example rolling_clip_sample :
  length (r12Data sample_aggregate ["Total"] "" "") = 24%nat ∧
  pt_month <$> r12Data sample_aggregate ["Total"] "2023-11" "2024-11"
  = ["Nov 2023"; "Dec 2023"] ∧
  length (r12Data sample_aggregate ["Total"] "2024-11" "2023-11") = 24%nat ∧
  length (r12Data sample_aggregate ["Total"] "2023-11" "soon") = 24%nat.
Proof. repeat split; compute_done. Qed.

(** ** Branch summary *)

Lemma zeros_lookup (cats : list string) (c : string) :
  c ∈ cats → zeros cats !! c = Some zero.
Proof.
  unfold zeros. induction cats as [|c' cats IH]; [by intros ?%elem_of_nil|].
  intros Hc. rewrite fmap_cons, list_to_map_cons. simpl.
  destruct (decide (c' = c)) as [->|Hne]; [apply lookup_insert_eq|].
  rewrite lookup_insert_ne by done. apply IH.
  apply elem_of_cons in Hc as [->|Hc]; done.
Qed.

Lemma prop_plus_at_eq (k : string) (v : num) (obj : gmap string num) :
  prop (plus_at k v obj) k = add (prop obj k) v.
Proof. unfold prop at 1, plus_at. by rewrite lookup_insert_eq. Qed.

Lemma prop_plus_at_ne (k k' : string) (v : num) (obj : gmap string num) :
  k ≠ k' → prop (plus_at k v obj) k' = prop obj k'.
Proof. intros Hne. unfold prop, plus_at. by rewrite lookup_insert_ne. Qed.

(** what an upsert does to a sum over the entries *)
Lemma upsert_sum {A} (is_key : A → bool) (init : A) (f : A → A) (g : A → num)
    (v : num) (map : list A) :
  (∀ e, g (f e) = add (g e) v) → g init = zero →
  sum_num (g <$> upsert is_key init f map) = add (sum_num (g <$> map)) v.
Proof.
  intros Hf Hinit. induction map as [|p map IH]; csimpl.
  - by rewrite Hf, Hinit, add_zero_r.
  - destruct (is_key p); csimpl.
    + rewrite Hf. by rewrite <- !add_assoc, (add_comm v).
    + by rewrite IH, add_assoc.
Qed.

Lemma upsert_sum_same {A} (is_key : A → bool) (init : A) (f : A → A) (g : A → num)
    (map : list A) :
  (∀ e, g (f e) = g e) → g init = zero →
  sum_num (g <$> upsert is_key init f map) = sum_num (g <$> map).
Proof.
  intros Hf Hinit. induction map as [|p map IH]; csimpl.
  - by rewrite Hf, Hinit, add_zero_r.
  - destruct (is_key p); csimpl; [by rewrite Hf | by rewrite IH].
Qed.

Lemma summary_step_skip (cats sel : list string) (ds de : string)
    (st : summary_state) (r : Fact) :
  summary_pass cats sel ds de r = false →
  summary_step cats sel (keyFromStr ds) (keyFromStr de) st r = st.
Proof.
  unfold summary_pass, summary_step.
  destruct (matchBranch sel r); [|done]. simpl.
  destruct (hasRange _ _ && outside _ _ _); [done|]. simpl. by intros ->.
Qed.

Lemma summary_step_take (cats sel : list string) (ds de : string)
    (st : summary_state) (r : Fact) :
  summary_pass cats sel ds de r = true →
  summary_step cats sel (keyFromStr ds) (keyFromStr de) st r
  = {| byBranch :=
         upsert (λ e, String.eqb e.1 (branch_bucket r))
           (branch_bucket r, <["__total" := zero]> (zeros cats))
           (λ e, (e.1, plus_at "__total" (or_else (Value r) zero)
                         (plus_at (Category r) (or_else (Value r) zero) e.2)))
           (byBranch st);
       totals := plus_at (Category r) (or_else (Value r) zero) (totals st);
       grand := add (grand st) (or_else (Value r) zero) |}.
Proof.
  unfold summary_pass, summary_step.
  destruct (matchBranch sel r); [|done]. simpl.
  destruct (hasRange _ _ && outside _ _ _); [done|]. simpl. by intros ->.
Qed.

Lemma summary_fold_inv (cats sel : list string) (ds de : string) (rows : list Fact) :
  "__total" ∉ cats →
  let st := fold_left (summary_step cats sel (keyFromStr ds) (keyFromStr de)) rows
              {| byBranch := []; totals := zeros cats; grand := zero |} in
  grand st
  = sum_num ((λ r, or_else (Value r) zero) <$> List.filter (summary_pass cats sel ds de) rows) ∧
  sum_num (column "__total" (byBranch st)) = grand st ∧
  ∀ c, c ∈ cats → totals st !! c = Some (sum_num (column c (byBranch st))).
Proof.
  intros Hres. induction rows as [|r rows (J1 & J2 & J3)] using rev_ind.
  { simpl. repeat split. intros c Hc. by apply zeros_lookup. }
  rewrite fold_left_app. simpl.
  set (st := fold_left _ rows _) in *.
  rewrite List.filter_app. simpl.
  destruct (summary_pass cats sel ds de r) eqn:Hp.
  - rewrite summary_step_take by done. simpl.
    assert (Hcat : Category r ∈ cats).
    { unfold summary_pass, includes in Hp.
      apply andb_true_iff in Hp as [_ Hp]. by apply bool_decide_eq_true in Hp. }
    assert (Hne : Category r ≠ "__total") by (intros Heq; by rewrite Heq in Hcat).
    split; [|split].
    + rewrite fmap_app, sum_num_app, <- J1. simpl. by rewrite add_zero_r.
    + unfold column. rewrite upsert_sum with (v := or_else (Value r) zero).
      * by rewrite <- J2.
      * intros e. simpl. rewrite prop_plus_at_eq. by rewrite prop_plus_at_ne.
      * simpl. unfold prop. by rewrite lookup_insert_eq.
    + intros c Hc. unfold column.
      destruct (decide (Category r = c)) as [<-|Hcc].
      * rewrite upsert_sum with (v := or_else (Value r) zero).
        -- unfold plus_at. rewrite lookup_insert_eq. unfold prop at 1.
           by rewrite (J3 _ Hcat).
        -- intros e. simpl. rewrite prop_plus_at_ne by done. apply prop_plus_at_eq.
        -- simpl. unfold prop. rewrite lookup_insert_ne by done.
           by rewrite zeros_lookup.
      * rewrite upsert_sum_same.
        -- unfold plus_at. rewrite lookup_insert_ne by done. by apply J3.
        -- intros e. simpl. rewrite prop_plus_at_ne; [by apply prop_plus_at_ne|].
           intros Heq. by rewrite <- Heq in Hc.
        -- simpl. unfold prop. rewrite lookup_insert_ne.
           ++ by rewrite zeros_lookup.
           ++ intros Heq. by rewrite <- Heq in Hc.
  - rewrite summary_step_skip by done. rewrite app_nil_r. done.
Qed.

Lemma or_else_value (r : Fact) : fact_ok r → or_else (Value r) zero = Value r.
Proof.
  intros (_ & _ & _ & Hv). unfold or_else.
  destruct (Value r) as [| | |q]; try done. simpl.
  case_bool_decide as Hq; simpl; [|done]. subst q. unfold zero, ofZ.
  by rewrite Qc_of_Z_0.
Qed.

Lemma summary_values (cats sel : list string) (ds de : string) (rows : list Fact) :
  Forall fact_ok rows →
  (λ r, or_else (Value r) zero) <$> List.filter (summary_pass cats sel ds de) rows
  = Value <$> List.filter (summary_fact cats sel ds de) rows.
Proof.
  induction 1 as [|r rows Hr _ IH]; cbn [List.filter]; [done|].
  assert (Heq : summary_pass cats sel ds de r = summary_fact cats sel ds de r).
  { unfold summary_pass, summary_fact. rewrite chart_window; [done|]. by apply fact_ok_key. }
  rewrite Heq. destruct (summary_fact cats sel ds de r); [|done].
  rewrite !fmap_cons. by rewrite IH, or_else_value.
Qed.

(** whole values add up to a whole number *)
Lemma exact_values_sample : exact_values sample_rows.
Proof. exists [100; 50; 7]. split; [done|]. vm_compute. discriminate. Qed.

(** C8, as amended: for every non-empty list of normalized facts, every
    branch selection and date window, and every non-empty list of selected
    categories that does not use the reserved key [__total], the grand total
    [totals.__total] is the sum of Value over the facts that pass the branch
    filter, lie inside the window and belong to a selected category, added
    up in the order of the data.  When the values are whole numbers the
    absolute values of which add up to at most 2^53, so that no addition of
    doubles rounds, it is also the sum of the row totals, and each
    per-category grand total is the sum of that category's column over the
    rows.  (With fractional values the two groupings of the same additions
    can differ in the last bits, which the exact numbers of the model do not
    show.) *)
Theorem branchSummary_conservation (collate : string → string → num)
    (rows : list Fact) (selectedCategories selectedBranches : list string)
    (dateStart dateEnd : string) :
  rows ≠ [] → selectedCategories ≠ [] → "__total" ∉ selectedCategories →
  Forall fact_ok rows →
  sm_totals (branchSummary collate rows selectedCategories selectedBranches dateStart dateEnd)
    !! "__total"
  = Some (fold_left add
            (Value <$> List.filter
               (summary_fact selectedCategories selectedBranches dateStart dateEnd) rows)
            zero) ∧
  (exact_values rows →
   sum_num (column "__total"
              (sm_rows (branchSummary collate rows selectedCategories selectedBranches
                          dateStart dateEnd)))
   = fold_left add
       (Value <$> List.filter
          (summary_fact selectedCategories selectedBranches dateStart dateEnd) rows)
       zero ∧
   ∀ c, c ∈ selectedCategories →
        sm_totals (branchSummary collate rows selectedCategories selectedBranches
                     dateStart dateEnd) !! c
        = Some (sum_num (column c
                  (sm_rows (branchSummary collate rows selectedCategories selectedBranches
                              dateStart dateEnd))))).
Proof.
  intros Hrows Hcats Hres Hok.
  destruct (summary_fold_inv selectedCategories selectedBranches dateStart dateEnd rows Hres)
    as (J1 & J2 & J3).
  rewrite summary_values in J1 by done.
  rewrite fold_left_add, add_zero_l.
  unfold branchSummary. destruct rows as [|r0 rows']; [done|].
  destruct selectedCategories as [|c0 cats']; [done|].
  set (rows := r0 :: rows') in *. set (cats := c0 :: cats') in *.
  cbn [sm_rows sm_totals].
  assert (Hcol : ∀ c l,
    sum_num (column c (sort_by (λ a b, collate a.1 b.1) l)) = sum_num (column c l)).
  { intros c l. apply sum_num_perm. unfold column. by rewrite sort_by_perm. }
  split; [|intros _; split].
  - rewrite lookup_insert_eq. by rewrite J1.
  - by rewrite Hcol, J2, J1.
  - intros c Hc. rewrite Hcol. rewrite lookup_insert_ne; [by apply J3|].
    intros <-. done.
Qed.

Lemma branchSummary_conservation_witness :
  sm_totals (branchSummary collate_codes sample_rows ["Total"; "Parts"] [ALL] "" "")
    !! "__total"
  = Some (fold_left add
            (Value <$> List.filter (summary_fact ["Total"; "Parts"] [ALL] "" "") sample_rows)
            zero) ∧
  sum_num (column "__total"
             (sm_rows (branchSummary collate_codes sample_rows ["Total"; "Parts"] [ALL] "" "")))
  = fold_left add
      (Value <$> List.filter (summary_fact ["Total"; "Parts"] [ALL] "" "") sample_rows)
      zero ∧
  ∀ c, c ∈ ["Total"; "Parts"] →
       sm_totals (branchSummary collate_codes sample_rows ["Total"; "Parts"] [ALL] "" "") !! c
       = Some (sum_num (column c
                 (sm_rows (branchSummary collate_codes sample_rows ["Total"; "Parts"]
                             [ALL] "" "")))).
Proof.
  destruct (branchSummary_conservation collate_codes sample_rows ["Total"; "Parts"]
              [ALL] "" "") as [H1 H2].
  - discriminate.
  - discriminate.
  - compute_done.
  - exact sample_rows_ok.
  - split; [exact H1|]. apply H2. exact exact_values_sample.
Defined.

(** the summary of the sample: three branches, a grand total of 157 *)
Example branchSummary_sample :
  (λ e, (e.1, prop e.2 "Total", prop e.2 "Parts", prop e.2 "__total"))
    <$> sm_rows (branchSummary collate_codes sample_rows ["Total"; "Parts"] [ALL] "" "")
  = [ ("(Blank)", zero, ofZ 7, ofZ 7);
      ("A", ofZ 100, zero, ofZ 100);
      ("B", ofZ 50, zero, ofZ 50) ] ∧
  sm_totals (branchSummary collate_codes sample_rows ["Total"; "Parts"] [ALL] "" "")
  = {[ "Total" := ofZ 150; "Parts" := ofZ 7; "__total" := ofZ 157 ]}.
Proof. split; compute_done. Qed.

(** C8, the counterexample: for the empty fact list the summary is
    [{ rows: [], totals: {} }]; there is no grand total, while the sum over
    the matching facts is 0.  (And a selected category named [__total]
    shares its key with the row total: the row total of one fact of value 5
    is 10, the grand total 5.) *)
Lemma branchSummary_empty_facts :
  sm_totals (branchSummary collate_codes [] ["Total"] [ALL] "" "") !! "__total" = None ∧
  sum_num (Value <$> List.filter (summary_fact ["Total"] [ALL] "" "") []) = zero ∧
  sum_num (column "__total"
     (sm_rows (branchSummary collate_codes
        [ {| Year := ofZ 2023; Month := ofZ 1; Category := "__total"; Value := ofZ 5;
             Branch := Some "A" |} ] ["__total"] [ALL] "" ""))) = ofZ 10 ∧
  sm_totals (branchSummary collate_codes
        [ {| Year := ofZ 2023; Month := ofZ 1; Category := "__total"; Value := ofZ 5;
             Branch := Some "A" |} ] ["__total"] [ALL] "" "") !! "__total" = Some (ofZ 5).
Proof. repeat split; compute_done. Qed.

Section UpsertKey.
Context {A K : Type} `{EqDecision K} (key : A → K) (k : K).
Context (is_key : A → bool) (init : A) (f : A → A).
Context (is_key_spec : ∀ p, is_key p = bool_decide (key p = k)).
Context (key_f : ∀ p, key (f p) = key p) (key_init : key init = k).



Lemma upsert_keys (map : list A) :
  key <$> upsert is_key init f map
  = if bool_decide (k ∈ key <$> map) then key <$> map else (key <$> map) ++ [k].
Proof.
  induction map as [|p map IH]; csimpl.
  - by rewrite key_f, key_init.
  - rewrite is_key_spec. destruct (decide (key p = k)) as [Hp|Hp].
    + rewrite !bool_decide_eq_true_2; [|rewrite Hp; apply list_elem_of_here|done].
      csimpl. by rewrite key_f.
    + rewrite (bool_decide_eq_false_2 (key p = k)) by done. csimpl. rewrite IH.
      destruct (decide (k ∈ key <$> map)) as [Hin|Hin].
      * rewrite !bool_decide_eq_true_2; [done | by apply list_elem_of_further | done].
      * rewrite !bool_decide_eq_false_2; [done | | done].
        intros [?|?]%elem_of_cons; congruence.
Qed.

Lemma upsert_NoDup (map : list A) :
  NoDup (key <$> map) → NoDup (key <$> upsert is_key init f map).
Proof.
  intros Hnd. rewrite upsert_keys. case_bool_decide as Hin; [done|].
  apply NoDup_app. split; [done|]. split; [|apply NoDup_singleton].
  intros x Hx ->%list_elem_of_singleton. done.
Qed.

End UpsertKey.



Lemma same_month_ym (y m : num) (p : Point) :
  same_month y m p = bool_decide (pt_ym p = (y, m)).
Proof.
  unfold same_month, pt_ym. apply eq_true_iff_eq.
  rewrite andb_true_iff, !bool_decide_eq_true. split; [by intros [-> ->] | by intros [= -> ->]].
Qed.




Section MonthSum.
Context (pass take : Fact → bool) (amount : Fact → num).

Lemma sum_upd_meta (r : Fact) (p : Point) :
  pt_Year (sum_upd take amount r p) = pt_Year p ∧
  pt_Month (sum_upd take amount r p) = pt_Month p ∧
  pt_month (sum_upd take amount r p) = pt_month p.
Proof. unfold sum_upd. by destruct (take r). Qed.

Lemma sum_upd_ym (r : Fact) (p : Point) : pt_ym (sum_upd take amount r p) = pt_ym p.
Proof. unfold sum_upd. by destruct (take r). Qed.

Lemma month_fold_NoDup (rows : list Fact) :
  NoDup (pt_ym <$> fold_left (month_step pass (sum_upd take amount)) rows []).
Proof.
  induction rows as [|r rows IH] using rev_ind; [constructor|].
  rewrite fold_left_app. simpl. unfold month_step at 1.
  destruct (pass r); [|done].
  apply (upsert_NoDup pt_ym (Year r, Month r)); try done.
  - intros p. apply same_month_ym.
  - apply sum_upd_ym.
Qed.


End MonthSum.

Lemma chartData_fold (rows : list Fact) (cats sel : list string) (ds de : string) :
  chartData rows cats sel ds de
  = sort_by byYearMonth
      (fold_left (month_step (chart_pass sel ds de)
                    (sum_upd (λ r, includes cats (Category r)) Value)) rows []).
Proof.
  unfold chartData. destruct rows as [|r rows]; [done|]. by rewrite chart_fold_month.
Qed.

Lemma monthlyAgg_fold (rows : list Fact) (sel : list string) :
  monthlyAggAllMonths rows sel
  = sort_by byYearMonth
      (fold_left (month_step (matchBranch sel)
                    (sum_upd (λ _, true) (λ r, or_else (Value r) zero))) rows []).
Proof.
  unfold monthlyAggAllMonths. destruct rows as [|r rows]; [done|].
  by rewrite agg_fold_month.
Qed.


(** X1: the raw value series and the monthly aggregate hold at most one row
    per month: no (Year, Month) pair occurs twice. *)
Theorem series_one_row_per_month (rows : list Fact)
    (selectedCategories selectedBranches : list string) (dateStart dateEnd : string) :
  NoDup (pt_ym <$> chartData rows selectedCategories selectedBranches dateStart dateEnd) ∧
  NoDup (pt_ym <$> monthlyAggAllMonths rows selectedBranches).
Proof.
  rewrite chartData_fold, monthlyAgg_fold, !sort_by_perm.
  split; apply month_fold_NoDup.
Qed.




(** X3: every row of the monthly aggregate of a normalized dataset carries
    the Year, the Month and the label of a branch-matching fact, and the
    rows are in ascending order of (Year, Month). *)
Theorem monthlyAgg_rows (rows : list Fact) (selectedBranches : list string) :
  Forall fact_ok rows →
  (∀ p, p ∈ monthlyAggAllMonths rows selectedBranches →
        ∃ r, r ∈ rows ∧ matchBranch selectedBranches r = true ∧ of_month r p ∧
             pt_month p = month_label (Month r) (Year r)) ∧
  Sorted pt_le (monthlyAggAllMonths rows selectedBranches).
Proof.
  intros Hok.
  destruct (month_fold_cover (matchBranch selectedBranches) agg_upd (λ _ _, True)
              (λ _ _, ltac:(done)) (λ _ _ _ _, or_intror I) rows) as (_ & I2 & _).
  assert (Hout : ∀ p, p ∈ monthlyAggAllMonths rows selectedBranches →
    ∃ r, r ∈ rows ∧ matchBranch selectedBranches r = true ∧ labelled r p).
  { intros p. unfold monthlyAggAllMonths. destruct rows as [|r0 rows'];
      [by intros ?%elem_of_nil|].
    rewrite elem_of_sort_by, agg_fold_month. apply I2. }
  split.
  - intros p Hp. destruct (Hout p Hp) as (r & Hr & Hm & Hof & Hl). by exists r.
  - unfold monthlyAggAllMonths. destruct rows as [|r0 rows']; [constructor|].
    apply (sort_by_sorted byYearMonth pt_le pt_ok byYearMonth_gt byYearMonth_le).
    apply Forall_forall. intros p Hp. rewrite agg_fold_month in Hp.
    destruct (I2 p Hp) as (r & Hr & _ & [[HY HM] _]).
    eapply Forall_forall in Hok; [|exact Hr]. unfold pt_ok. rewrite HY, HM.
    split; [by apply fact_ok_year | by apply fact_ok_month_finite].
Qed.

Lemma monthlyAgg_rows_witness :
  (∀ p, p ∈ monthlyAggAllMonths sample_rows ["A"] →
        ∃ r, r ∈ sample_rows ∧ matchBranch ["A"] r = true ∧ of_month r p ∧
             pt_month p = month_label (Month r) (Year r)) ∧
  Sorted pt_le (monthlyAggAllMonths sample_rows ["A"]).
Proof. exact (monthlyAgg_rows sample_rows ["A"] sample_rows_ok). Defined.



Section Distinct.
Context {A : Type} `{EqDecision A}.

Lemma distinct_acc (l acc : list A) :
  NoDup acc →
  let out := fold_left (λ seen x, if bool_decide (x ∈ seen) then seen else seen ++ [x]) l acc in
  NoDup out ∧ (∀ x, x ∈ out ↔ x ∈ acc ∨ x ∈ l) ∧ ∃ t, out = acc ++ t.
Proof.
  revert acc. induction l as [|y l IH]; intros acc Hacc; simpl.
  - split; [done|]. split; [|exists []; by rewrite app_nil_r].
    intros x. rewrite elem_of_nil. tauto.
  - case_bool_decide as Hy.
    + destruct (IH acc Hacc) as (H1 & H2 & H3). split; [done|]. split; [|done].
      intros x. rewrite H2, elem_of_cons. split; [tauto|].
      intros [?|[->|?]]; tauto.
    + destruct (IH (acc ++ [y])) as (H1 & H2 & t & H3).
      { apply NoDup_app. split; [done|]. split; [|apply NoDup_singleton].
        by intros x Hx ->%list_elem_of_singleton. }
      split; [done|]. split.
      * intros x. rewrite H2, elem_of_app, list_elem_of_singleton, elem_of_cons. tauto.
      * exists (y :: t). rewrite H3. by rewrite <- app_assoc.
Qed.

Lemma NoDup_distinct (l : list A) : NoDup (distinct l).
Proof. apply (distinct_acc l []). constructor. Qed.

Lemma elem_of_distinct (l : list A) (x : A) : x ∈ distinct l ↔ x ∈ l.
Proof.
  destruct (distinct_acc l [] (NoDup_nil_2)) as (_ & H & _).
  unfold distinct. rewrite H, elem_of_nil. tauto.
Qed.

End Distinct.

Lemma includes_true (l : list string) (x : string) : includes l x = true ↔ x ∈ l.
Proof. unfold includes. apply bool_decide_eq_true. Qed.

Lemma includes_false (l : list string) (x : string) : includes l x = false ↔ x ∉ l.
Proof. unfold includes. apply bool_decide_eq_false. Qed.

Lemma elem_of_filter_list {A : Type} (f : A → bool) (l : list A) (x : A) :
  x ∈ List.filter f l ↔ x ∈ l ∧ f x = true.
Proof. rewrite !list_elem_of_In. apply filter_In. Qed.

Lemma NoDup_filter_list {A : Type} (f : A → bool) (l : list A) :
  NoDup l → NoDup (List.filter f l).
Proof.
  induction 1 as [|x l Hx Hl IH]; simpl; [constructor|].
  destruct (f x); [|done]. constructor; [|done]. rewrite elem_of_filter_list. tauto.
Qed.

Lemma eqb_string_false (a b : string) : negb (String.eqb a b) = true ↔ a ≠ b.
Proof. rewrite negb_true_iff. apply String.eqb_neq. Qed.

(** ** Branch selection *)

Lemma selection_ok_filter (f : string → bool) (sel : list string) :
  ALL ∉ sel →
  selection_ok match List.filter f sel with [] => [ALL] | x :: t => x :: t end.
Proof.
  intros Hall. destruct (List.filter f sel) as [|x t] eqn:Hf; [by left|].
  right. split; [done|]. rewrite <- Hf. rewrite elem_of_filter_list. tauto.
Qed.

Lemma selection_ok_ALL (sel : list string) :
  selection_ok sel → ALL ∈ sel → sel = [ALL].
Proof. intros [->|[_ Hn]] Hin; done. Qed.

(** X5: whatever the selection was, [hydrateFromParsed] leaves a branch
    selection in order: the whole company, or a list that is not empty,
    made of previously selected branches that the dataset has; a selection
    of known branches is kept as it is. *)
Theorem hydrate_branches_spec (parsed : list Fact) (prev : list string) :
  selection_ok (hydrate_branches (dataset_branches parsed) prev) ∧
  (∀ b, b ∈ hydrate_branches (dataset_branches parsed) prev →
        b = ALL ∨ (b ∈ prev ∧ b ≠ "" ∧ ∃ r, r ∈ parsed ∧ Branch r = Some b)) ∧
  (prev ≠ [] → ALL ∉ prev → (∀ b, b ∈ prev → b ∈ dataset_branches parsed) →
   hydrate_branches (dataset_branches parsed) prev = prev).
Proof.
  unfold hydrate_branches. destruct prev as [|b0 prev'].
  { split; [by left|]. split; [|done]. intros b ->%list_elem_of_singleton. by left. }
  set (prev := b0 :: prev'). destruct (includes prev ALL) eqn:Hall.
  { split; [by left|]. split.
    - intros b ->%list_elem_of_singleton. by left.
    - intros _ Hn. by apply includes_true in Hall. }
  apply includes_false in Hall. split; [|split].
  - by apply selection_ok_filter.
  - intros b Hb. destruct (List.filter _ prev) as [|x t] eqn:Hf.
    { apply list_elem_of_singleton in Hb. by left. }
    right. rewrite <- Hf in Hb. apply elem_of_filter_list in Hb as [Hb Hin].
    apply includes_true in Hin. unfold dataset_branches in Hin.
    rewrite elem_of_sort_by, elem_of_distinct, elem_of_filter_list in Hin.
    destruct Hin as [Hin Hne]. apply eqb_string_false in Hne.
    apply list_elem_of_omap in Hin as (r & Hr & HB). eauto.
  - intros _ _ Hsub. rewrite forallb_filter_id; [done|].
    apply forallb_forall. intros b Hb%list_elem_of_In. apply includes_true. by apply Hsub.
Qed.

Lemma region_click_ok (name : string) (bs sel : list string) :
  bs ≠ [] → ALL ∉ bs → selection_ok sel →
  ∃ sel', region_click {| rg_name := name; rg_value := None; rg_branches := Some bs |} sel
          = Some sel' ∧ selection_ok sel'.
Proof.
  intros Hbs Hall Hsel. unfold region_click. simpl.
  destruct (forallb (includes sel) bs) eqn:Hevery.
  - assert (Hn : ALL ∉ sel).
    { intros Hin. rewrite (selection_ok_ALL sel Hsel Hin) in Hevery.
      destruct bs as [|b bs']; [done|]. simpl in Hevery.
      apply andb_true_iff in Hevery as [Hb _]. apply includes_true in Hb.
      apply list_elem_of_singleton in Hb. subst b. apply Hall, list_elem_of_here. }
    pose proof (selection_ok_filter (λ x, negb (includes bs x)) sel Hn) as Hok.
    destruct (List.filter _ sel) as [|x t]; eauto.
  - eexists. split; [done|]. right. split.
    + intros Hnil. destruct bs as [|b bs']; [done|].
      assert (Hb : b ∈ distinct (List.filter (λ x, negb (String.eqb x ALL)) sel ++ b :: bs')).
      { rewrite elem_of_distinct, elem_of_app. right. apply list_elem_of_here. }
      rewrite Hnil in Hb. by apply elem_of_nil in Hb.
    + rewrite elem_of_distinct, elem_of_app, elem_of_filter_list.
      intros [[_ Hne]|Hin]; [|done]. by apply eqb_string_false in Hne.
Qed.

(** X6: the branch list, the region buttons and the branch buttons keep the
    branch selection in order: it stays either the whole company alone or a
    list of branches that is not empty; no region button fails. *)
Theorem branch_step_keeps_selection (ev : BranchEvent) (selectedBranches : list string) :
  event_ok ev → selection_ok selectedBranches →
  ∃ sel', branch_step ev selectedBranches = Some sel' ∧ selection_ok sel'.
Proof.
  intros Hev Hsel. destruct ev as [vals|region|b]; simpl in *.
  - eexists. split; [done|]. unfold onBranchesChange.
    destruct (includes vals ALL) eqn:Hall; simpl; [by left|].
    case_bool_decide as Hlen; [by left|]. right. split.
    + intros ->. done.
    + by apply includes_false.
  - unfold regions in Hev. rewrite !elem_of_cons, elem_of_nil in Hev.
    destruct Hev as [->|[->|[->|[->|[->|[]]]]]];
      [eexists; split; [done | by left] | apply region_click_ok; try done ..];
      rewrite <- includes_false; compute_done.
  - eexists. split; [done|]. unfold branch_click.
    destruct (includes selectedBranches ALL) eqn:Hall.
    { right. split; [done|]. rewrite list_elem_of_singleton. congruence. }
    apply includes_false in Hall.
    destruct (includes selectedBranches b); [by apply selection_ok_filter|].
    right. split; [by destruct selectedBranches|].
    rewrite elem_of_app, list_elem_of_singleton. intros [?|?]; congruence.
Qed.

Lemma branch_step_keeps_selection_witness :
  ∃ sel', branch_step (RegionClick {| rg_name := "NC"; rg_value := None;
                                        rg_branches := Some ["113"; "114"; "117"; "160"] |})
            ["113"; "215"] = Some sel' ∧ selection_ok sel'.
Proof.
  apply branch_step_keeps_selection.
  - simpl. apply list_elem_of_further, list_elem_of_here.
  - right. split; [done|]. rewrite <- includes_false. compute_done.
Defined.

Lemma allCategories_acc (rows : list Fact) (acc : list string) :
  NoDup acc →
  let out :=
    fold_left
      (λ ordered row,
         let name := Category row in
         if String.eqb name "" then ordered
         else if includes DIMENSION_COLUMN_NAMES (toLowerCase (trim name)) then ordered
         else if includes ordered name then ordered
         else ordered ++ [name])
      rows acc in
  NoDup out ∧
  ∀ c, c ∈ out ↔ c ∈ acc ∨ (listable c = true ∧ ∃ r, r ∈ rows ∧ Category r = c).
Proof.
  revert acc. induction rows as [|r rows IH]; intros acc Hacc; simpl.
  { split; [done|]. intros c. split; [by left|].
    intros [?|[_ (r & Hr & _)]]; [done | by apply elem_of_nil in Hr]. }
  assert (Hskip : ∀ out,
    (NoDup out ∧ ∀ c, c ∈ out ↔ c ∈ acc ∨ (listable c = true ∧ ∃ r, r ∈ rows ∧ Category r = c)) →
    (listable (Category r) = false ∨ Category r ∈ acc) →
    NoDup out ∧
    ∀ c, c ∈ out ↔ c ∈ acc ∨ (listable c = true ∧ ∃ r', r' ∈ r :: rows ∧ Category r' = c)).
  { intros out [H1 H2] Hr. split; [done|]. intros c. rewrite H2. split.
    - intros [?|[Hl (r' & Hr' & Hc)]]; [by left|]. right. split; [done|].
      exists r'. split; [by apply list_elem_of_further | done].
    - intros [?|[Hl (r' & [->|Hr']%elem_of_cons & Hc)]]; [by left| |].
      + subst c. destruct Hr as [Hr|Hr]; [congruence | by left].
      + right. eauto. }
  destruct (String.eqb (Category r) "") eqn:He.
  { apply Hskip; [by apply IH|]. left. unfold listable. by rewrite He. }
  destruct (includes DIMENSION_COLUMN_NAMES _) eqn:Hd.
  { apply Hskip; [by apply IH|]. left. unfold listable. rewrite Hd. apply andb_false_r. }
  destruct (includes acc (Category r)) eqn:Hi.
  { apply Hskip; [by apply IH|]. right. by apply includes_true. }
  apply includes_false in Hi.
  destruct (IH (acc ++ [Category r])) as [H1 H2].
  { apply NoDup_app. split; [done|]. split; [|apply NoDup_singleton].
    by intros x Hx ->%list_elem_of_singleton. }
  split; [done|]. intros c. rewrite H2, elem_of_app, list_elem_of_singleton. split.
  - intros [[?| ->]|[Hl (r' & Hr' & Hc)]]; [by left| |].
    + right. split; [unfold listable; by rewrite He, Hd|].
      exists r. split; [apply list_elem_of_here | done].
    + right. split; [done|]. exists r'. split; [by apply list_elem_of_further | done].
  - intros [?|[Hl (r' & [->|Hr']%elem_of_cons & Hc)]]; [by left; left | by left; right |].
    right. eauto.
Qed.

(** X7: [allCategories] lists each category once, leaves out the empty name
    and the names of dimension columns, and misses no other category. *)
Theorem allCategories_spec (rows : list Fact) :
  NoDup (allCategories rows) ∧
  ∀ c, c ∈ allCategories rows
       ↔ c ≠ "" ∧ (toLowerCase (trim c) ∉ DIMENSION_COLUMN_NAMES) ∧
         (∃ r, r ∈ rows ∧ Category r = c).
Proof.
  destruct (allCategories_acc rows [] (NoDup_nil_2)) as [H1 H2].
  split; [done|]. intros c. unfold allCategories. rewrite H2, elem_of_nil.
  unfold listable. rewrite andb_true_iff, eqb_string_false, negb_true_iff, includes_false.
  tauto.
Qed.

Lemma category_columns_listable (headers : list string) (y p : string) (b : option string)
    (col : string) :
  col ∈ category_columns (List.filter (λ h, negb (String.eqb h "")) (map trim headers)) y p b →
  listable (trim col) = true ∧ trim col = col.
Proof.
  unfold category_columns. rewrite !elem_of_filter_list.
  intros [[[Hin Hne] _] Hd]. apply list_elem_of_In, in_map_iff in Hin as (h & <- & _).
  rewrite trim_idemp in Hd |- *. split; [|done]. unfold listable. rewrite trim_idemp.
  by rewrite Hd, Hne.
Qed.

(** X8: every category of the facts that [normalizeParsedRows] returns is
    in the category list: the guards of [allCategories] hide none of them. *)
Theorem allCategories_normalized (data : list record) (metaFields : option (list string))
    (parsed : list Fact) :
  normalizeParsedRows data metaFields = Returned parsed →
  ∀ f, f ∈ parsed → Category f ∈ allCategories parsed.
Proof.
  rewrite normalizeParsedRows_unfold. unfold resolve_headers at 1.
  destruct (List.filter _ _) as [|h hs] eqn:Hh; [discriminate|].
  fold (resolve_headers data metaFields) in Hh.
  destruct (resolve_columns (resolve_headers data metaFields)) as [c|] eqn:Hc; [|discriminate].
  destruct (flat_map (row_facts c) data) as [|f0 l] eqn:Hfm; [discriminate|].
  intros [= <-] f Hf.
  destruct (allCategories_acc (f0 :: l) [] (NoDup_nil_2)) as [_ H2].
  unfold allCategories. rewrite H2. right. split; [|by exists f].
  rewrite <- Hfm in Hf. apply list_elem_of_In, in_flat_map in Hf as (row & _ & Hf).
  unfold row_facts in Hf. destruct (_ && _); [|done].
  apply list_elem_of_In, list_elem_of_omap in Hf as (col & Hcol & Hcell).
  unfold cell_fact in Hcell. destruct (isNaN _); [done|]. injection Hcell as <-. simpl.
  unfold resolve_columns in Hc.
  destruct (List.find _ _) as [y|]; [|done].
  destruct (List.find (test_names period_names) _) as [p|]; [|done].
  injection Hc as <-. simpl in Hcol.
  by apply category_columns_listable in Hcol as [? _].
Qed.

Lemma allCategories_normalized_witness :
  Category {| Year := ofZ 2024; Month := ofZ 1; Category := "Parts"; Value := ofZ 1234;
              Branch := Some "A" |} ∈ allCategories sample_facts.
Proof.
  apply (allCategories_normalized sample_data None sample_facts).
  - vm_compute. reflexivity.
  - apply list_elem_of_here.
Defined.

Lemma elem_of_take_2 (l : list string) (c : string) :
  c ∈ take (Nat.min 2 (length l)) l → c ∈ l.
Proof.
  intros H. rewrite <- (take_drop (Nat.min 2 (length l)) l). apply elem_of_app. by left.
Qed.

Lemma pickDefaultCategories_spec (defaultCategory : option string) (cats : list string) :
  (∀ c, c ∈ pickDefaultCategories defaultCategory cats → c ∈ cats) ∧
  (cats ≠ [] → pickDefaultCategories defaultCategory cats ≠ []) ∧
  (length (pickDefaultCategories defaultCategory cats) ≤ 2)%nat.
Proof.
  unfold pickDefaultCategories. destruct cats as [|c0 cats']; [simpl; repeat split; done || lia|].
  set (cats := c0 :: cats'). destruct (_ && _) eqn:Hp.
  - apply andb_true_iff in Hp as [_ Hin%includes_true]. split; [|split].
    + by intros c ->%list_elem_of_singleton.
    + done.
    + simpl. lia.
  - split; [|split].
    + intros c. apply elem_of_take_2.
    + done.
    + rewrite length_take. lia.
Qed.

(** X9: the categories selected after [hydrateFromParsed] are categories
    of the dataset, and there is one as soon as the dataset has a fact; the
    previously selected ones that the dataset has are kept, in their order;
    when there is none, at most two defaults are picked. *)
Theorem hydrate_categories_spec (defaultCategory : option string) (parsed : list Fact)
    (prev : list string) :
  (∀ c, c ∈ hydrate_categories defaultCategory parsed prev →
        ∃ r, r ∈ parsed ∧ Category r = c) ∧
  (parsed ≠ [] → hydrate_categories defaultCategory parsed prev ≠ []) ∧
  ((∃ c, c ∈ prev ∧ ∃ r, r ∈ parsed ∧ Category r = c) →
   hydrate_categories defaultCategory parsed prev
   = List.filter (includes (Category <$> parsed)) prev) ∧
  ((∀ c, c ∈ prev → ∀ r, r ∈ parsed → Category r ≠ c) →
   (length (hydrate_categories defaultCategory parsed prev) ≤ 2)%nat).
Proof.
  unfold hydrate_categories. set (cats := distinct (Category <$> parsed)).
  assert (Hcats : ∀ c, c ∈ cats ↔ ∃ r, r ∈ parsed ∧ Category r = c).
  { intros c. unfold cats. rewrite elem_of_distinct, list_elem_of_fmap.
    split; intros (r & H1 & H2); eauto. }
  assert (Hfilter : List.filter (includes cats) prev
                    = List.filter (includes (Category <$> parsed)) prev).
  { apply List.filter_ext. intros c. unfold includes, cats.
    apply bool_decide_ext. apply elem_of_distinct. }
  destruct (pickDefaultCategories_spec defaultCategory cats) as (P1 & P2 & P3).
  destruct (List.filter (includes cats) prev) as [|x t] eqn:Hf.
  - split; [|split; [|split]].
    + intros c Hc. by apply Hcats, P1.
    + intros Hne. apply P2. destruct parsed as [|r parsed']; [done|].
      intros Hnil. assert (Hr : Category r ∈ cats).
      { apply Hcats. exists r. split; [apply list_elem_of_here | done]. }
      rewrite Hnil in Hr. by apply elem_of_nil in Hr.
    + intros (c & Hc & Hr). exfalso. apply Hcats in Hr.
      assert (Hin : c ∈ List.filter (includes cats) prev).
      { apply elem_of_filter_list. split; [done | by apply includes_true]. }
      rewrite Hf in Hin. by apply elem_of_nil in Hin.
    + done.
  - split; [|split; [|split]].
    + intros c Hc. rewrite <- Hf in Hc. apply elem_of_filter_list in Hc as [_ Hc].
      by apply Hcats, includes_true.
    + done.
    + done.
    + intros Hnone. exfalso.
      assert (Hx : x ∈ List.filter (includes cats) prev) by (rewrite Hf; apply list_elem_of_here).
      apply elem_of_filter_list in Hx as [Hx Hc]. apply includes_true, Hcats in Hc.
      destruct Hc as (r & Hr & Hc). by apply (Hnone x Hx r).
Qed.

(** X10: [toggleCategory] flips the membership of one category and of no
    other, keeps a selection free of repetitions, and undoes itself on a
    category that was not selected. *)
Theorem toggleCategory_spec (c : string) (prev : list string) :
  (c ∈ toggleCategory c prev ↔ c ∉ prev) ∧
  (∀ x, x ≠ c → (x ∈ toggleCategory c prev ↔ x ∈ prev)) ∧
  (NoDup prev → NoDup (toggleCategory c prev)) ∧
  (c ∉ prev → toggleCategory c (toggleCategory c prev) = prev).
Proof.
  unfold toggleCategory. destruct (includes prev c) eqn:Hc.
  - apply includes_true in Hc. split; [|split; [|split]].
    + rewrite elem_of_filter_list, eqb_string_false. tauto.
    + intros x Hx. rewrite elem_of_filter_list, eqb_string_false. tauto.
    + intros Hnd. by apply NoDup_filter_list.
    + done.
  - apply includes_false in Hc. split; [|split; [|split]].
    + rewrite elem_of_app, list_elem_of_singleton. tauto.
    + intros x Hx. rewrite elem_of_app, list_elem_of_singleton. tauto.
    + intros Hnd. apply NoDup_app. split; [done|]. split; [|apply NoDup_singleton].
      by intros x Hx ->%list_elem_of_singleton.
    + intros _. replace (includes (prev ++ [c]) c) with true.
      2:{ symmetry. apply includes_true, elem_of_app. right. apply list_elem_of_here. }
      rewrite List.filter_app. simpl. rewrite String.eqb_refl. simpl. rewrite app_nil_r.
      apply forallb_filter_id, forallb_forall. intros x Hx%list_elem_of_In.
      apply eqb_string_false. congruence.
Qed.

(** ** Years *)

Lemma sub_gt (x y : num) : x ≠ NaN → y ≠ NaN → gtb (sub x y) zero = true → leb y x = true.
Proof.
  intros Hx Hy. destruct x as [| | |a], y as [| | |b]; try done.
  rewrite gtb_sub_Fin. apply ltb_leb.
Qed.

Lemma sub_le (x y : num) : x ≠ NaN → y ≠ NaN → gtb (sub x y) zero = false → leb x y = true.
Proof.
  intros Hx Hy. destruct x as [| | |a], y as [| | |b]; try done.
  rewrite gtb_sub_Fin. by apply not_ltb_leb.
Qed.

(** X11: the year list holds each year of the data once, in ascending
    order.  The years are numbers. *)
Theorem years_spec (rows : list Fact) :
  Forall (λ r, Year r ≠ NaN) rows →
  NoDup (years rows) ∧
  (∀ y, y ∈ years rows ↔ ∃ r, r ∈ rows ∧ Year r = y) ∧
  Sorted (λ a b, leb a b = true) (years rows).
Proof.
  intros Hok. unfold years. split; [|split].
  - rewrite sort_by_perm. apply NoDup_distinct.
  - intros y. rewrite elem_of_sort_by, elem_of_distinct, list_elem_of_fmap.
    split; intros (r & H1 & H2); eauto.
  - apply (sort_by_sorted sub (λ a b, leb a b = true) (λ x, x ≠ NaN) sub_gt sub_le).
    apply Forall_forall. intros y. rewrite elem_of_distinct, list_elem_of_fmap.
    intros (r & -> & Hr). by eapply Forall_forall in Hok.
Qed.

Lemma years_spec_witness :
  NoDup (years sample_rows) ∧
  (∀ y, y ∈ years sample_rows ↔ ∃ r, r ∈ sample_rows ∧ Year r = y) ∧
  Sorted (λ a b, leb a b = true) (years sample_rows).
Proof. apply years_spec. by repeat constructor. Defined.

Lemma digit_cases (a : ascii) :
  is_Some (digit_of 10 a) →
  a ∈ ["0"; "1"; "2"; "3"; "4"; "5"; "6"; "7"; "8"; "9"]%char.
Proof.
  destruct a as [[] [] [] [] [] [] [] []]; intros [d Hd]; try discriminate Hd;
    rewrite !elem_of_cons; tauto.
Qed.

Lemma all_digits_inv (a : ascii) (s : string) :
  all_digits (String a s) = true → is_Some (digit_of 10 a) ∧ all_digits s = true.
Proof. simpl. destruct (digit_of 10 a); [eauto | done]. Qed.

Lemma digits_all (s : string) (acc : Z) (n : nat) :
  all_digits s = true →
  digits 10 s acc n = (digits_value s acc, (n + String.length s)%nat, EmptyString).
Proof.
  revert acc n. induction s as [|a s IH]; intros acc n; simpl.
  - intros _. by rewrite Nat.add_0_r.
  - destruct (digit_of 10 a) as [d|]; [|done]. intros Hs. rewrite IH by done.
    simpl. do 2 f_equal. lia.
Qed.

Lemma all_digits_space (a : ascii) : is_Some (digit_of 10 a) → Ascii.is_space a = false.
Proof.
  intros Ha%digit_cases. rewrite !elem_of_cons, elem_of_nil in Ha.
  destruct Ha as [->|[->|[->|[->|[->|[->|[->|[->|[->|[->|[]]]]]]]]]]]; reflexivity.
Qed.

Lemma trimEnd_digits (s : string) : all_digits s = true → trimEnd s = s.
Proof.
  induction s as [|a s IH]; [done|]. intros [Ha Hs]%all_digits_inv.
  simpl. rewrite IH by done. destruct s; [|done]. by rewrite all_digits_space.
Qed.

Lemma trim_digits (s : string) : all_digits s = true → trim s = s.
Proof.
  intros Hs. unfold trim. destruct s as [|a s]; [done|].
  pose proof (all_digits_inv a s Hs) as [Ha _].
  rewrite trimStart_id by by apply all_digits_space. by apply trimEnd_digits.
Qed.

Lemma has_minus_digits (s : string) : all_digits s = true → has_minus s = false.
Proof.
  induction s as [|a s IH]; [done|]. intros [Ha Hs]%all_digits_inv. simpl.
  rewrite IH by done. apply digit_cases in Ha. rewrite !elem_of_cons, elem_of_nil in Ha.
  destruct Ha as [->|[->|[->|[->|[->|[->|[->|[->|[->|[->|[]]]]]]]]]]]; reflexivity.
Qed.

Lemma unsigned_decimal_digits (a : ascii) (s : string) :
  all_digits (String a s) = true →
  unsigned_decimal (String a s) = ofZ (digits_value (String a s) 0).
Proof.
  intros Hs. unfold unsigned_decimal.
  replace (String.eqb (String a s) "Infinity") with false.
  2:{ apply all_digits_inv in Hs as [Ha%digit_cases _].
      rewrite !elem_of_cons, elem_of_nil in Ha.
      destruct Ha as [->|[->|[->|[->|[->|[->|[->|[->|[->|[->|[]]]]]]]]]]]; reflexivity. }
  rewrite digits_all by done. simpl Nat.add. cbv iota.
  unfold exponent, scale10. simpl Z.leb. cbv iota. unfold ofZ. do 2 f_equal. lia.
Qed.

(** [Number(s)] on a string of digits *)
Lemma StringToNumber_digits (s : string) :
  all_digits s = true → StringToNumber s = ofZ (digits_value s 0).
Proof.
  intros Hs. unfold StringToNumber. rewrite trim_digits by done.
  destruct s as [|a s]; [done|]. rewrite <- unsigned_decimal_digits by done.
  pose proof (all_digits_inv a s Hs) as [Ha%digit_cases Hs'].
  rewrite !elem_of_cons, elem_of_nil in Ha.
  destruct Ha as [->|[->|[->|[->|[->|[->|[->|[->|[->|[->|[]]]]]]]]]]]; try reflexivity.
  destruct s as [|b s]; [reflexivity|].
  apply all_digits_inv in Hs' as [Hb%digit_cases _].
  rewrite !elem_of_cons, elem_of_nil in Hb.
  destruct Hb as [->|[->|[->|[->|[->|[->|[->|[->|[->|[->|[]]]]]]]]]]]; reflexivity.
Qed.

Lemma string_of_uint_digits (u : Decimal.uint) :
  all_digits (NilEmpty.string_of_uint u) = true ∧
  ∀ acc, digits_value (NilEmpty.string_of_uint u) acc = uint_value u acc.
Proof.
  induction u as [|u [IH1 IH2]|u [IH1 IH2]|u [IH1 IH2]|u [IH1 IH2]|u [IH1 IH2]
                  |u [IH1 IH2]|u [IH1 IH2]|u [IH1 IH2]|u [IH1 IH2]|u [IH1 IH2]];
    (split; [done || exact IH1 | intros acc; done || apply IH2]).
Qed.

Lemma uint_value_acc (u : Decimal.uint) (acc : positive) :
  uint_value u (Z.pos acc) = Z.pos (Pos.of_uint_acc u acc).
Proof.
  revert acc. induction u as [|u IH|u IH|u IH|u IH|u IH|u IH|u IH|u IH|u IH|u IH];
    intros acc; simpl; [done|..]; rewrite <- IH; f_equal; lia.
Qed.

Lemma uint_value_0 (u : Decimal.uint) : uint_value u 0 = Z.of_N (Pos.of_uint u).
Proof.
  induction u as [|u IH|u IH|u IH|u IH|u IH|u IH|u IH|u IH|u IH|u IH]; simpl;
    [done | exact IH | apply uint_value_acc ..].
Qed.

(** the numeral of a natural number: digits only, not empty, with its value *)
Lemma Z_to_string_digits (z : Z) :
  0 ≤ z →
  all_digits (Z_to_string z) = true ∧ Z_to_string z ≠ EmptyString ∧
  digits_value (Z_to_string z) 0 = z.
Proof.
  intros Hz. unfold Z_to_string. destruct z as [|p|p]; [done| |lia].
  simpl. unfold NilZero.string_of_uint.
  pose proof (Unsigned.to_uint_nonnil p) as Hn.
  pose proof (Unsigned.of_to p) as Hv.
  destruct (string_of_uint_digits (Pos.to_uint p)) as [H1 H2].
  destruct (Pos.to_uint p) as [|u|u|u|u|u|u|u|u|u|u] eqn:Hu; [done|..];
    (split; [exact H1|]; split; [done|]; rewrite H2, uint_value_0, Hv; done).
Qed.

Lemma this_Qc_of_Z (z : Z) : this (Qc_of_Z z) = inject_Z z.
Proof. reflexivity. Qed.

Lemma NumberToString_ofZ (z : Z) : NumberToString (ofZ z) = Z_to_string z.
Proof. unfold NumberToString, ofZ. by rewrite this_Qc_of_Z. Qed.

(** [Number(String(z))] is [z], for a natural number *)
Lemma StringToNumber_Z_to_string (z : Z) : 0 ≤ z → StringToNumber (Z_to_string z) = ofZ z.
Proof.
  intros Hz. destruct (Z_to_string_digits z Hz) as (H1 & _ & H3).
  by rewrite StringToNumber_digits, H3.
Qed.

Lemma padStart2_digits (s : string) :
  all_digits s = true → s ≠ EmptyString →
  all_digits (padStart2 s) = true ∧ digits_value (padStart2 s) 0 = digits_value s 0.
Proof.
  intros Hs Hne. unfold padStart2. destruct s as [|a [|b s]]; done.
Qed.

Lemma split_minus (s t : string) :
  has_minus s = false → split "-" (s +:+ "-" +:+ t) = s :: split "-" t.
Proof.
  induction s as [|a s IH]; [done|]. simpl. intros [Ha Hs]%orb_false_iff.
  rewrite Ha. rewrite IH by done. done.
Qed.

Lemma split_digits (s : string) : all_digits s = true → split "-" s = [s].
Proof.
  intros Hs%has_minus_digits. induction s as [|a s IH]; [done|]. simpl in *.
  apply orb_false_iff in Hs as [Ha Hs]. rewrite Ha. by rewrite IH.
Qed.

(** the round trip of a month through its string *)
Lemma keyFromStr_strFromYM (y m : Z) :
  1 ≤ y → 1 ≤ m →
  keyFromStr (strFromYM (ofZ y) (ofZ m)) = Some (ymToKey (ofZ y) (ofZ m)).
Proof.
  intros Hy Hm. unfold strFromYM. rewrite !NumberToString_ofZ.
  destruct (Z_to_string_digits y) as (Y1 & Y2 & Y3); [lia|].
  destruct (Z_to_string_digits m) as (M1 & M2 & M3); [lia|].
  destruct (padStart2_digits _ M1 M2) as (P1 & P2).
  unfold keyFromStr.
  replace (String.eqb _ "") with false.
  2:{ symmetry. apply String.eqb_neq. by destruct (Z_to_string y). }
  rewrite split_minus by by apply has_minus_digits.
  rewrite split_digits by done. simpl map.
  rewrite !StringToNumber_digits by done. rewrite P2, Y3, M3, !truthy_ofZ.
  rewrite !bool_decide_eq_false_2 by lia. done.
Qed.

(** ** The order of the numbers *)

Lemma ltb_asym (a b : num) : ltb a b = true → ltb b a = false.
Proof.
  destruct a as [| | |x], b as [| | |y]; try done.
  rewrite !ltb_Fin, bool_decide_eq_true, bool_decide_eq_false.
  intros H. by apply Qcle_not_lt, Qclt_le_weak.
Qed.

Lemma ltb_antisym (a b : num) :
  a ≠ NaN → b ≠ NaN → ltb a b = false → ltb b a = false → a = b.
Proof.
  intros Ha Hb. destruct a as [| | |x], b as [| | |y]; try done.
  rewrite !ltb_Fin, !bool_decide_eq_false. intros H1%Qcnot_lt_le H2%Qcnot_lt_le.
  f_equal. by apply Qcle_antisym.
Qed.

Lemma ltb_leb_trans (a b c : num) : ltb a b = true → leb b c = true → ltb a c = true.
Proof.
  destruct a as [| | |x], b as [| | |y], c as [| | |z]; try done.
  rewrite leb_Fin, !ltb_Fin, !bool_decide_eq_true. apply Qclt_le_trans.
Qed.

Lemma leb_refl (a : num) : a ≠ NaN → leb a a = true.
Proof.
  intros Ha. destruct a as [| | |x]; try done.
  rewrite leb_Fin, bool_decide_eq_true. apply Qcle_refl.
Qed.

Lemma leb_not_ltb (a b : num) : leb a b = true → ltb b a = false.
Proof. unfold leb. destruct a, b; try done; by intros ?%negb_true_iff. Qed.

Lemma leb_trans (a b c : num) : leb a b = true → leb b c = true → leb a c = true.
Proof.
  destruct a as [| | |x], b as [| | |y], c as [| | |z]; try done.
  rewrite !leb_Fin, !bool_decide_eq_true. apply Qcle_trans.
Qed.

Lemma Math_min_le (a b : num) : leb a b = true → Math_min a b = a.
Proof.
  intros H. pose proof (leb_not_ltb a b H) as Hn. unfold Math_min.
  destruct a, b; try done; by rewrite Hn.
Qed.

Lemma Math_min_gt (a b : num) : ltb b a = true → Math_min a b = b.
Proof. intros H. unfold Math_min. destruct a, b; try done; by rewrite H. Qed.

Lemma Math_max_le (a b : num) : leb b a = true → Math_max a b = a.
Proof.
  intros H. pose proof (leb_not_ltb b a H) as Hn. unfold Math_max.
  destruct a, b; try done; by rewrite Hn.
Qed.

Lemma Math_max_lt (a b : num) : ltb a b = true → Math_max a b = b.
Proof. intros H. unfold Math_max. destruct a, b; try done; by rewrite H. Qed.

Lemma leb_not_NaN (a b : num) : leb a b = true → a ≠ NaN ∧ b ≠ NaN.
Proof. by destruct a, b. Qed.

Lemma Math_max_ge (a b : num) : leb a b = true → Math_max a b = b.
Proof.
  intros H. destruct (leb_not_NaN a b H) as [Ha Hb].
  destruct (ltb a b) eqn:Hlt; [by apply Math_max_lt|].
  rewrite (ltb_antisym a b Ha Hb Hlt (leb_not_ltb a b H)).
  apply Math_max_le. by apply leb_refl.
Qed.

Lemma no_key_Some (s : string) (k : num) : keyFromStr s = Some k → no_key (keyFromStr s) = false.
Proof. intros H. rewrite H. simpl. by rewrite (keyFromStr_truthy s k H). Qed.

Lemma no_key_None (k : option num) : k = None → no_key k = true.
Proof. by intros ->. Qed.

Lemma keyFromStr_not_NaN (s : string) (k : num) : keyFromStr s = Some k → k ≠ NaN.
Proof. intros H. by apply truthy_not_NaN, (keyFromStr_truthy s). Qed.

(** [clampYM], once the three strings read as keys *)
Lemma clampYM_keys (s minS maxS : string) (k minK maxK : num) :
  keyFromStr s = Some k → keyFromStr minS = Some minK → keyFromStr maxS = Some maxK →
  clampYM s minS maxS = if ltb k minK then minS else if gtb k maxK then maxS else s.
Proof.
  intros Hs Hmin Hmax. unfold clampYM.
  rewrite (no_key_Some _ _ Hs), (no_key_Some _ _ Hmin), (no_key_Some _ _ Hmax).
  by rewrite Hs, Hmin, Hmax.
Qed.

Lemma clampYM_key (s minS maxS : string) (k minK maxK : num) :
  keyFromStr s = Some k → keyFromStr minS = Some minK → keyFromStr maxS = Some maxK →
  leb minK maxK = true →
  keyFromStr (clampYM s minS maxS) = Some (Math_max minK (Math_min k maxK)) ∧
  leb minK (Math_max minK (Math_min k maxK)) = true ∧
  leb (Math_max minK (Math_min k maxK)) maxK = true.
Proof.
  intros Hs Hmin Hmax Hle. rewrite (clampYM_keys s minS maxS k minK maxK) by done.
  pose proof (keyFromStr_not_NaN _ _ Hs) as Nk.
  pose proof (keyFromStr_not_NaN _ _ Hmin) as Nmin.
  pose proof (keyFromStr_not_NaN _ _ Hmax) as Nmax.
  destruct (ltb k minK) eqn:H1.
  - pose proof (ltb_leb_trans _ _ _ H1 Hle) as H2.
    rewrite (Math_min_le k maxK) by by apply ltb_leb.
    rewrite (Math_max_le minK k) by by apply ltb_leb.
    split; [done|]. split; [by apply leb_refl | done].
  - unfold gtb. destruct (ltb maxK k) eqn:H2.
    + rewrite (Math_min_gt k maxK) by done. rewrite (Math_max_ge minK maxK) by done.
      split; [done|]. split; [done | by apply leb_refl].
    + rewrite (Math_min_le k maxK) by by apply not_ltb_leb.
      assert (Hk : leb minK k = true) by by apply not_ltb_leb.
      rewrite (Math_max_ge minK k) by done.
      split; [done|]. split; [done | by apply not_ltb_leb].
Qed.

(** X12: [clampYM] returns one of its three strings; it returns [s] untouched
    when a string does not read as a key; when all three do and
    min <= max, the key of the result is the key of [s] brought into
    [min, max], a month inside the bounds is left as it is, and clamping
    twice is clamping once. *)
Theorem clampYM_spec (s minS maxS : string) :
  (clampYM s minS maxS = s ∨ clampYM s minS maxS = minS ∨ clampYM s minS maxS = maxS) ∧
  (keyFromStr s = None ∨ keyFromStr minS = None ∨ keyFromStr maxS = None →
   clampYM s minS maxS = s) ∧
  (∀ k minK maxK,
     keyFromStr s = Some k → keyFromStr minS = Some minK → keyFromStr maxS = Some maxK →
     leb minK maxK = true →
     keyFromStr (clampYM s minS maxS) = Some (Math_max minK (Math_min k maxK)) ∧
     leb minK (Math_max minK (Math_min k maxK)) = true ∧
     leb (Math_max minK (Math_min k maxK)) maxK = true ∧
     (leb minK k = true → leb k maxK = true → clampYM s minS maxS = s) ∧
     clampYM (clampYM s minS maxS) minS maxS = clampYM s minS maxS).
Proof.
  split; [|split].
  - unfold clampYM. destruct (_ || _); [by left|].
    destruct (keyFromStr s) as [k|], (keyFromStr minS) as [minK|],
      (keyFromStr maxS) as [maxK|]; try by left.
    destruct (ltb k minK); [by right; left|]. destruct (gtb k maxK); [by right; right | by left].
  - unfold clampYM. intros [H|[H|H]]; rewrite (no_key_None _ H);
      by rewrite ?orb_true_r.
  - intros k minK maxK Hs Hmin Hmax Hle.
    destruct (clampYM_key s minS maxS k minK maxK Hs Hmin Hmax Hle) as (K1 & K2 & K3).
    split; [done|]. split; [done|]. split; [done|]. split.
    + intros H1 H2. rewrite (clampYM_keys s minS maxS k minK maxK) by done.
      unfold gtb. by rewrite (leb_not_ltb _ _ H1), (leb_not_ltb _ _ H2).
    + rewrite (clampYM_keys _ minS maxS _ minK maxK K1 Hmin Hmax).
      unfold gtb. by rewrite (leb_not_ltb _ _ K2), (leb_not_ltb _ _ K3).
Qed.

Lemma ordered_refl (s : string) : ordered s s.
Proof.
  intros sk ek Hs He. rewrite Hs in He. injection He as <-.
  by apply leb_refl, (keyFromStr_not_NaN s).
Qed.

(** X13: after the start month or the end month is edited, the edited end
    holds the clamped input, the user range is marked as touched, and two
    ends that read as keys are in order: the other end moves to the edited
    one when it would be passed. *)
Theorem range_change_ordered (s : string) (st : Dates) :
  (w_dateStart (onStartChange s st) = clampYM s (w_minMonthStr st) (w_maxMonthStr st) ∧
   (w_dateEnd (onStartChange s st) = w_dateEnd st ∨
    w_dateEnd (onStartChange s st) = w_dateStart (onStartChange s st)) ∧
   touched (w_userRange (onStartChange s st)) = true ∧
   ordered (w_dateStart (onStartChange s st)) (w_dateEnd (onStartChange s st))) ∧
  (w_dateEnd (onEndChange s st) = clampYM s (w_minMonthStr st) (w_maxMonthStr st) ∧
   (w_dateStart (onEndChange s st) = w_dateStart st ∨
    w_dateStart (onEndChange s st) = w_dateEnd (onEndChange s st)) ∧
   touched (w_userRange (onEndChange s st)) = true ∧
   ordered (w_dateStart (onEndChange s st)) (w_dateEnd (onEndChange s st))).
Proof.
  split.
  - unfold onStartChange. simpl.
    set (clamped := clampYM s (w_minMonthStr st) (w_maxMonthStr st)).
    split; [done|].
    destruct (keyFromStr clamped) as [sk|] eqn:Hs; simpl;
      [rewrite (keyFromStr_truthy _ _ Hs)
      | repeat split; auto; intros ? ? H; by rewrite Hs in H].
    destruct (keyFromStr (w_dateEnd st)) as [ek|] eqn:He; simpl.
    2:{ repeat split; auto. intros ? ? _ H. by rewrite He in H. }
    rewrite (keyFromStr_truthy _ _ He). simpl.
    destruct (gtb sk ek) eqn:Hgt.
    + repeat split; auto. apply ordered_refl.
    + repeat split; auto. intros sk' ek' Hs' He'.
      rewrite Hs in Hs'. rewrite He in He'. injection Hs' as <-. injection He' as <-.
      apply not_ltb_leb; [by eapply keyFromStr_not_NaN..|done].
  - unfold onEndChange. simpl.
    set (clamped := clampYM s (w_minMonthStr st) (w_maxMonthStr st)).
    split; [done|].
    destruct (keyFromStr clamped) as [ek|] eqn:He; simpl;
      [rewrite (keyFromStr_truthy _ _ He)
      | rewrite andb_false_r; repeat split; auto; intros ? ? _ H; by rewrite He in H].
    destruct (keyFromStr (w_dateStart st)) as [sk|] eqn:Hs; simpl.
    2:{ repeat split; auto. intros ? ? H. by rewrite Hs in H. }
    rewrite (keyFromStr_truthy _ _ Hs). simpl.
    destruct (ltb ek sk) eqn:Hgt.
    + repeat split; auto. apply ordered_refl.
    + repeat split; auto. intros sk' ek' Hs' He'.
      rewrite Hs in Hs'. rewrite He in He'. injection Hs' as <-. injection He' as <-.
      apply not_ltb_leb; [by eapply keyFromStr_not_NaN..|done].
Qed.

Lemma Math_min_ofZ (a b : Z) : Math_min (ofZ a) (ofZ b) = ofZ (Z.min a b).
Proof.
  change (Math_min (ofZ a) (ofZ b)) with (if ltb (ofZ b) (ofZ a) then ofZ b else ofZ a).
  rewrite ltb_ofZ. case_bool_decide; f_equal; lia.
Qed.

Lemma Math_max_ofZ (a b : Z) : Math_max (ofZ a) (ofZ b) = ofZ (Z.max a b).
Proof.
  change (Math_max (ofZ a) (ofZ b)) with (if ltb (ofZ a) (ofZ b) then ofZ b else ofZ a).
  rewrite ltb_ofZ. case_bool_decide; f_equal; lia.
Qed.

Lemma fold_min_ofZ (zs : list Z) (z0 : Z) :
  ∃ z, fold_left Math_min (ofZ <$> zs) (ofZ z0) = ofZ z ∧ z ∈ z0 :: zs ∧
       ∀ z', z' ∈ z0 :: zs → z ≤ z'.
Proof.
  revert z0. induction zs as [|a zs IH]; intros z0.
  - exists z0. split; [done|]. split; [apply list_elem_of_here|].
    intros z' ->%list_elem_of_singleton. lia.
  - rewrite fmap_cons. cbn [fold_left]. rewrite Math_min_ofZ. destruct (IH (Z.min z0 a)) as (z & Hz & Hin & Hle).
    exists z. split; [done|]. split.
    + apply elem_of_cons in Hin as [->|Hin].
      * destruct (Z.min_spec z0 a) as [[_ ->]|[_ ->]];
          [apply list_elem_of_here | apply list_elem_of_further, list_elem_of_here].
      * by do 2 apply list_elem_of_further.
    + intros z' Hz'. pose proof (Hle (Z.min z0 a) (list_elem_of_here _ _)) as Hm.
      apply elem_of_cons in Hz' as [->|[->|Hz']%elem_of_cons]; [lia | lia |].
      apply Hle. by apply list_elem_of_further.
Qed.

Lemma fold_max_ofZ (zs : list Z) (z0 : Z) :
  ∃ z, fold_left Math_max (ofZ <$> zs) (ofZ z0) = ofZ z ∧ z ∈ z0 :: zs ∧
       ∀ z', z' ∈ z0 :: zs → z' ≤ z.
Proof.
  revert z0. induction zs as [|a zs IH]; intros z0.
  - exists z0. split; [done|]. split; [apply list_elem_of_here|].
    intros z' ->%list_elem_of_singleton. lia.
  - rewrite fmap_cons. cbn [fold_left]. rewrite Math_max_ofZ. destruct (IH (Z.max z0 a)) as (z & Hz & Hin & Hle).
    exists z. split; [done|]. split.
    + apply elem_of_cons in Hin as [->|Hin].
      * destruct (Z.max_spec z0 a) as [[_ ->]|[_ ->]];
          [apply list_elem_of_further, list_elem_of_here | apply list_elem_of_here].
      * by do 2 apply list_elem_of_further.
    + intros z' Hz'. pose proof (Hle (Z.max z0 a) (list_elem_of_here _ _)) as Hm.
      apply elem_of_cons in Hz' as [->|[->|Hz']%elem_of_cons]; [lia | lia |].
      apply Hle. by apply list_elem_of_further.
Qed.

Lemma Math_min_list_ofZ (zs : list Z) :
  zs ≠ [] →
  ∃ z, Math_min_list (ofZ <$> zs) = ofZ z ∧ z ∈ zs ∧ ∀ z', z' ∈ zs → z ≤ z'.
Proof.
  destruct zs as [|z0 zs]; [done|]. intros _. unfold Math_min_list.
  rewrite fmap_cons. cbn [fold_left].
  change (Math_min PInf (ofZ z0)) with (ofZ z0). apply fold_min_ofZ.
Qed.

Lemma Math_max_list_ofZ (zs : list Z) :
  zs ≠ [] →
  ∃ z, Math_max_list (ofZ <$> zs) = ofZ z ∧ z ∈ zs ∧ ∀ z', z' ∈ zs → z' ≤ z.
Proof.
  destruct zs as [|z0 zs]; [done|]. intros _. unfold Math_max_list.
  rewrite fmap_cons. cbn [fold_left].
  change (Math_max NInf (ofZ z0)) with (ofZ z0). apply fold_max_ofZ.
Qed.

(** the month keys of calendar facts are whole numbers [y * 100 + m] *)
Lemma calendar_keys (parsed : list Fact) :
  Forall calendar_fact parsed →
  ∃ zs, (λ r, ymToKey (Year r) (Month r)) <$> parsed = ofZ <$> zs ∧
        length zs = length parsed ∧
        ∀ z, z ∈ zs → ∃ y m, z = y * 100 + m ∧ 1 ≤ y ∧ 1 ≤ m ≤ 12.
Proof.
  induction 1 as [|r parsed (y & m & HY & HM & [Hy _] & Hm) _ (zs & Hk & Hl & Hz)].
  - exists []. split; [done|]. split; [done|]. by intros z ?%elem_of_nil.
  - exists ((y * 100 + m) :: zs). csimpl. rewrite Hk, HY, HM, ymToKey_ofZ.
    split; [done|]. split; [by rewrite Hl|].
    intros z [->|Hin]%elem_of_cons; [by exists y, m | by apply Hz].
Qed.

(** a key [y * 100 + m] of a calendar month, decoded, printed and read again *)
Lemma key_roundtrip (y m : Z) :
  1 ≤ y → 1 ≤ m ≤ 12 →
  keyFromStr (strFromYM (fromKey (ofZ (y * 100 + m))).1 (fromKey (ofZ (y * 100 + m))).2)
  = Some (ofZ (y * 100 + m)).
Proof.
  intros Hy Hm. rewrite <- ymToKey_ofZ, fromKey_ymToKey by lia. simpl.
  apply keyFromStr_strFromYM; lia.
Qed.

Lemma clampYM_unread (s minS maxS : string) :
  keyFromStr s = None → clampYM s minS maxS = s.
Proof. intros H. unfold clampYM. by rewrite H. Qed.

(** the user range kept by [hydrateFromParsed], or the bounds *)
Lemma preserved_window (s e minStr maxStr : string) (minK maxK : num) :
  keyFromStr minStr = Some minK → keyFromStr maxStr = Some maxK → leb minK maxK = true →
  let pk := keyFromStr (clampYM s minStr maxStr) in
  let qk := keyFromStr (clampYM e minStr maxStr) in
  let window :=
    if negb (no_key pk) && negb (no_key qk) && key_leb pk qk
    then (clampYM s minStr maxStr, clampYM e minStr maxStr)
    else (minStr, maxStr) in
  ∃ sk ek, keyFromStr window.1 = Some sk ∧ keyFromStr window.2 = Some ek ∧
           leb minK sk = true ∧ leb sk ek = true ∧ leb ek maxK = true.
Proof.
  intros Hmin Hmax Hle. simpl.
  assert (Hdef : ∃ sk ek, keyFromStr minStr = Some sk ∧ keyFromStr maxStr = Some ek ∧
                          leb minK sk = true ∧ leb sk ek = true ∧ leb ek maxK = true).
  { exists minK, maxK. destruct (leb_not_NaN _ _ Hle). repeat split; try done; by apply leb_refl. }
  destruct (keyFromStr s) as [k|] eqn:Hs.
  2:{ rewrite (clampYM_unread s) by done. by rewrite Hs. }
  destruct (keyFromStr e) as [k'|] eqn:He.
  2:{ rewrite (clampYM_unread e) by done. rewrite He. by rewrite andb_false_r. }
  destruct (clampYM_key s minStr maxStr k minK maxK Hs Hmin Hmax Hle) as (S1 & S2 & S3).
  destruct (clampYM_key e minStr maxStr k' minK maxK He Hmin Hmax Hle) as (E1 & E2 & E3).
  rewrite S1, E1. cbn [no_key key_leb].
  rewrite (keyFromStr_truthy _ _ S1), (keyFromStr_truthy _ _ E1). cbn [negb andb].
  destruct (leb (Math_max minK (Math_min k maxK)) (Math_max minK (Math_min k' maxK)))
    eqn:Hord; [|exact Hdef].
  cbn [fst snd]. eexists _, _. by repeat split.
Qed.

(** X14: for facts of calendar months, of years up to [max_exact_year] (so
    that the keys and their decoding are exact), [hydrateFromParsed] sets the
    bounds to the first and the last month of the data, so that every fact
    lies between them, and leaves a window that reads as two keys inside the
    bounds, in order; an untouched range gives the full bounds, a window
    that holds every fact. *)
Theorem hydrate_dates_window (parsed : list Fact) (st : Dates) :
  parsed ≠ [] → Forall calendar_fact parsed →
  ∃ minK maxK sk ek,
    keyFromStr (w_minMonthStr (hydrate_dates parsed st)) = Some minK ∧
    keyFromStr (w_maxMonthStr (hydrate_dates parsed st)) = Some maxK ∧
    keyFromStr (w_dateStart (hydrate_dates parsed st)) = Some sk ∧
    keyFromStr (w_dateEnd (hydrate_dates parsed st)) = Some ek ∧
    leb minK sk = true ∧ leb sk ek = true ∧ leb ek maxK = true ∧
    (∀ r, r ∈ parsed → leb minK (ymToKey (Year r) (Month r)) = true ∧
                       leb (ymToKey (Year r) (Month r)) maxK = true) ∧
    (∃ r, r ∈ parsed ∧ ymToKey (Year r) (Month r) = minK) ∧
    (∃ r, r ∈ parsed ∧ ymToKey (Year r) (Month r) = maxK) ∧
    (touched (w_userRange st) = false →
     w_dateStart (hydrate_dates parsed st) = w_minMonthStr (hydrate_dates parsed st) ∧
     w_dateEnd (hydrate_dates parsed st) = w_maxMonthStr (hydrate_dates parsed st) ∧
     ∀ r, r ∈ parsed →
          inWindow (w_dateStart (hydrate_dates parsed st)) (w_dateEnd (hydrate_dates parsed st))
            (ymToKey (Year r) (Month r)) = true).
Proof.
  intros Hne Hcal. destruct (calendar_keys parsed Hcal) as (zs & Hkeys & Hlen & Hzs).
  assert (Hzne : zs ≠ []) by (intros ->; by destruct parsed).
  destruct (Math_min_list_ofZ zs Hzne) as (zmin & Hmin & Hminin & Hminle).
  destruct (Math_max_list_ofZ zs Hzne) as (zmax & Hmax & Hmaxin & Hmaxle).
  assert (Hkey : ∀ z, z ∈ zs → ∃ r, r ∈ parsed ∧ ymToKey (Year r) (Month r) = ofZ z).
  { intros z Hz. apply (list_elem_of_fmap_2 ofZ) in Hz. rewrite <- Hkeys in Hz.
    apply list_elem_of_fmap in Hz as (r & Hr & Hin). eauto. }
  assert (Hall : ∀ r, r ∈ parsed → ∃ z, z ∈ zs ∧ ymToKey (Year r) (Month r) = ofZ z).
  { intros r Hr. apply (list_elem_of_fmap_2 (λ r, ymToKey (Year r) (Month r))) in Hr.
    rewrite Hkeys in Hr. apply list_elem_of_fmap in Hr as (z & Hz & Hin). eauto. }
  unfold hydrate_dates. rewrite Hkeys, Hmin, Hmax.
  destruct (Hzs zmin Hminin) as (y1 & m1 & -> & Hy1 & Hm1).
  destruct (Hzs zmax Hmaxin) as (y2 & m2 & -> & Hy2 & Hm2).
  set (minStr := strFromYM _ _). set (maxStr := strFromYM _ _).
  assert (Kmin : keyFromStr minStr = Some (ofZ (y1 * 100 + m1))) by by apply key_roundtrip.
  assert (Kmax : keyFromStr maxStr = Some (ofZ (y2 * 100 + m2))) by by apply key_roundtrip.
  assert (Hle : leb (ofZ (y1 * 100 + m1)) (ofZ (y2 * 100 + m2)) = true).
  { rewrite leb_ofZ. apply bool_decide_eq_true_2. by apply Hminle. }
  exists (ofZ (y1 * 100 + m1)), (ofZ (y2 * 100 + m2)). cbn [w_minMonthStr w_maxMonthStr
    w_dateStart w_dateEnd].
  assert (Hrest :
    (∀ r, r ∈ parsed → leb (ofZ (y1 * 100 + m1)) (ymToKey (Year r) (Month r)) = true ∧
                       leb (ymToKey (Year r) (Month r)) (ofZ (y2 * 100 + m2)) = true) ∧
    (∃ r, r ∈ parsed ∧ ymToKey (Year r) (Month r) = ofZ (y1 * 100 + m1)) ∧
    (∃ r, r ∈ parsed ∧ ymToKey (Year r) (Month r) = ofZ (y2 * 100 + m2))).
  { split; [|split; by apply Hkey].
    intros r Hr. destruct (Hall r Hr) as (z & Hz & ->). rewrite !leb_ofZ.
    split; apply bool_decide_eq_true_2; [by apply Hminle | by apply Hmaxle]. }
  destruct (touched (w_userRange st) && _) eqn:Ht.
  - destruct (preserved_window (default minStr (ur_start (w_userRange st)))
                (default maxStr (ur_end (w_userRange st))) minStr maxStr _ _ Kmin Kmax Hle)
      as (sk & ek & K1 & K2 & L1 & L2 & L3).
    exists sk, ek. split_and!; try done; try apply Hrest.
    intros Hf. by rewrite Hf in Ht.
  - exists (ofZ (y1 * 100 + m1)), (ofZ (y2 * 100 + m2)). cbn [fst snd].
    split_and!; try done; try apply Hrest; try by apply leb_refl.
    intros _. split_and!; try done. intros r Hr. unfold inWindow.
    rewrite Kmin, Kmax, Hle. apply andb_true_iff. by apply Hrest.
Qed.

Lemma hydrate_dates_window_witness :
  ∃ minK maxK sk ek,
    keyFromStr (w_minMonthStr (hydrate_dates sample_rows
      (mkDates "" "" "all" "" "" (mkUserRange false None None)))) = Some minK ∧
    keyFromStr (w_maxMonthStr (hydrate_dates sample_rows
      (mkDates "" "" "all" "" "" (mkUserRange false None None)))) = Some maxK ∧
    keyFromStr (w_dateStart (hydrate_dates sample_rows
      (mkDates "" "" "all" "" "" (mkUserRange false None None)))) = Some sk ∧
    keyFromStr (w_dateEnd (hydrate_dates sample_rows
      (mkDates "" "" "all" "" "" (mkUserRange false None None)))) = Some ek ∧
    leb minK sk = true ∧ leb sk ek = true ∧ leb ek maxK = true ∧
    (∀ r, r ∈ sample_rows → leb minK (ymToKey (Year r) (Month r)) = true ∧
                            leb (ymToKey (Year r) (Month r)) maxK = true) ∧
    (∃ r, r ∈ sample_rows ∧ ymToKey (Year r) (Month r) = minK) ∧
    (∃ r, r ∈ sample_rows ∧ ymToKey (Year r) (Month r) = maxK) ∧
    (touched (w_userRange (mkDates "" "" "all" "" "" (mkUserRange false None None))) = false →
     w_dateStart (hydrate_dates sample_rows
       (mkDates "" "" "all" "" "" (mkUserRange false None None)))
     = w_minMonthStr (hydrate_dates sample_rows
         (mkDates "" "" "all" "" "" (mkUserRange false None None))) ∧
     w_dateEnd (hydrate_dates sample_rows
       (mkDates "" "" "all" "" "" (mkUserRange false None None)))
     = w_maxMonthStr (hydrate_dates sample_rows
         (mkDates "" "" "all" "" "" (mkUserRange false None None))) ∧
     ∀ r, r ∈ sample_rows →
          inWindow
            (w_dateStart (hydrate_dates sample_rows
               (mkDates "" "" "all" "" "" (mkUserRange false None None))))
            (w_dateEnd (hydrate_dates sample_rows
               (mkDates "" "" "all" "" "" (mkUserRange false None None))))
            (ymToKey (Year r) (Month r)) = true).
Proof.
  apply hydrate_dates_window; [done|].
  repeat constructor; [exists 2023, 1 | exists 2023, 1 | exists 2022, 12];
    (split; [done|]; split; [done|]; unfold max_exact_year; lia).
Defined.

(** X15: the string of a calendar month of a year from 1 to
    [max_exact_year] (where the key is exact and the year prints in full)
    has the year and a two-character month around one hyphen, reads back as
    the key of the month, and is the string of the decoded key. *)
Theorem strFromYM_roundtrip (y m : Z) :
  1 ≤ y ≤ max_exact_year → 1 ≤ m ≤ 12 →
  split "-" (strFromYM (ofZ y) (ofZ m)) = [Z_to_string y; padStart2 (Z_to_string m)] ∧
  String.length (padStart2 (Z_to_string m)) = 2%nat ∧
  keyFromStr (strFromYM (ofZ y) (ofZ m)) = Some (ymToKey (ofZ y) (ofZ m)) ∧
  strFromYM (fromKey (ymToKey (ofZ y) (ofZ m))).1 (fromKey (ymToKey (ofZ y) (ofZ m))).2
  = strFromYM (ofZ y) (ofZ m).
Proof.
  intros [Hy _] Hm. split; [|split; [|split]].
  - unfold strFromYM. rewrite !NumberToString_ofZ.
    destruct (Z_to_string_digits y) as (Y1 & _ & _); [lia|].
    destruct (Z_to_string_digits m) as (M1 & M2 & _); [lia|].
    destruct (padStart2_digits _ M1 M2) as (P1 & _).
    rewrite split_minus by by apply has_minus_digits. by rewrite split_digits.
  - assert (Hc : m ∈ seqZ 1 12) by (apply elem_of_seqZ; lia).
    revert Hc. generalize m. by apply Forall_forall; repeat constructor.
  - apply keyFromStr_strFromYM; lia.
  - by rewrite fromKey_ymToKey by lia.
Qed.

Lemma strFromYM_roundtrip_witness :
  split "-" (strFromYM (ofZ 2024) (ofZ 3)) = [Z_to_string 2024; padStart2 (Z_to_string 3)] ∧
  String.length (padStart2 (Z_to_string 3)) = 2%nat ∧
  keyFromStr (strFromYM (ofZ 2024) (ofZ 3)) = Some (ymToKey (ofZ 2024) (ofZ 3)) ∧
  strFromYM (fromKey (ymToKey (ofZ 2024) (ofZ 3))).1 (fromKey (ymToKey (ofZ 2024) (ofZ 3))).2
  = strFromYM (ofZ 2024) (ofZ 3).
Proof. apply strFromYM_roundtrip; unfold max_exact_year; lia. Defined.

Lemma clampYM_mono (s1 s2 minS maxS : string) (k1 k2 minK maxK : num) :
  keyFromStr s1 = Some k1 → keyFromStr s2 = Some k2 →
  keyFromStr minS = Some minK → keyFromStr maxS = Some maxK →
  leb minK maxK = true → leb k1 k2 = true →
  ordered (clampYM s1 minS maxS) (clampYM s2 minS maxS).
Proof.
  intros H1 H2 Hmin Hmax Hle H12 sk ek.
  destruct (clampYM_key s1 minS maxS k1 minK maxK H1 Hmin Hmax Hle) as (S1 & S2 & S3).
  destruct (clampYM_key s2 minS maxS k2 minK maxK H2 Hmin Hmax Hle) as (E1 & E2 & E3).
  pose proof (keyFromStr_not_NaN _ _ H1) as N1.
  pose proof (keyFromStr_not_NaN _ _ H2) as N2.
  pose proof (keyFromStr_not_NaN _ _ Hmin) as Nmin.
  pose proof (keyFromStr_not_NaN _ _ Hmax) as Nmax.
  rewrite (clampYM_keys s1 minS maxS k1 minK maxK) in * by done.
  rewrite (clampYM_keys s2 minS maxS k2 minK maxK) in * by done.
  unfold gtb in *. destruct (ltb k1 minK) eqn:A1.
  - rewrite Hmin. intros [= <-] He. rewrite E1 in He. by injection He as <-.
  - destruct (ltb maxK k1) eqn:B1.
    + pose proof (ltb_leb_trans _ _ _ B1 H12) as B2.
      assert (A2 : ltb k2 minK = false).
      { apply leb_not_ltb. eapply leb_trans; [exact Hle|]. by apply ltb_leb. }
      rewrite A2, B2. rewrite Hmax. intros [= <-] [= <-]. by apply leb_refl.
    + assert (A2 : ltb k2 minK = false).
      { apply leb_not_ltb. eapply leb_trans; [|exact H12]. by apply not_ltb_leb. }
      rewrite A2. rewrite H1. intros [= <-]. destruct (ltb maxK k2).
      * rewrite Hmax. intros [= <-]. by apply not_ltb_leb.
      * rewrite H2. by intros [= <-].
Qed.

Lemma digits_not_all (s : string) : all_digits s = true → String.eqb s "all" = false.
Proof.
  destruct s as [|a r]; [done|]. intros [Ha%digit_cases _]%all_digits_inv.
  rewrite !elem_of_cons, elem_of_nil in Ha.
  destruct Ha as [->|[->|[->|[->|[->|[->|[->|[->|[->|[->|[]]]]]]]]]]]; reflexivity.
Qed.

Lemma keyFromStr_nonempty (s : string) (k : num) :
  keyFromStr s = Some k → String.eqb s "" = false.
Proof. unfold keyFromStr. by destruct (String.eqb s ""). Qed.

(** X16: picking a year records it, marks the range as touched and sets the
    window to January..December of that year, each end brought into the
    bounds of the data; the window is in order, and it is the whole year when
    the year lies inside the bounds. *)
Theorem onYearPick_window (y : Z) (st : Dates) (minK maxK : num) :
  1 ≤ y →
  keyFromStr (w_minMonthStr st) = Some minK → keyFromStr (w_maxMonthStr st) = Some maxK →
  leb minK maxK = true →
  w_selectedYear (onYearPick (Z_to_string y) st) = Z_to_string y ∧
  touched (w_userRange (onYearPick (Z_to_string y) st)) = true ∧
  keyFromStr (w_dateStart (onYearPick (Z_to_string y) st))
  = Some (Math_max minK (Math_min (ymToKey (ofZ y) (ofZ 1)) maxK)) ∧
  keyFromStr (w_dateEnd (onYearPick (Z_to_string y) st))
  = Some (Math_max minK (Math_min (ymToKey (ofZ y) (ofZ 12)) maxK)) ∧
  ordered (w_dateStart (onYearPick (Z_to_string y) st))
          (w_dateEnd (onYearPick (Z_to_string y) st)) ∧
  (leb minK (ymToKey (ofZ y) (ofZ 1)) = true → leb (ymToKey (ofZ y) (ofZ 12)) maxK = true →
   w_dateStart (onYearPick (Z_to_string y) st) = strFromYM (ofZ y) (ofZ 1) ∧
   w_dateEnd (onYearPick (Z_to_string y) st) = strFromYM (ofZ y) (ofZ 12)).
Proof.
  intros Hy Hmin Hmax Hle. unfold onYearPick.
  destruct (Z_to_string_digits y) as (Y1 & Y2 & Y3); [lia|].
  rewrite (digits_not_all _ Y1), (keyFromStr_nonempty _ _ Hmin),
    (keyFromStr_nonempty _ _ Hmax). cbn [orb].
  rewrite StringToNumber_Z_to_string by lia. cbn [isFinite ofZ negb].
  fold (ofZ y). 
  change (NumberToString (ofZ y) +:+ "-01") with (strFromYM (ofZ y) (ofZ 1)).
  change (NumberToString (ofZ y) +:+ "-12") with (strFromYM (ofZ y) (ofZ 12)).
  cbn [w_selectedYear w_userRange touched w_dateStart w_dateEnd].
  assert (K1 : keyFromStr (strFromYM (ofZ y) (ofZ 1)) = Some (ymToKey (ofZ y) (ofZ 1)))
    by (apply keyFromStr_strFromYM; lia).
  assert (K12 : keyFromStr (strFromYM (ofZ y) (ofZ 12)) = Some (ymToKey (ofZ y) (ofZ 12)))
    by (apply keyFromStr_strFromYM; lia).
  destruct (clampYM_key _ _ _ _ _ _ K1 Hmin Hmax Hle) as (S1 & _ & _).
  destruct (clampYM_key _ _ _ _ _ _ K12 Hmin Hmax Hle) as (E1 & _ & _).
  split_and!; try done.
  - eapply clampYM_mono; try done. rewrite !ymToKey_ofZ, leb_ofZ.
    apply bool_decide_eq_true_2. lia.
  - intros L1 L2.
    rewrite (clampYM_keys _ _ _ _ _ _ K1 Hmin Hmax), (clampYM_keys _ _ _ _ _ _ K12 Hmin Hmax).
    unfold gtb. rewrite (leb_not_ltb _ _ L1), (leb_not_ltb _ _ L2).
    assert (L3 : leb (ymToKey (ofZ y) (ofZ 1)) (ymToKey (ofZ y) (ofZ 12)) = true).
    { rewrite !ymToKey_ofZ, leb_ofZ. apply bool_decide_eq_true_2. lia. }
    rewrite (leb_not_ltb _ _ (leb_trans _ _ _ L3 L2)).
    by rewrite (leb_not_ltb _ _ (leb_trans _ _ _ L1 L3)).
Qed.

Lemma onYearPick_window_witness :
  w_selectedYear (onYearPick (Z_to_string 2023)
    (mkDates "" "" "all" "2022-12" "2023-06" (mkUserRange false None None)))
  = Z_to_string 2023 ∧
  touched (w_userRange (onYearPick (Z_to_string 2023)
    (mkDates "" "" "all" "2022-12" "2023-06" (mkUserRange false None None)))) = true ∧
  keyFromStr (w_dateStart (onYearPick (Z_to_string 2023)
    (mkDates "" "" "all" "2022-12" "2023-06" (mkUserRange false None None))))
  = Some (Math_max (ofZ 202212) (Math_min (ymToKey (ofZ 2023) (ofZ 1)) (ofZ 202306))) ∧
  keyFromStr (w_dateEnd (onYearPick (Z_to_string 2023)
    (mkDates "" "" "all" "2022-12" "2023-06" (mkUserRange false None None))))
  = Some (Math_max (ofZ 202212) (Math_min (ymToKey (ofZ 2023) (ofZ 12)) (ofZ 202306))) ∧
  ordered (w_dateStart (onYearPick (Z_to_string 2023)
             (mkDates "" "" "all" "2022-12" "2023-06" (mkUserRange false None None))))
          (w_dateEnd (onYearPick (Z_to_string 2023)
             (mkDates "" "" "all" "2022-12" "2023-06" (mkUserRange false None None)))) ∧
  (leb (ofZ 202212) (ymToKey (ofZ 2023) (ofZ 1)) = true →
   leb (ymToKey (ofZ 2023) (ofZ 12)) (ofZ 202306) = true →
   w_dateStart (onYearPick (Z_to_string 2023)
     (mkDates "" "" "all" "2022-12" "2023-06" (mkUserRange false None None)))
   = strFromYM (ofZ 2023) (ofZ 1) ∧
   w_dateEnd (onYearPick (Z_to_string 2023)
     (mkDates "" "" "all" "2022-12" "2023-06" (mkUserRange false None None)))
   = strFromYM (ofZ 2023) (ofZ 12)).
Proof.
  apply (onYearPick_window 2023
           (mkDates "" "" "all" "2022-12" "2023-06" (mkUserRange false None None))
           (ofZ 202212) (ofZ 202306)); [lia | compute_done | compute_done | compute_done].
Defined.

(** ** The rows of the branch summary *)

Lemma eqb_bool_decide (a b : string) : String.eqb a b = bool_decide (a = b).
Proof.
  destruct (String.eqb_spec a b) as [->|Hne];
    [by rewrite bool_decide_eq_true_2 | by rewrite bool_decide_eq_false_2].
Qed.


Section SummaryRows.
Context (cats sel : list string) (ds de : string).
Context (reserved : "__total" ∉ cats).


End SummaryRows.






(** ** Series colours *)

Lemma color_hash_acc (l : list ascii) (acc : Z) :
  fold_left (λ hash a, (hash * 31 + Z.of_N (N_of_ascii a)) mod 2 ^ 32) l (acc mod 2 ^ 32)
  = poly_hash l acc mod 2 ^ 32.
Proof.
  revert acc. induction l as [|a l IH]; intros acc; cbn [fold_left poly_hash]; [done|].
  unfold poly_hash in IH. rewrite <- IH. f_equal.
  rewrite Z.add_mod, Z.mul_mod_idemp_l, <- Z.add_mod; lia.
Qed.

(** X18: the hash of [colorFromString] is the polynomial of the character
    codes in base 31 reduced once modulo 2^32: wrapping at every character
    loses nothing; the result is an [hsl] colour with a hue in 0..359, the
    saturation 65 and one of the four lightness stops. *)
Theorem colorFromString_hsl (key : string) :
  color_hash key = poly_hash (list_ascii_of_string key) 0 mod 2 ^ 32 ∧
  ∃ hue lightness,
    0 ≤ hue < 360 ∧ lightness ∈ LIGHTNESS_STOPS ∧
    colorFromString key
    = "hsl(" +:+ Z_to_string hue +:+ ", 65%, " +:+ Z_to_string lightness +:+ "%)".
Proof.
  split; [exact (color_hash_acc (list_ascii_of_string key) 0)|].
  unfold colorFromString. set (hash := color_hash key).
  exists (hash mod 360).
  exists (default 0 (LIGHTNESS_STOPS !! Z.to_nat (hash mod Z.of_nat (length LIGHTNESS_STOPS)))).
  split; [apply Z.mod_pos_bound; lia|]. split; [|done].
  assert (H4 : 0 ≤ hash mod 4 < 4) by (apply Z.mod_pos_bound; lia).
  change (Z.of_nat (length LIGHTNESS_STOPS)) with 4.
  assert (Hc : hash mod 4 ∈ seqZ 0 4) by (apply elem_of_seqZ; lia).
  revert Hc. generalize (hash mod 4). apply Forall_forall.
  repeat constructor; rewrite <- list_elem_of_In; compute_done.
Qed.

Lemma assign_lookup (key v : string) (obj : gmap string string) (k : string) :
  assign key v obj !! k
  = if bool_decide (k = key ∧ ¬ (key = "__proto__" ∧ obj !! key = None))
    then Some v else obj !! k.
Proof.
  unfold assign. destruct (String.eqb_spec key "__proto__") as [Hp|Hp]; simpl.
  - case_bool_decide as Hn; simpl.
    + rewrite bool_decide_eq_false_2; [done|]. intros [_ H]. by apply H.
    + destruct (decide (k = key)) as [->|Hne].
      * rewrite bool_decide_eq_true_2 by (split; [done|]; by intros [_ ?]).
        apply lookup_insert_eq.
      * rewrite bool_decide_eq_false_2 by (by intros [? _]). by apply lookup_insert_ne.
  - destruct (decide (k = key)) as [->|Hne].
    + rewrite bool_decide_eq_true_2 by (split; [done|]; by intros [? _]).
      apply lookup_insert_eq.
    + rewrite bool_decide_eq_false_2 by (by intros [? _]). by apply lookup_insert_ne.
Qed.

(** the returned object never gets a property [__proto__] of its own *)
Lemma assign_proto (key v : string) (obj : gmap string string) :
  obj !! "__proto__" = None → assign key v obj !! "__proto__" = None.
Proof.
  intros Hp. rewrite assign_lookup. rewrite bool_decide_eq_false_2; [done|].
  intros [<- H]. by apply H.
Qed.

Lemma assign_color_proto (stored overrides map : gmap string string) (key : string) :
  map !! "__proto__" = None → assign_color stored overrides map key !! "__proto__" = None.
Proof.
  intros Hp. unfold assign_color.
  destruct (overrides !! key); [by apply assign_proto|].
  destruct (stored !! key); by apply assign_proto.
Qed.

Lemma assign_color_lookup (stored overrides : gmap string string) (keys : list string)
    (map : gmap string string) (k : string) :
  map !! "__proto__" = None →
  fold_left (assign_color stored overrides) keys map !! k
  = if bool_decide (k ∈ keys ∧ k ≠ "__proto__")
    then Some (color_of stored overrides k) else map !! k.
Proof.
  revert map. induction keys as [|key keys IH]; intros map Hp; cbn [fold_left].
  { rewrite bool_decide_eq_false_2; [done|]. by intros [?%elem_of_nil _]. }
  rewrite IH by by apply assign_color_proto.
  destruct (decide (k ∈ keys ∧ k ≠ "__proto__")) as [[Hin Hk]|Hin].
  { rewrite !bool_decide_eq_true_2; [done | | done].
    split; [by apply list_elem_of_further | done]. }
  rewrite (bool_decide_eq_false_2 (k ∈ keys ∧ k ≠ "__proto__")) by done.
  assert (Hone : ∀ v, assign key v map !! k
                      = if bool_decide (k = key ∧ k ≠ "__proto__") then Some v else map !! k).
  { intros v. rewrite assign_lookup. apply (f_equal (λ b : bool, if b then Some v else map !! k)).
    apply bool_decide_ext. split.
    - intros [-> H]. split; [done|]. intros Heq. apply H. split; [done|]. by rewrite Heq.
    - intros [-> H]. split; [done|]. by intros [? _]. }
  destruct (decide (k = key ∧ k ≠ "__proto__")) as [[-> Hk]|Hne].
  - rewrite bool_decide_eq_true_2 by (split; [apply list_elem_of_here | done]).
    unfold assign_color, color_of.
    destruct (overrides !! key); [|destruct (stored !! key)];
      rewrite Hone; by rewrite bool_decide_eq_true_2.
  - rewrite (bool_decide_eq_false_2 (k ∈ key :: keys ∧ k ≠ "__proto__")).
    2:{ intros [[->|?]%elem_of_cons Hk]; [by apply Hne | by apply Hin]. }
    unfold assign_color.
    destruct (overrides !! key); [|destruct (stored !! key)];
      rewrite Hone; by rewrite bool_decide_eq_false_2.
Qed.

Lemma override_fold_lookup (validKeys : list string)
    (merged map overrides : gmap string string) (k : string) :
  map !! "__proto__" = None →
  let out :=
    map_fold
      (λ overrideKey value '(merged, map),
         (assign overrideKey value merged,
          if includes validKeys overrideKey then assign overrideKey value map else map))
      (merged, map) overrides in
  out.1 !! k = (if bool_decide (k = "__proto__" ∧ merged !! k = None) then None
                else (overrides ∪ merged) !! k) ∧
  out.2 !! k = match overrides !! k with
               | Some v => if includes validKeys k && negb (String.eqb k "__proto__")
                           then Some v else map !! k
               | None => map !! k
               end.
Proof.
  intros Hp. cbn zeta.
  pose (P := λ (out : gmap string string * gmap string string) (m : gmap string string),
    out.2 !! "__proto__" = None ∧
    out.1 !! k = (if bool_decide (k = "__proto__" ∧ merged !! k = None) then None
                  else (m ∪ merged) !! k) ∧
    out.2 !! k = match m !! k with
                 | Some v => if includes validKeys k && negb (String.eqb k "__proto__")
                             then Some v else map !! k
                 | None => map !! k
                 end).
  enough (HP : P (map_fold
      (λ overrideKey value '(merged, map),
         (assign overrideKey value merged,
          if includes validKeys overrideKey then assign overrideKey value map else map))
      (merged, map) overrides) overrides) by (by destruct HP as (_ & ? & ?)).
  apply (map_fold_weak_ind P); unfold P.
  - cbn [fst snd]. rewrite (left_id_L ∅ (∪)), lookup_empty. split_and!; [done| |done].
    case_bool_decide as H; [|done]. by destruct H as [_ ->].
  - intros i x m [mg mp] Hi (IH0 & IH1 & IH2). cbn [fst snd] in *.
    assert (Hmp : (if includes validKeys i then assign i x mp else mp) !! "__proto__" = None).
    { destruct (includes validKeys i); [by apply assign_proto | done]. }
    split; [exact Hmp|].
    destruct (decide (k = i)) as [->|Hne].
    + rewrite Hi in IH2. rewrite lookup_insert_eq.
      assert (Hmg : mg !! i = merged !! i).
      { rewrite IH1. case_bool_decide as H; [by destruct H as [_ ->]|].
        by rewrite lookup_union, Hi, (left_id_L None union). }
      split.
      * rewrite assign_lookup, Hmg.
        rewrite lookup_union_l' by by rewrite lookup_insert_eq.
        rewrite lookup_insert_eq.
        destruct (decide (i = "__proto__" ∧ merged !! i = None)) as [H|H].
        -- rewrite bool_decide_eq_false_2 by (intros [_ H']; by apply H').
           rewrite bool_decide_eq_true_2 by done. by destruct H as [_ ->].
        -- rewrite bool_decide_eq_true_2 by done. by rewrite bool_decide_eq_false_2.
      * destruct (includes validKeys i); simpl; [|done].
        rewrite assign_lookup.
        destruct (String.eqb_spec i "__proto__") as [Hip|Hip]; simpl.
        -- rewrite bool_decide_eq_false_2; [by rewrite IH2|]. intros [_ H]. apply H.
           split; [done|]. by rewrite Hip.
        -- rewrite bool_decide_eq_true_2; [done|]. split; [done|]. by intros [? _].
    + rewrite lookup_insert_ne by done. split.
      * rewrite assign_lookup. rewrite bool_decide_eq_false_2 by (by intros [? _]).
        rewrite IH1. case_bool_decide; [done|].
        rewrite !lookup_union. by rewrite lookup_insert_ne.
      * rewrite <- IH2. destruct (includes validKeys i); [|done].
        rewrite assign_lookup. by rewrite bool_decide_eq_false_2 by (by intros [? _]).
Qed.

(** the two objects of [getPersistentColorMap], key by key *)
Lemma getPersistentColorMap_lookup (keys : list string) (stored overrides : gmap string string)
    (k : string) :
  (getPersistentColorMap keys stored overrides).1 !! k
  = (if bool_decide (k ∈ keys ∧ k ≠ "" ∧ k ≠ "__proto__")
     then Some (color_of stored overrides k) else None) ∧
  (getPersistentColorMap keys stored overrides).2 !! k
  = if bool_decide (k = "__proto__")
    then (λ s, default s (overrides !! k)) <$> stored !! k
    else match overrides !! k with
         | Some v => Some v
         | None => if bool_decide (k ∈ keys ∧ k ≠ "") then Some (color_of stored overrides k)
                   else stored !! k
         end.
Proof.
  unfold getPersistentColorMap. cbn [fst snd].
  set (validKeys := List.filter _ keys).
  set (map := fold_left _ validKeys ∅).
  assert (Hvalid : includes validKeys k = bool_decide (k ∈ keys ∧ k ≠ "")).
  { unfold includes, validKeys. apply bool_decide_ext.
    rewrite elem_of_filter_list, eqb_string_false. done. }
  assert (Hmap : ∀ k', map !! k'
                 = if bool_decide ((k' ∈ keys ∧ k' ≠ "") ∧ k' ≠ "__proto__")
                   then Some (color_of stored overrides k') else None).
  { intros k'. unfold map. rewrite assign_color_lookup by apply lookup_empty.
    rewrite lookup_empty.
    apply (f_equal (λ b : bool, if b then Some (color_of stored overrides k') else None)).
    apply bool_decide_ext. unfold validKeys.
    rewrite elem_of_filter_list, eqb_string_false. done. }
  assert (Hproto : map !! "__proto__" = None).
  { rewrite Hmap. rewrite bool_decide_eq_false_2; [done|]. by intros [_ ?]. }
  destruct (override_fold_lookup validKeys (map ∪ stored) map overrides k Hproto) as [H1 H2].
  cbn zeta in H1, H2. rewrite H1, H2. clear H1 H2. rewrite Hvalid, Hmap. split.
  - destruct (String.eqb_spec k "__proto__") as [->|Hk]; simpl.
    + rewrite andb_false_r. rewrite !bool_decide_eq_false_2; [by destruct (overrides !! _) | |].
      * intros (_ & _ & ?). done.
      * intros [_ ?]. done.
    + rewrite andb_true_r.
      destruct (decide (k ∈ keys ∧ k ≠ "")) as [Hin|Hin].
      * rewrite !bool_decide_eq_true_2 by tauto.
        destruct (overrides !! k) as [v|] eqn:Ho; [|done]. unfold color_of. by rewrite Ho.
      * rewrite !bool_decide_eq_false_2 by tauto. by destruct (overrides !! k).
  - rewrite !lookup_union, Hmap.
    destruct (decide (k = "__proto__")) as [->|Hk].
    + rewrite (bool_decide_eq_true_2 ("__proto__" = "__proto__")) by done.
      rewrite (bool_decide_eq_false_2 (_ ∧ "__proto__" ≠ "__proto__")) by (by intros [_ ?]).
      rewrite (left_id_L None union).
      destruct (stored !! "__proto__") as [s0|] eqn:Hs; simpl.
      * by destruct (overrides !! "__proto__").
      * done.
    + rewrite (bool_decide_eq_false_2 (k = "__proto__")) by done.
      rewrite bool_decide_eq_false_2 by (by intros [? _]).
      destruct (overrides !! k) as [v|] eqn:Ho.
      { by destruct (_ ∪ stored !! k). }
      rewrite (left_id_L None union).
      destruct (decide (k ∈ keys ∧ k ≠ "")) as [Hin|Hin].
      * rewrite !bool_decide_eq_true_2 by tauto. by destruct (stored !! k).
      * rewrite !bool_decide_eq_false_2 by tauto. by rewrite (left_id_L None union).
Qed.

(** the key [__proto__] gets no colour; it is written back only when it was
    stored *)
Example proto_key :
  (getPersistentColorMap ["Parts"; "__proto__"] ∅ ∅).1
  = {[ "Parts" := colorFromString "Parts" ]} ∧
  (getPersistentColorMap ["Parts"; "__proto__"] ∅ {[ "__proto__" := "red" ]}).2
  = {[ "Parts" := colorFromString "Parts" ]} ∧
  (getPersistentColorMap [] {[ "__proto__" := "blue" ]} {[ "__proto__" := "red" ]}).2
  = {[ "__proto__" := "red" ]}.
Proof. repeat split; compute_done. Qed.

(** X19: [getPersistentColorMap] returns a colour for exactly the keys that
    are neither empty nor [__proto__] (an assignment to that name on a plain
    object is ignored): the override of the key, else its stored colour,
    else the colour of its hash.  Under every other name, what it writes
    back holds the override, else the returned colour, else the stored
    colour; under [__proto__] it keeps a stored entry, replaced by the
    override if there is one, and has none otherwise. *)
Theorem getPersistentColorMap_spec (keys : list string) (stored overrides : gmap string string)
    (k : string) :
  ((getPersistentColorMap keys stored overrides).1 !! k
   = if bool_decide (k ∈ keys ∧ k ≠ "" ∧ k ≠ "__proto__")
     then Some (default (default (colorFromString k) (stored !! k)) (overrides !! k))
     else None) ∧
  (k ≠ "__proto__" →
   (getPersistentColorMap keys stored overrides).2 !! k
   = (overrides ∪ (getPersistentColorMap keys stored overrides).1 ∪ stored) !! k) ∧
  ((getPersistentColorMap keys stored overrides).2 !! "__proto__"
   = (λ s, default s (overrides !! "__proto__")) <$> stored !! "__proto__").
Proof.
  destruct (getPersistentColorMap_lookup keys stored overrides k) as [H1 H2].
  split; [exact H1|]. split.
  - intros Hk. rewrite H2, !lookup_union, H1.
    rewrite (bool_decide_eq_false_2 (k = "__proto__")) by done.
    destruct (overrides !! k) as [v|] eqn:Ho.
    { by destruct (bool_decide _), (stored !! k). }
    rewrite (left_id_L None union).
    destruct (decide (k ∈ keys ∧ k ≠ "")) as [Hin|Hin].
    + rewrite !bool_decide_eq_true_2 by tauto. by destruct (stored !! k).
    + rewrite !bool_decide_eq_false_2 by tauto. by rewrite (left_id_L None union).
  - destruct (getPersistentColorMap_lookup keys stored overrides "__proto__") as [_ ->].
    by rewrite bool_decide_eq_true_2.
Qed.

(** X20: colours persist: with what a call wrote back as the storage, a
    later call, whatever its keys, gives every key of the first call the
    colour it had, and a call with the same keys returns and writes the same
    objects. *)
Theorem colors_persist (keys keys' : list string) (stored overrides : gmap string string) :
  (∀ k, k ∈ keys → k ∈ keys' →
        (getPersistentColorMap keys'
           (getPersistentColorMap keys stored overrides).2 overrides).1 !! k
        = (getPersistentColorMap keys stored overrides).1 !! k) ∧
  getPersistentColorMap keys (getPersistentColorMap keys stored overrides).2 overrides
  = getPersistentColorMap keys stored overrides.
Proof.
  assert (Hcolor : ∀ k, k ∈ keys → k ≠ "" → k ≠ "__proto__" →
    color_of (getPersistentColorMap keys stored overrides).2 overrides k
    = color_of stored overrides k).
  { intros k Hk Hne Hp. unfold color_of at 1.
    destruct (getPersistentColorMap_lookup keys stored overrides k) as [_ ->].
    rewrite (bool_decide_eq_false_2 (k = "__proto__")) by done.
    destruct (overrides !! k) as [v|] eqn:Ho; [unfold color_of; by rewrite Ho|].
    by rewrite bool_decide_eq_true_2. }
  split.
  - intros k Hk Hk'.
    destruct (getPersistentColorMap_lookup keys'
                (getPersistentColorMap keys stored overrides).2 overrides k) as [-> _].
    destruct (getPersistentColorMap_lookup keys stored overrides k) as [-> _].
    destruct (decide (k ≠ "" ∧ k ≠ "__proto__")) as [[Hne Hp]|Hne].
    + rewrite !bool_decide_eq_true_2 by done. by rewrite Hcolor.
    + rewrite !bool_decide_eq_false_2; [done|tauto|tauto].
  - set (out := getPersistentColorMap keys stored overrides).
    apply injective_projections; apply map_eq; intros k.
    + destruct (getPersistentColorMap_lookup keys out.2 overrides k) as [-> _].
      destruct (getPersistentColorMap_lookup keys stored overrides k) as [H _].
      fold out in H. rewrite H. case_bool_decide as Hk; [|done].
      destruct Hk as (? & ? & ?). by rewrite Hcolor.
    + destruct (getPersistentColorMap_lookup keys out.2 overrides k) as [_ ->].
      destruct (getPersistentColorMap_lookup keys stored overrides k) as [_ H].
      fold out in H. rewrite H. case_bool_decide as Hp.
      * destruct (stored !! k); simpl; [|done]. by destruct (overrides !! k).
      * destruct (overrides !! k) as [v|] eqn:Ho; [done|].
        case_bool_decide as Hk; [|done]. destruct Hk. by rewrite Hcolor.
Qed.

(** ** Month arithmetic on dates *)

Lemma Qc_trunc_of_Z (z : Z) : Qc_trunc (Qc_of_Z z) = z.
Proof.
  unfold Qc_trunc. case_bool_decide; rewrite this_Qc_of_Z; [apply Qfloor_Z | apply Qceiling_Z].
Qed.

Lemma neg_ofZ (z : Z) : neg (ofZ z) = ofZ (- z).
Proof. unfold neg, ofZ. f_equal. symmetry. apply Z2Qc_inj_opp. Qed.

Lemma first_of_month_ofZ (two_digit : bool) (y m : Z) :
  two_digit = false ∨ 100 ≤ y →
  first_of_month two_digit (ofZ y) (ofZ m)
  = if (first_date_month <=? y * 12 + m) && (y * 12 + m <=? last_date_month)
    then Some (y + m / 12, m mod 12) else None.
Proof.
  intros Hy. unfold first_of_month, ofZ. rewrite !Qc_trunc_of_Z.
  destruct Hy as [->|Hy]; [done|].
  replace (y <=? 99) with false by (symmetry; apply Z.leb_gt; lia).
  by rewrite andb_false_r.
Qed.

Lemma parts_strFromYM (y m : Z) :
  1 ≤ y → 1 ≤ m ≤ 12 →
  map StringToNumber (split "-" (strFromYM (ofZ y) (ofZ m))) = [ofZ y; ofZ m].
Proof.
  intros Hy Hm. unfold strFromYM. rewrite !NumberToString_ofZ.
  destruct (Z_to_string_digits y) as (Y1 & Y2 & Y3); [lia|].
  destruct (Z_to_string_digits m) as (M1 & M2 & M3); [lia|].
  destruct (padStart2_digits _ M1 M2) as (P1 & P2).
  rewrite split_minus by by apply has_minus_digits.
  rewrite split_digits by done. cbn [map].
  rewrite !StringToNumber_digits by done. by rewrite P2, Y3, M3.
Qed.

(** [addMonths] on the string of a calendar month inside the range of
    [Date]: the month [d] months away when that is inside the range too,
    and the string of an Invalid Date otherwise *)
Lemma addMonths_strFromYM (y m d : Z) :
  100 ≤ y → 1 ≤ m ≤ 12 → month_number y m ≤ last_date_month →
  addMonths (strFromYM (ofZ y) (ofZ m)) (ofZ d)
  = if (first_date_month <=? month_number y m + d) &&
       (month_number y m + d <=? last_date_month)
    then strFromYM (ofZ ((month_number y m + d) / 12))
                   (ofZ ((month_number y m + d) mod 12 + 1))
    else "NaN-NaN".
Proof.
  intros Hy Hm Hlast. unfold addMonths. rewrite parts_strFromYM by lia.
  change (default NaN ([ofZ y; ofZ m] !! 0%nat)) with (ofZ y).
  change (default NaN ([ofZ y; ofZ m] !! 1%nat)) with (ofZ m).
  unfold sub. rewrite neg_ofZ.
  rewrite add_ofZ, first_of_month_ofZ by by right.
  unfold month_number in *.
  replace (first_date_month <=? y * 12 + (m + - (1))) with true
    by (symmetry; apply Z.leb_le; unfold first_date_month; lia).
  replace (y * 12 + (m + - (1)) <=? last_date_month) with true
    by (symmetry; apply Z.leb_le; lia).
  cbn [andb].
  replace ((m + - (1)) / 12) with 0 by (symmetry; apply Z.div_small; lia).
  replace ((m + - (1)) mod 12) with (m - 1) by (symmetry; apply Z.mod_small; lia).
  rewrite add_ofZ, first_of_month_ofZ by by left.
  replace ((y + 0) * 12 + (m - 1 + d)) with (y * 12 + (m - 1) + d) by lia.
  destruct ((first_date_month <=? y * 12 + (m - 1) + d) &&
            (y * 12 + (m - 1) + d <=? last_date_month)); [|done].
  rewrite add_ofZ.
  replace (y * 12 + (m - 1) + d) with ((m - 1 + d) + y * 12) in * by lia.
  rewrite Z.div_add, Z.mod_add in * by lia.
  do 2 f_equal; lia.
Qed.

Lemma month_number_inv (n : Z) :
  1 ≤ n mod 12 + 1 ≤ 12 ∧ month_number (n / 12) (n mod 12 + 1) = n.
Proof.
  pose proof (Z.mod_pos_bound n 12 ltac:(lia)). split; [lia|].
  unfold month_number. pose proof (Z.div_mod n 12 ltac:(lia)). lia.
Qed.

(** the order of the month keys is the order of the months *)
Lemma key_month_number (y m y' m' : Z) :
  1 ≤ m ≤ 12 → 1 ≤ m' ≤ 12 →
  (y * 100 + m ≤ y' * 100 + m' ↔ month_number y m ≤ month_number y' m') ∧
  (y * 100 + m < y' * 100 + m' ↔ month_number y m < month_number y' m').
Proof. unfold month_number. lia. Qed.

(** X21: on the string of a calendar month of a year from 100 on, inside
    the range of [Date] (up to September 275760), [addMonths] moves the
    month by [d] months when the month it reaches is inside the range too
    (from May -271821 on): the result is the string of the month whose
    number is the old number plus [d], and it reads back as the key of that
    month when its year is at least 1.  When the month it would reach is
    outside the range the result is ["NaN-NaN"].  Adding 0 months changes
    nothing, and adding [a] then [b] months is adding [a + b], as long as
    the month in between is in a year from 100 on, inside the range. *)
Theorem addMonths_shift (y m d : Z) :
  100 ≤ y → 1 ≤ m ≤ 12 → month_number y m ≤ last_date_month →
  (first_date_month ≤ month_number y m + d ≤ last_date_month →
   ∃ y' m', 1 ≤ m' ≤ 12 ∧ month_number y' m' = month_number y m + d ∧
            addMonths (strFromYM (ofZ y) (ofZ m)) (ofZ d) = strFromYM (ofZ y') (ofZ m') ∧
            (1 ≤ y' → keyFromStr (addMonths (strFromYM (ofZ y) (ofZ m)) (ofZ d))
                      = Some (ymToKey (ofZ y') (ofZ m')))) ∧
  (¬ (first_date_month ≤ month_number y m + d ≤ last_date_month) →
   addMonths (strFromYM (ofZ y) (ofZ m)) (ofZ d) = "NaN-NaN") ∧
  addMonths (strFromYM (ofZ y) (ofZ m)) (ofZ 0) = strFromYM (ofZ y) (ofZ m) ∧
  (∀ a b, 100 ≤ (month_number y m + a) / 12 → month_number y m + a ≤ last_date_month →
          addMonths (addMonths (strFromYM (ofZ y) (ofZ m)) (ofZ a)) (ofZ b)
          = addMonths (strFromYM (ofZ y) (ofZ m)) (ofZ (a + b))).
Proof.
  intros Hy Hm Hlast.
  assert (Hin : ∀ n, first_date_month ≤ n ≤ last_date_month →
                     (first_date_month <=? n) && (n <=? last_date_month) = true).
  { intros n Hn. apply andb_true_iff. split; apply Z.leb_le; lia. }
  assert (Hout : ∀ n, ¬ (first_date_month ≤ n ≤ last_date_month) →
                      (first_date_month <=? n) && (n <=? last_date_month) = false).
  { intros n Hn. apply andb_false_iff.
    destruct (Z.leb_spec first_date_month n); [|by left].
    destruct (Z.leb_spec n last_date_month); [|by right]. exfalso. apply Hn. lia. }
  assert (H100 : first_date_month ≤ 100 * 12) by (unfold first_date_month; lia).
  split_and!.
  - intros Hd. destruct (month_number_inv (month_number y m + d)) as [Hm' Hn].
    exists ((month_number y m + d) / 12), ((month_number y m + d) mod 12 + 1).
    rewrite addMonths_strFromYM, Hin by done.
    split; [done|]. split; [done|]. split; [done|].
    intros Hy'. apply keyFromStr_strFromYM; lia.
  - intros Hd. by rewrite addMonths_strFromYM, Hout.
  - rewrite addMonths_strFromYM by done. rewrite Z.add_0_r.
    rewrite Hin by (unfold month_number in *; lia).
    destruct (month_number_inv (month_number y m)) as [Hb Hn].
    set (q := month_number y m / 12) in *. set (r := month_number y m mod 12) in *.
    unfold month_number in Hn.
    assert (Hq : q = y ∧ r + 1 = m) by lia. destruct Hq as [-> ->]. done.
  - intros a b Ha Hla. rewrite !addMonths_strFromYM by done.
    destruct (month_number_inv (month_number y m + a)) as [Hm' Hn].
    assert (Hfa : first_date_month ≤ month_number y m + a).
    { pose proof (Z.div_mod (month_number y m + a) 12 ltac:(lia)) as Hdm.
      pose proof (Z.mod_pos_bound (month_number y m + a) 12 ltac:(lia)). lia. }
    rewrite Hin by lia.
    rewrite addMonths_strFromYM by (rewrite ?Hn; done). rewrite Hn.
    by rewrite Z.add_assoc.
Qed.

Lemma addMonths_shift_witness :
  (first_date_month ≤ month_number 2024 3 + (-11) ≤ last_date_month →
   ∃ y' m', 1 ≤ m' ≤ 12 ∧ month_number y' m' = month_number 2024 3 + (-11) ∧
            addMonths (strFromYM (ofZ 2024) (ofZ 3)) (ofZ (-11)) = strFromYM (ofZ y') (ofZ m') ∧
            (1 ≤ y' → keyFromStr (addMonths (strFromYM (ofZ 2024) (ofZ 3)) (ofZ (-11)))
                      = Some (ymToKey (ofZ y') (ofZ m')))) ∧
  (¬ (first_date_month ≤ month_number 2024 3 + (-11) ≤ last_date_month) →
   addMonths (strFromYM (ofZ 2024) (ofZ 3)) (ofZ (-11)) = "NaN-NaN") ∧
  addMonths (strFromYM (ofZ 2024) (ofZ 3)) (ofZ 0) = strFromYM (ofZ 2024) (ofZ 3) ∧
  (∀ a b, 100 ≤ (month_number 2024 3 + a) / 12 → month_number 2024 3 + a ≤ last_date_month →
          addMonths (addMonths (strFromYM (ofZ 2024) (ofZ 3)) (ofZ a)) (ofZ b)
          = addMonths (strFromYM (ofZ 2024) (ofZ 3)) (ofZ (a + b))).
Proof. apply addMonths_shift; [lia | lia | vm_compute; discriminate]. Defined.

(** beyond the range of [Date]: one month after September 275760, and any
    month of the year 300000 *)
Example addMonths_out_of_range :
  addMonths "275760-09" (ofZ 1) = "NaN-NaN" ∧
  addMonths "275760-09" (ofZ 0) = "275760-09" ∧
  addMonths "300000-01" (ofZ 0) = "NaN-NaN".
Proof. repeat split; vm_compute; reflexivity. Qed.

(** the clamp of the string of a calendar month between the strings of two
    others *)
Lemma clampYM_months (y m y1 m1 y2 m2 : Z) :
  1 ≤ y → 1 ≤ y1 → 1 ≤ y2 → 1 ≤ m ≤ 12 → 1 ≤ m1 ≤ 12 → 1 ≤ m2 ≤ 12 →
  month_number y1 m1 ≤ month_number y2 m2 → month_number y m ≤ month_number y2 m2 →
  ∃ ys ms, 1 ≤ ys ∧ 1 ≤ ms ≤ 12 ∧
    clampYM (strFromYM (ofZ y) (ofZ m)) (strFromYM (ofZ y1) (ofZ m1))
      (strFromYM (ofZ y2) (ofZ m2))
    = strFromYM (ofZ ys) (ofZ ms) ∧
    month_number ys ms = Z.max (month_number y1 m1) (month_number y m).
Proof.
  intros Hy Hy1 Hy2 Hm Hm1 Hm2 H12 Hle.
  rewrite (clampYM_keys _ _ _ (ofZ (y * 100 + m)) (ofZ (y1 * 100 + m1))
             (ofZ (y2 * 100 + m2)));
    try (rewrite <- ymToKey_ofZ; apply keyFromStr_strFromYM; lia).
  unfold gtb. rewrite !ltb_ofZ.
  destruct (key_month_number y m y1 m1 Hm Hm1) as [_ Hlt].
  destruct (key_month_number y2 m2 y m Hm2 Hm) as [_ Hgt].
  case_bool_decide as H1.
  - exists y1, m1. split_and!; try done; lia.
  - rewrite bool_decide_eq_false_2 by lia. exists y, m. split_and!; try done; lia.
Qed.

(** X22: with bounds that are calendar months, the last of them in a year
    from 100 on and inside the range of [Date] (up to September 275760),
    [setPresetLastN] of a whole number [n >= 1] leaves the window that ends
    at the last month of the data and starts [n - 1] months earlier, or at
    the first month of the data when that is later: the last [n] months, or
    all of them when the data has fewer. *)
Theorem setPresetLastN_window (n y1 m1 y2 m2 : Z) (st : Dates) :
  w_minMonthStr st = strFromYM (ofZ y1) (ofZ m1) →
  w_maxMonthStr st = strFromYM (ofZ y2) (ofZ m2) →
  1 ≤ y1 → 100 ≤ y2 → 1 ≤ m1 ≤ 12 → 1 ≤ m2 ≤ 12 →
  month_number y1 m1 ≤ month_number y2 m2 →
  month_number y2 m2 ≤ last_date_month →
  1 ≤ n ≤ month_number y2 m2 - 11 →
  ∃ ys ms, 1 ≤ ms ≤ 12 ∧
    w_dateStart (setPresetLastN (ofZ n) st) = strFromYM (ofZ ys) (ofZ ms) ∧
    w_dateEnd (setPresetLastN (ofZ n) st) = strFromYM (ofZ y2) (ofZ m2) ∧
    month_number ys ms = Z.max (month_number y1 m1) (month_number y2 m2 - (n - 1)) ∧
    w_selectedYear (setPresetLastN (ofZ n) st) = "all" ∧
    touched (w_userRange (setPresetLastN (ofZ n) st)) = true.
Proof.
  intros Hmin Hmax Hy1 Hy2 Hm1 Hm2 H12 Hlast Hn. unfold setPresetLastN.
  assert (Kmax : keyFromStr (w_maxMonthStr st) = Some (ymToKey (ofZ y2) (ofZ m2))).
  { rewrite Hmax. apply keyFromStr_strFromYM; lia. }
  rewrite (keyFromStr_nonempty _ _ Kmax). cbn [w_dateStart w_dateEnd w_selectedYear
    w_userRange touched]. rewrite Hmin, Hmax, neg_ofZ, add_ofZ.
  rewrite addMonths_strFromYM by done.
  replace ((first_date_month <=? month_number y2 m2 + (- n + 1)) &&
           (month_number y2 m2 + (- n + 1) <=? last_date_month)) with true
    by (symmetry; apply andb_true_iff; split; apply Z.leb_le;
        unfold first_date_month; lia).
  destruct (month_number_inv (month_number y2 m2 + (- n + 1))) as [Hb Hinv].
  set (q := (month_number y2 m2 + (- n + 1)) / 12) in *.
  set (r := (month_number y2 m2 + (- n + 1)) mod 12 + 1) in *.
  assert (Hq : 1 ≤ q).
  { clear -Hinv Hn Hb. unfold month_number in Hinv, Hn. lia. }
  destruct (clampYM_months q r y1 m1 y2 m2 Hq Hy1 ltac:(lia) Hb Hm1 Hm2 H12 ltac:(lia))
    as (ys & ms & _ & Hms & -> & Hnum).
  exists ys, ms. split_and!; try done; lia.
Qed.

Lemma setPresetLastN_window_witness :
  ∃ ys ms, 1 ≤ ms ≤ 12 ∧
    w_dateStart (setPresetLastN (ofZ 12)
      (mkDates "" "" "all" "2021-03" "2024-06" (mkUserRange false None None)))
    = strFromYM (ofZ ys) (ofZ ms) ∧
    w_dateEnd (setPresetLastN (ofZ 12)
      (mkDates "" "" "all" "2021-03" "2024-06" (mkUserRange false None None)))
    = strFromYM (ofZ 2024) (ofZ 6) ∧
    month_number ys ms = Z.max (month_number 2021 3) (month_number 2024 6 - (12 - 1)) ∧
    w_selectedYear (setPresetLastN (ofZ 12)
      (mkDates "" "" "all" "2021-03" "2024-06" (mkUserRange false None None))) = "all" ∧
    touched (w_userRange (setPresetLastN (ofZ 12)
      (mkDates "" "" "all" "2021-03" "2024-06" (mkUserRange false None None)))) = true.
Proof.
  apply (setPresetLastN_window 12 2021 3 2024 6); try reflexivity;
    unfold month_number, last_date_month; lia.
Defined.

(** X23: with bounds that are calendar months of years up to
    [max_exact_year] (so that their keys are exact), [setPresetYTD] leaves
    the window from January of the last year of the data, or from the first
    month of the data when that is later, to the last month, and selects
    that year; [setPresetAll] leaves the bounds themselves. *)
Theorem presets_window (y1 m1 y2 m2 : Z) (st : Dates) :
  w_minMonthStr st = strFromYM (ofZ y1) (ofZ m1) →
  w_maxMonthStr st = strFromYM (ofZ y2) (ofZ m2) →
  1 ≤ y1 → 1 ≤ y2 ≤ max_exact_year → 1 ≤ m1 ≤ 12 → 1 ≤ m2 ≤ 12 →
  month_number y1 m1 ≤ month_number y2 m2 →
  (∃ ys ms, 1 ≤ ms ≤ 12 ∧
     w_dateStart (setPresetYTD st) = strFromYM (ofZ ys) (ofZ ms) ∧
     w_dateEnd (setPresetYTD st) = strFromYM (ofZ y2) (ofZ m2) ∧
     month_number ys ms = Z.max (month_number y1 m1) (month_number y2 1) ∧
     w_selectedYear (setPresetYTD st) = Z_to_string y2 ∧
     touched (w_userRange (setPresetYTD st)) = true) ∧
  (w_dateStart (setPresetAll st) = strFromYM (ofZ y1) (ofZ m1) ∧
   w_dateEnd (setPresetAll st) = strFromYM (ofZ y2) (ofZ m2) ∧
   w_selectedYear (setPresetAll st) = "all" ∧
   touched (w_userRange (setPresetAll st)) = true).
Proof.
  intros Hmin Hmax Hy1 [Hy2 _] Hm1 Hm2 H12.
  assert (Kmin : keyFromStr (w_minMonthStr st) = Some (ymToKey (ofZ y1) (ofZ m1))).
  { rewrite Hmin. apply keyFromStr_strFromYM; lia. }
  assert (Kmax : keyFromStr (w_maxMonthStr st) = Some (ymToKey (ofZ y2) (ofZ m2))).
  { rewrite Hmax. apply keyFromStr_strFromYM; lia. }
  split.
  - unfold setPresetYTD. rewrite (keyFromStr_nonempty _ _ Kmax).
    cbn [w_dateStart w_dateEnd w_selectedYear w_userRange touched].
    assert (Hparts : StringToNumber (default "" (head (split "-" (w_maxMonthStr st))))
                     = ofZ y2).
    { pose proof (parts_strFromYM y2 m2 Hy2 Hm2) as Hp. rewrite <- Hmax in Hp.
      destruct (split "-" (w_maxMonthStr st)) as [|p ps]; [done|].
      simpl in Hp. injection Hp as Hp _. exact Hp. }
    rewrite Hparts, Hmin, Hmax.
    change (NumberToString (ofZ y2) +:+ "-01") with (strFromYM (ofZ y2) (ofZ 1)).
    rewrite NumberToString_ofZ.
    assert (Hjan : month_number y2 1 ≤ month_number y2 m2) by (unfold month_number; lia).
    destruct (clampYM_months y2 1 y1 m1 y2 m2 Hy2 Hy1 Hy2 ltac:(lia) Hm1 Hm2 H12 Hjan)
      as (ys & ms & _ & Hms & -> & Hnum).
    exists ys, ms. split_and!; try done; lia.
  - unfold setPresetAll.
    rewrite (keyFromStr_nonempty _ _ Kmin), (keyFromStr_nonempty _ _ Kmax).
    cbn [negb andb w_dateStart w_dateEnd w_selectedYear w_userRange touched].
    by rewrite Hmin, Hmax.
Qed.

Lemma presets_window_witness :
  (∃ ys ms, 1 ≤ ms ≤ 12 ∧
     w_dateStart (setPresetYTD
       (mkDates "" "" "all" "2021-03" "2024-06" (mkUserRange false None None)))
     = strFromYM (ofZ ys) (ofZ ms) ∧
     w_dateEnd (setPresetYTD
       (mkDates "" "" "all" "2021-03" "2024-06" (mkUserRange false None None)))
     = strFromYM (ofZ 2024) (ofZ 6) ∧
     month_number ys ms = Z.max (month_number 2021 3) (month_number 2024 1) ∧
     w_selectedYear (setPresetYTD
       (mkDates "" "" "all" "2021-03" "2024-06" (mkUserRange false None None)))
     = Z_to_string 2024 ∧
     touched (w_userRange (setPresetYTD
       (mkDates "" "" "all" "2021-03" "2024-06" (mkUserRange false None None)))) = true) ∧
  (w_dateStart (setPresetAll
     (mkDates "" "" "all" "2021-03" "2024-06" (mkUserRange false None None)))
   = strFromYM (ofZ 2021) (ofZ 3) ∧
   w_dateEnd (setPresetAll
     (mkDates "" "" "all" "2021-03" "2024-06" (mkUserRange false None None)))
   = strFromYM (ofZ 2024) (ofZ 6) ∧
   w_selectedYear (setPresetAll
     (mkDates "" "" "all" "2021-03" "2024-06" (mkUserRange false None None))) = "all" ∧
   touched (w_userRange (setPresetAll
     (mkDates "" "" "all" "2021-03" "2024-06" (mkUserRange false None None)))) = true).
Proof.
  apply (presets_window 2021 3 2024 6); try reflexivity;
    unfold month_number, max_exact_year; lia.
Defined.

(** ** Departments and the category picker *)

Lemma filter_perm_split {A : Type} (f : A → bool) (l : list A) :
  List.filter f l ++ List.filter (λ x, negb (f x)) l ≡ₚ l.
Proof.
  induction l as [|x l IH]; [done|]. cbn [List.filter].
  destruct (f x); cbn [negb app].
  - by rewrite IH.
  - rewrite <- Permutation_middle. by rewrite IH.
Qed.

Lemma concat_nonempty_groups (gs : list Group) :
  concat (g_metrics <$>
            List.filter (λ group, negb (bool_decide (length (g_metrics group) = 0%nat))) gs)
  = concat (g_metrics <$> gs).
Proof.
  induction gs as [|g gs IH]; [done|]. cbn [List.filter].
  case_bool_decide as Hlen; cbn [negb]; rewrite !fmap_cons; cbn [concat]; rewrite IH; [|done].
  by destruct (g_metrics g).
Qed.

Lemma flat_map_filter {A : Type} (f : A → bool) (g : Department → list A)
    (ds : list Department) :
  flat_map (λ d, List.filter f (g d)) ds = List.filter f (flat_map g ds).
Proof.
  induction ds as [|d ds IH]; [done|]. cbn [flat_map]. by rewrite List.filter_app, IH.
Qed.

Lemma NoDup_flattenAllMetrics : NoDup flattenAllMetrics.
Proof. compute_done. Qed.

Lemma filter_sublist {A : Type} (f : A → bool) (l : list A) : List.filter f l `sublist_of` l.
Proof.
  induction l as [|x l IH]; [done|]. cbn [List.filter].
  destruct (f x); [by apply sublist_skip | by apply sublist_cons].
Qed.

Lemma group_keys (availableMetrics : option (list string)) :
  g_key <$> groups availableMetrics
  `sublist_of` ["Equipment"; "Rental"; "Parts"; "Service"; "Other"].
Proof.
  unfold groups.
  assert (He : g_key <$>
    List.filter (λ group, negb (bool_decide (length (g_metrics group) = 0%nat)))
      (map (λ dept, {| g_key := department_name dept; g_label := department_name dept;
                       g_metrics := metricsByDepartment availableMetrics dept |})
         ALL_DEPARTMENTS)
    `sublist_of` ["Equipment"; "Rental"; "Parts"; "Service"]).
  { etrans; [apply fmap_sublist, filter_sublist|]. done. }
  destruct (extraMetrics availableMetrics) as [|x extra].
  - etrans; [exact He|].
    apply (sublist_inserts_r ["Other"] _ ["Equipment"; "Rental"; "Parts"; "Service"]). done.
  - rewrite fmap_app.
    by apply (sublist_app _ ["Equipment"; "Rental"; "Parts"; "Service"] _ ["Other"]).
Qed.

Lemma concat_groups (availableMetrics : option (list string)) :
  concat (g_metrics <$> groups availableMetrics)
  = flat_map (metricsByDepartment availableMetrics) ALL_DEPARTMENTS ++
    extraMetrics availableMetrics.
Proof.
  assert (Hall : concat (g_metrics <$>
                   map (λ dept, {| g_key := department_name dept;
                                   g_label := department_name dept;
                                   g_metrics := metricsByDepartment availableMetrics dept |})
                     ALL_DEPARTMENTS)
                 = flat_map (metricsByDepartment availableMetrics) ALL_DEPARTMENTS).
  { cbn [ALL_DEPARTMENTS map flat_map]. rewrite !fmap_cons. by cbn [concat g_metrics fmap list_fmap]. }
  unfold groups. destruct (extraMetrics availableMetrics) as [|x extra].
  - by rewrite concat_nonempty_groups, app_nil_r.
  - rewrite fmap_app, concat_app, concat_nonempty_groups, Hall.
    cbn [fmap list_fmap concat g_metrics]. by rewrite app_nil_r.
Qed.

(** X24: the groups of the category picker partition the available metrics:
    listed one group after the other, the metrics of the groups are the
    available metrics, each once; no group is empty and no two groups share
    a key.  Without a list of available metrics, the groups are the four
    departments with all their metrics. *)
Theorem groups_partition (available : list string) :
  NoDup available → available ≠ [] →
  concat (g_metrics <$> groups (Some available)) ≡ₚ available ∧
  Forall (λ group, g_metrics group ≠ []) (groups (Some available)) ∧
  NoDup (g_key <$> groups (Some available)) ∧
  concat (g_metrics <$> groups None) = flattenAllMetrics.
Proof.
  intros Hnd Hne. split; [|split; [|split]].
  - destruct available as [|a available']; [done|]. set (available := a :: available') in *.
    assert (Hparts : concat (g_metrics <$> groups (Some available))
                     = List.filter (includes available) flattenAllMetrics ++
                       List.filter (λ m, negb (includes flattenAllMetrics m)) available).
    { rewrite concat_groups. unfold flattenAllMetrics. by rewrite <- flat_map_filter. }
    rewrite Hparts. rewrite <- (filter_perm_split (includes flattenAllMetrics) available) at 3.
    apply Permutation_app; [|done]. apply NoDup_Permutation.
    + apply NoDup_filter_list, NoDup_flattenAllMetrics.
    + by apply NoDup_filter_list.
    + intros m. rewrite !elem_of_filter_list, !includes_true. tauto.
  - unfold groups. apply Forall_forall. intros g Hg.
    assert (Hin : g ∈ List.filter (λ group, negb (bool_decide (length (g_metrics group) = 0%nat)))
                       (map (λ dept, {| g_key := department_name dept;
                                        g_label := department_name dept;
                                        g_metrics := metricsByDepartment (Some available) dept |})
                          ALL_DEPARTMENTS) ∨
                  (g_metrics g = extraMetrics (Some available) ∧
                   extraMetrics (Some available) ≠ [])).
    { destruct (extraMetrics (Some available)) as [|x extra]; [by left|].
      apply elem_of_app in Hg as [Hg | ->%list_elem_of_singleton]; [by left | by right]. }
    destruct Hin as [Hin | [-> Hx]]; [|done].
    apply elem_of_filter_list in Hin as [_ Hlen]. apply negb_true_iff in Hlen.
    apply bool_decide_eq_false in Hlen. by destruct (g_metrics g).
  - eapply sublist_NoDup; [|apply group_keys]. compute_done.
  - rewrite concat_groups. cbn [extraMetrics]. by rewrite app_nil_r.
Qed.

Lemma groups_partition_witness :
  concat (g_metrics <$> groups (Some ["Total Parts"; "Customer"; "Fuel"])) ≡ₚ
    ["Total Parts"; "Customer"; "Fuel"] ∧
  Forall (λ group, g_metrics group ≠ []) (groups (Some ["Total Parts"; "Customer"; "Fuel"])) ∧
  NoDup (g_key <$> groups (Some ["Total Parts"; "Customer"; "Fuel"])) ∧
  concat (g_metrics <$> groups None) = flattenAllMetrics.
Proof.
  apply groups_partition; [|done]. compute_done.
Defined.

Lemma forallb_includes (sel l : list string) :
  forallb (includes sel) l = true ↔ ∀ m, m ∈ l → m ∈ sel.
Proof.
  rewrite forallb_forall. split.
  - intros H m Hm. apply includes_true, H. by apply list_elem_of_In.
  - intros H m Hm. apply includes_true, H. by apply list_elem_of_In.
Qed.

(** X25: the checkbox of a group is a true toggle: when the group has
    metrics, [toggleGroupAll] hands [onChange] a selection in which the
    group is fully selected exactly when it was not before; it removes all
    the metrics of a fully selected group and adds the missing ones of any
    other, leaving the metrics outside the group as they were; for a key
    without a group [onChange] is not called. *)
Theorem toggleGroupAll_toggles (gs : list Group) (selectedMetrics : list string)
    (key : string) :
  (find_group gs key = None → toggleGroupAll gs selectedMetrics key = None) ∧
  (∀ group, find_group gs key = Some group →
     ∃ next, toggleGroupAll gs selectedMetrics key = Some next ∧
       isGroupAllSelected gs next key = negb (isGroupAllSelected gs selectedMetrics key) ∧
       (∀ m, m ∉ g_metrics group → (m ∈ next ↔ m ∈ selectedMetrics)) ∧
       (∀ m, m ∈ g_metrics group →
             (m ∈ next ↔ isGroupAllSelected gs selectedMetrics key = false))).
Proof.
  split; [by unfold toggleGroupAll; intros ->|].
  intros group Hg. unfold toggleGroupAll, isGroupAllSelected. rewrite Hg.
  assert (Hne : g_metrics group ≠ []).
  { unfold find_group in Hg. destruct (List.find _ gs) as [g|]; [|done].
    case_bool_decide as Hlen; [done|]. injection Hg as ->. by destruct (g_metrics group). }
  destruct (forallb (includes selectedMetrics) (g_metrics group)) eqn:Hall.
  - eexists. split; [done|]. split; [|split].
    + cbn [negb]. apply not_true_is_false. rewrite forallb_includes. intros H.
      destruct (g_metrics group) as [|m ms] eqn:Hm; [done|].
      specialize (H m (list_elem_of_here _ _)).
      apply elem_of_filter_list in H as [_ H]. apply negb_true_iff, includes_false in H.
      apply H. apply list_elem_of_here.
    + intros m Hm. rewrite elem_of_filter_list, negb_true_iff, includes_false. tauto.
    + intros m Hm. rewrite elem_of_filter_list, negb_true_iff, includes_false.
      split; [tauto | done].
  - eexists. split; [done|]. split; [|split].
    + cbn [negb]. apply forallb_includes. intros m Hm.
      rewrite elem_of_distinct, elem_of_app. by right.
    + intros m Hm. rewrite elem_of_distinct, elem_of_app. tauto.
    + intros m Hm. rewrite elem_of_distinct, elem_of_app. tauto.
Qed.

(** X26: [departmentForMetric] inverts the department table: it returns a
    department exactly for the metrics of that department, and [null]
    exactly for the metrics of no department; no metric belongs to two
    departments. *)
Theorem departmentForMetric_spec (metric : string) :
  NoDup flattenAllMetrics ∧
  (∀ d, departmentForMetric metric = Some d ↔ metric ∈ metricsForDepartment d) ∧
  (departmentForMetric metric = None ↔ metric ∉ flattenAllMetrics).
Proof.
  split; [apply NoDup_flattenAllMetrics|].
  assert (Hdisj : ∀ d d', metric ∈ DEPT_MAP d → metric ∈ DEPT_MAP d' → d = d').
  { intros d d' Hd Hd'. destruct (decide (d = d')) as [|Hne]; [done|]. exfalso.
    pose proof NoDup_flattenAllMetrics as Hnd. unfold flattenAllMetrics in Hnd.
    cbn [flat_map ALL_DEPARTMENTS] in Hnd. rewrite app_nil_r in Hnd.
    apply NoDup_app in Hnd as (_ & H1 & Hnd). apply NoDup_app in Hnd as (_ & H2 & Hnd).
    apply NoDup_app in Hnd as (_ & H3 & _).
    destruct d, d'; try done;
      first [ eapply H1; [exact Hd|] | eapply H1; [exact Hd'|]
            | eapply H2; [exact Hd|] | eapply H2; [exact Hd'|]
            | eapply H3; [exact Hd|] | eapply H3; [exact Hd'|] ];
      rewrite ?elem_of_app; tauto. }
  split.
  - intros d. unfold departmentForMetric, metricsForDepartment. split.
    + intros [_ H]%find_some. by apply includes_true.
    + intros Hd. destruct (List.find _ ALL_DEPARTMENTS) as [d'|] eqn:Hf.
      * apply find_some in Hf as [_ Hd']. apply includes_true in Hd'.
        f_equal. by apply Hdisj.
      * exfalso. assert (Hall : In d ALL_DEPARTMENTS) by (destruct d; cbn; tauto).
        apply (find_none _ _ Hf) in Hall. by apply includes_false in Hall.
  - unfold departmentForMetric, flattenAllMetrics. split.
    + intros Hf Hin. apply list_elem_of_In, in_flat_map in Hin as (d & Hd & Hm).
      apply (find_none _ _ Hf) in Hd. apply includes_false in Hd.
      by apply Hd, list_elem_of_In.
    + intros Hnot. destruct (List.find _ ALL_DEPARTMENTS) as [d|] eqn:Hf; [|done].
      exfalso. apply find_some in Hf as [Hd Hm]. apply includes_true in Hm.
      apply Hnot, list_elem_of_In, in_flat_map. exists d. split; [done|].
      by apply list_elem_of_In.
Qed.

(** ** File sizes *)

Example formatFileSize_samples :
  formatFileSize (Some (ofZ 0)) = Some "0.00 B" ∧
  formatFileSize (Some (ofZ 1023)) = Some "1023 B" ∧
  formatFileSize (Some (ofZ 1536)) = Some "1.50 KB" ∧
  formatFileSize (Some (ofZ 20000000)) = Some "19.1 MB" ∧
  formatFileSize (Some (ofZ (5 * 1024 ^ 5))) = Some "5120 TB" ∧
  formatFileSize (Some (ofZ (-5))) = Some "-5.00 B" ∧
  formatFileSize (Some PInf) = None.
Proof. repeat split; vm_compute; reflexivity. Qed.

Lemma div_one (q : Qc) : div (Fin q) (ofZ 1) = Fin q.
Proof.
  unfold div, ofZ. destruct (decide (Qc_of_Z 1 = 0%Qc)) as [H|_]; [by apply Qc_of_Z_ne_0 in H|].
  f_equal. rewrite Z2Qc_inj_1. field. discriminate.
Qed.

Lemma div_div_ofZ (q : Qc) (a b : Z) :
  a ≠ 0 → b ≠ 0 → div (div (Fin q) (ofZ a)) (ofZ b) = div (Fin q) (ofZ (a * b)).
Proof.
  intros Ha Hb. unfold div, ofZ.
  destruct (decide (Qc_of_Z a = 0%Qc)) as [H|Ha']; [by apply Qc_of_Z_ne_0 in H|].
  destruct (decide (Qc_of_Z b = 0%Qc)) as [H|Hb']; [by apply Qc_of_Z_ne_0 in H|].
  destruct (decide (Qc_of_Z (a * b) = 0%Qc)) as [H|_]; [apply Qc_of_Z_ne_0 in H; [done|lia]|].
  f_equal. rewrite Z2Qc_inj_mul. by field.
Qed.

(** the loop of [formatFileSize], from the round [j] on *)
Lemma scale_units_spec (q : Qc) (fuel j : nat) :
  (fuel + j = 4)%nat →
  ∃ k, (j ≤ k ≤ 4)%nat ∧
    scale_units fuel (div (Fin q) (ofZ (1024 ^ Z.of_nat j))) j
    = (div (Fin q) (ofZ (1024 ^ Z.of_nat k)), k) ∧
    (∀ i, (j ≤ i < k)%nat → geb (div (Fin q) (ofZ (1024 ^ Z.of_nat i))) (ofZ 1024) = true) ∧
    (k = 4%nat ∨ geb (div (Fin q) (ofZ (1024 ^ Z.of_nat k))) (ofZ 1024) = false).
Proof.
  revert j. induction fuel as [|fuel IH]; intros j Hj.
  - exists j. split; [lia|]. split; [done|]. split; [intros i; lia|]. left. lia.
  - cbn [scale_units].
    destruct (geb (div (Fin q) (ofZ (1024 ^ Z.of_nat j))) (ofZ 1024)) eqn:Hge.
    2:{ exists j. split; [lia|]. split; [done|]. split; [intros i; lia | by right]. }
    rewrite bool_decide_eq_true_2 by (cbn; lia). cbn [andb].
    rewrite div_div_ofZ by lia.
    replace (1024 ^ Z.of_nat j * 1024) with (1024 ^ Z.of_nat (S j))
      by (rewrite Nat2Z.inj_succ, Z.pow_succ_r; lia).
    destruct (IH (S j)) as (k & Hk & Heq & Hlt & Hend); [lia|].
    exists k. split; [lia|]. split; [done|]. split; [|done].
    intros i Hi. destruct (decide (i = j)) as [->|Hne]; [done|]. apply Hlt. lia.
Qed.

(** X27: [formatFileSize] gives [null] for [null] and for a number that is
    not finite; otherwise it divides by 1024 as long as the value is at
    least 1024 and a larger unit exists, so that the unit shown is the [k]-th
    of B, KB, MB, GB, TB for the first [k] with bytes / 1024^k < 1024, or TB
    when there is none below 4, and the number shown is bytes / 1024^k with
    0, 1 or 2 fraction digits. *)
Theorem formatFileSize_spec (bytes : num) :
  formatFileSize None = None ∧
  (isFinite bytes = false → formatFileSize (Some bytes) = None) ∧
  (isFinite bytes = true →
   ∃ k unit, (k ≤ 4)%nat ∧ units !! k = Some unit ∧
     formatFileSize (Some bytes)
     = Some (toFixed (div bytes (ofZ (1024 ^ Z.of_nat k)))
               (size_precision (div bytes (ofZ (1024 ^ Z.of_nat k)))) +:+ " " +:+ unit) ∧
     (∀ j, (j < k)%nat → geb (div bytes (ofZ (1024 ^ Z.of_nat j))) (ofZ 1024) = true) ∧
     (k = 4%nat ∨ geb (div bytes (ofZ (1024 ^ Z.of_nat k))) (ofZ 1024) = false)).
Proof.
  split; [done|]. split.
  - intros Hf. unfold formatFileSize. by rewrite Hf.
  - intros Hf. destruct bytes as [| | |q]; try done.
    destruct (scale_units_spec q 4 0 eq_refl) as (k & Hk & Heq & Hlt & Hend).
    assert (Hunit : is_Some (units !! k)) by (apply lookup_lt_is_Some; cbn; lia).
    destruct Hunit as [unit Hunit]. exists k, unit.
    split; [lia|]. split; [done|]. split; [|split; [|done]].
    + unfold formatFileSize. cbn [isFinite negb].
      change (length units - 1)%nat with 4%nat.
      rewrite <- (div_one q) at 1. change 1 with (1024 ^ Z.of_nat 0) at 1.
      rewrite Heq. by rewrite Hunit.
    + intros j Hj. apply Hlt. lia.
Qed.

(** * Properties *)
Example splitFileSegments_samples :
  splitFileSegments "historical_sales.csv" = ["historical"; "sales"] ∧
  splitFileSegments "--North--east 2024.CSV" = ["North"; "east"; "2024"] ∧
  splitFileSegments ".csv" = [] ∧
  (e_id <$> buildDatasetEntry "parts-by_branch.csv" (mkDatasetRecord None None None))
  = Some "Parts_By_Branch" ∧
  (e_id <$> buildDatasetEntry "historical_all.csv" (mkDatasetRecord None None None))
  = Some "Historical_All".
Proof. repeat split; vm_compute; reflexivity. Qed.

(** ** The list of datasets *)

Lemma merge_entry_id (existing entry : DatasetEntry) :
  e_id (merge_entry existing entry) = e_id existing.
Proof. done. Qed.

Lemma set_entry_ids (entry : DatasetEntry) (map : list DatasetEntry) :
  e_id <$> set_entry entry map
  = if bool_decide (e_id entry ∈ e_id <$> map) then e_id <$> map
    else (e_id <$> map) ++ [e_id entry].
Proof.
  induction map as [|existing map IH]; [done|]. cbn [set_entry].
  rewrite eqb_bool_decide. destruct (decide (e_id existing = e_id entry)) as [Heq|Hne].
  - rewrite !bool_decide_eq_true_2; [done | rewrite fmap_cons, Heq; apply list_elem_of_here | done].
  - rewrite (bool_decide_eq_false_2 (e_id existing = e_id entry)) by done.
    rewrite !fmap_cons, IH. destruct (decide (e_id entry ∈ e_id <$> map)) as [Hin|Hin].
    + rewrite !bool_decide_eq_true_2; [done | by apply list_elem_of_further | done].
    + rewrite !bool_decide_eq_false_2; [done | | done].
      intros [?|?]%elem_of_cons; congruence.
Qed.

Lemma set_entry_elem (entry e : DatasetEntry) (map : list DatasetEntry) :
  e ∈ set_entry entry map →
  e ∈ map ∨ e = entry ∨ ∃ existing, existing ∈ map ∧ e = merge_entry existing entry.
Proof.
  induction map as [|existing map IH]; cbn [set_entry].
  - intros ->%list_elem_of_singleton. by right; left.
  - destruct (String.eqb _ _).
    + intros [->|He]%elem_of_cons.
      * right. right. exists existing. split; [apply list_elem_of_here | done].
      * left. by apply list_elem_of_further.
    + intros [->|He]%elem_of_cons; [left; apply list_elem_of_here|].
      destruct (IH He) as [H|[H|(ex & Hex & ->)]].
      * left. by apply list_elem_of_further.
      * by right; left.
      * right. right. exists ex. split; [by apply list_elem_of_further | done].
Qed.

Lemma dataset_fold_spec (records : list (option DatasetRecord)) :
  let map := fold_left dataset_step records [] in
  NoDup (e_id <$> map) ∧
  (∀ id, id ∈ e_id <$> map
         ↔ ∃ record entry, record ∈ records ∧ record_entry record = Some entry ∧
                           e_id entry = id) ∧
  ∀ e, e ∈ map → from_record records e.
Proof.
  induction records as [|record records (I1 & I2 & I3)] using rev_ind.
  { cbn. split; [constructor|]. split.
    - intros id. split; [by intros ?%elem_of_nil|].
      by intros (r & _ & ?%elem_of_nil & _).
    - by intros e ?%elem_of_nil. }
  cbn zeta. rewrite fold_left_app. cbn [fold_left].
  set (map := fold_left dataset_step records []) in *.
  assert (Hmono : ∀ e, from_record records e → from_record (records ++ [record]) e).
  { intros e (r & en & Hr & H). exists r, en. split; [apply elem_of_app; by left | done]. }
  destruct (record_entry record) as [entry|] eqn:Hentry.
  - assert (Hstep : dataset_step map record = set_entry entry map).
    { unfold dataset_step. unfold record_entry in Hentry.
      destruct record as [r|]; [|done]. destruct (rec_file r); [|done]. by rewrite Hentry. }
    rewrite Hstep. split; [|split].
    + rewrite set_entry_ids. case_bool_decide as Hin; [done|].
      apply NoDup_app. split; [done|]. split; [|apply NoDup_singleton].
      by intros x Hx ->%list_elem_of_singleton.
    + intros id. rewrite set_entry_ids. split.
      * intros Hid.
        assert (Hcase : id ∈ e_id <$> map ∨ id = e_id entry).
        { case_bool_decide; [by left|].
          apply elem_of_app in Hid as [?|?%list_elem_of_singleton]; auto. }
        destruct Hcase as [Hid'| ->].
        -- apply I2 in Hid' as (r & en & Hr & H). exists r, en.
           split; [apply elem_of_app; by left | done].
        -- exists record, entry. split; [|done]. apply elem_of_app. right.
           apply list_elem_of_here.
      * intros (r & en & [Hr | ->%list_elem_of_singleton]%elem_of_app & Hen & <-).
        -- assert (Hid : e_id en ∈ e_id <$> map) by (apply I2; eauto).
           case_bool_decide; [done|]. apply elem_of_app. by left.
        -- rewrite Hentry in Hen. injection Hen as <-.
           case_bool_decide; [done|]. apply elem_of_app. right. apply list_elem_of_here.
    + intros e [He | [-> | (ex & Hex & ->)]]%set_entry_elem.
      * by apply Hmono, I3.
      * exists record, entry. split; [|done]. apply elem_of_app. right. apply list_elem_of_here.
      * destruct (I3 ex Hex) as (r & en & Hr & H). exists r, en.
        split; [apply elem_of_app; by left | exact H].
  - assert (Hstep : dataset_step map record = map).
    { unfold dataset_step. unfold record_entry in Hentry.
      destruct record as [r|]; [|done]. destruct (rec_file r); [|done]. by rewrite Hentry. }
    rewrite Hstep. split; [done|]. split; [|by intros e He; apply Hmono, I3].
    intros id. rewrite I2. split.
    + intros (r & en & Hr & H). exists r, en. split; [apply elem_of_app; by left | done].
    + intros (r & en & [Hr | ->%list_elem_of_singleton]%elem_of_app & Hen & Hid);
        [eauto | congruence].
Qed.

Lemma default_first (collate : string → string → num) (l : list DatasetEntry) :
  DEFAULT_DATASET ∈ e_id <$> l →
  e_id <$> head (sort_by (dataset_order collate) l) = Some DEFAULT_DATASET.
Proof.
  induction l as [|x l IH]; [by intros ?%elem_of_nil|].
  intros Hin. cbn [sort_by foldr]. fold (sort_by (dataset_order collate) l).
  destruct (decide (e_id x = DEFAULT_DATASET)) as [Hx|Hx].
  - destruct (sort_by (dataset_order collate) l) as [|y s]; cbn [insert_by]; [by rewrite <- Hx|].
    unfold dataset_order at 1. rewrite Hx, String.eqb_refl.
    replace (gtb (ofZ (-1)) zero) with false by (symmetry; compute_done). cbn. by rewrite Hx.
  - rewrite fmap_cons in Hin. apply elem_of_cons in Hin as [Hin|Hin]; [congruence|].
    specialize (IH Hin). destruct (sort_by (dataset_order collate) l) as [|y s]; [done|].
    cbn in IH. injection IH as Hy. cbn [insert_by]. unfold dataset_order at 1.
    rewrite (proj2 (String.eqb_neq _ _) Hx), Hy, String.eqb_refl.
    replace (gtb (ofZ 1) zero) with true by (symmetry; compute_done). cbn. by rewrite Hy.
Qed.

(** X28: [normalizeDatasetRecords] keeps one entry per dataset id: the ids
    of the result are distinct and are exactly the ids of the entries built
    from the records that name a file; every entry has the id, file and
    label built from one of those records; and the default dataset, when it
    is there, comes first. *)
Theorem normalizeDatasetRecords_spec (collate : string → string → num)
    (records : list (option DatasetRecord)) :
  NoDup (e_id <$> normalizeDatasetRecords collate records) ∧
  (∀ id, id ∈ e_id <$> normalizeDatasetRecords collate records
         ↔ ∃ record entry, record ∈ records ∧ record_entry record = Some entry ∧
                           e_id entry = id) ∧
  (∀ e, e ∈ normalizeDatasetRecords collate records → from_record records e) ∧
  (DEFAULT_DATASET ∈ e_id <$> normalizeDatasetRecords collate records →
   e_id <$> head (normalizeDatasetRecords collate records) = Some DEFAULT_DATASET).
Proof.
  destruct (dataset_fold_spec records) as (H1 & H2 & H3). cbn zeta in *.
  unfold normalizeDatasetRecords. split; [|split; [|split]].
  - by rewrite sort_by_perm.
  - intros id. by rewrite sort_by_perm.
  - intros e He. apply H3. by rewrite elem_of_sort_by in He.
  - intros Hin. apply default_first. by rewrite sort_by_perm in Hin.
Qed.
